(** * goplay: container-aware GOMAXPROCS debug tool

    A shallow embedding of the cgroup CPU-limit resolver of [main.go]
    (functions [cgroupLimit], [getEffectiveCPULimit], [getCgroupV1Limit],
    [getCgroupV2Limit], [getProcessCgroupPath], [walkHierarchy],
    [calculateV1CPUQuota], [calculateV2CPUQuota], [readIntFromFile]) and of
    the parts of the Go standard library they call, followed by the
    properties of the resolver.

    - Go strings are byte strings: [string] over [ascii].
    - [float64] is [spec_float] at precision 53 and [emax] 1024.
    - [int64] is [Z], with the range check of [strconv.ParseInt].
    - Go's [(value, error)] results are pairs with an [option error].
    - File-system calls are logged in a writer monad over a read-only
      file system, so that "which files were touched" can be stated.
    - The [for] loop of [walkHierarchy] takes fuel; running out of fuel is
      [None]. *)

From Stdlib Require Import ZArith List Bool Lia Ascii String.
From Stdlib Require Import QArith Qround Qabs Qpower Lqa.
From Stdlib Require Import Floats.SpecFloat.
Import ListNotations.

Close Scope Q_scope.

Local Open Scope list_scope.
Local Open Scope string_scope.

(** ** Byte strings *)

Module Bytes.

Definition slash : ascii := "/"%char.

(** [strings.Split(s, sep)] for a one-byte separator. *)
Fixpoint splitByte (sep : ascii) (s : string) : list string :=
  match s with
  | EmptyString => [EmptyString]
  | String c s' =>
      if Ascii.eqb c sep then EmptyString :: splitByte sep s'
      else match splitByte sep s' with
           | [] => [String c EmptyString]
           | x :: xs => String c x :: xs
           end
  end.

(** [strings.HasPrefix(s, p)]. *)
Fixpoint HasPrefix (s p : string) : bool :=
  match p, s with
  | EmptyString, _ => true
  | String _ _, EmptyString => false
  | String a p', String b s' => Ascii.eqb a b && HasPrefix s' p'
  end.

(** [strings.Contains(s, substr)]: [substr] occurs somewhere in [s]. *)
Fixpoint Contains (s substr : string) : bool :=
  HasPrefix s substr ||
  match s with
  | EmptyString => false
  | String _ s' => Contains s' substr
  end.

(** [strings.Join(elems, sep)]. *)
Fixpoint Join (elems : list string) (sep : string) : string :=
  match elems with
  | [] => ""
  | [e] => e
  | e :: rest => e ++ sep ++ Join rest sep
  end.

(** Sum over the elements of [length e + 1]: the room a list of path
    elements takes when each is followed by one separator. *)
Fixpoint weight (l : list string) : nat :=
  match l with
  | [] => 0
  | e :: rest => S (String.length e) + weight rest
  end.

(** Number of empty elements of a list of path elements. *)
Fixpoint empties (l : list string) : nat :=
  match l with
  | [] => 0
  | e :: rest => (if e =? "" then 1 else 0) + empties rest
  end.

End Bytes.

(** ** [path/filepath] on Unix *)

Module filepath.
Import Bytes.

(** A path is rooted when it begins with the separator. *)
Definition rooted (path : string) : bool :=
  match path with
  | String c _ => Ascii.eqb c slash
  | EmptyString => false
  end.

(** The element pass of [Clean]: empty elements and ["."] are dropped;
    [".."] removes the element before it, is dropped at the root of a
    rooted path, and is kept at the front of a relative one. [stack]
    holds the elements kept so far, last one first. *)
Fixpoint cleanElems (isRooted : bool) (stack elems : list string) : list string :=
  match elems with
  | [] => rev stack
  | e :: rest =>
      if (e =? "") || (e =? ".") then cleanElems isRooted stack rest
      else if e =? ".." then
        match stack with
        | top :: stack' =>
            if top =? ".." then cleanElems isRooted (e :: stack) rest
            else cleanElems isRooted stack' rest
        | [] =>
            if isRooted then cleanElems isRooted [] rest
            else cleanElems isRooted [e] rest
        end
      else cleanElems isRooted (e :: stack) rest
  end.

(** [filepath.Clean]: the shortest path name equivalent to [path] by
    purely lexical processing. *)
Definition Clean (path : string) : string :=
  if path =? "" then "."
  else
    let out := Join (cleanElems (rooted path) [] (splitByte slash path)) "/" in
    if rooted path then "/" ++ out
    else if out =? "" then "." else out.

(** [filepath.Join] of two elements: leading empty elements are ignored,
    the rest is joined with the separator and cleaned. *)
Definition Join2 (a b : string) : string :=
  if negb (a =? "") then Clean (a ++ "/" ++ b)
  else if negb (b =? "") then Clean b
  else "".

(** [path[:i+1]] for the last index [i] of a separator in [path]; empty
    when there is none. *)
Fixpoint dirPrefix (path : string) : string :=
  match path with
  | EmptyString => EmptyString
  | String c rest =>
      match dirPrefix rest with
      | EmptyString => if Ascii.eqb c slash then "/" else ""
      | String _ _ as d => String c d
      end
  end.

(** [filepath.Dir]: all but the last element of [path], cleaned. *)
Definition Dir (path : string) : string := Clean (dirPrefix path).

End filepath.

(** ** White space, [strings.TrimSpace] and [strings.Fields] *)

Module Space.

Definition byte (c : ascii) : nat := nat_of_ascii c.

(** Number of bytes of the white-space rune ([unicode.IsSpace]) that [s]
    begins with, [0] when it begins with none. The runes are
    U+0009..U+000D, U+0020, U+0085, U+00A0, U+1680, U+2000..U+200A,
    U+2028, U+2029, U+202F, U+205F and U+3000, in UTF-8. A lead byte is
    never a continuation byte, so a decoder that walks the string from
    either end finds exactly these byte patterns. *)
Definition spaceWidth (s : string) : nat :=
  match s with
  | EmptyString => 0
  | String c0 s1 =>
      let b0 := byte c0 in
      if ((9 <=? b0) && (b0 <=? 13)) || (b0 =? 32) then 1
      else
        match s1 with
        | EmptyString => 0
        | String c1 s2 =>
            let b1 := byte c1 in
            if (b0 =? 194) && ((b1 =? 133) || (b1 =? 160)) then 2
            else
              match s2 with
              | EmptyString => 0
              | String c2 _ =>
                  let b2 := byte c2 in
                  if (b0 =? 225) && (b1 =? 154) && (b2 =? 128) then 3
                  else if (b0 =? 226) && (b1 =? 128) &&
                          (((128 <=? b2) && (b2 <=? 138)) ||
                           (b2 =? 168) || (b2 =? 169) || (b2 =? 175)) then 3
                  else if (b0 =? 226) && (b1 =? 129) && (b2 =? 159) then 3
                  else if (b0 =? 227) && (b1 =? 128) && (b2 =? 128) then 3
                  else 0
              end
        end
  end%nat.

(** Leading white space removed; [skip] counts the bytes still to drop of
    a rune already recognised. *)
Fixpoint trimLeft (skip : nat) (s : string) : string :=
  match s with
  | EmptyString => EmptyString
  | String _ s' =>
      match skip with
      | S k => trimLeft k s'
      | O => match spaceWidth s with
             | O => s
             | S k => trimLeft k s'
             end
      end
  end.

(** Trailing white space removed. What is left of [s'] ends with no
    white-space rune, so [String c t] ends with one only if it is one. *)
Fixpoint trimRight (s : string) : string :=
  match s with
  | EmptyString => EmptyString
  | String c s' =>
      let t := String c (trimRight s') in
      if (0 <? spaceWidth t)%nat && (spaceWidth t =? String.length t)%nat
      then EmptyString else t
  end.

(** [strings.TrimSpace]. *)
Definition TrimSpace (s : string) : string := trimRight (trimLeft 0 s).

Definition flush (cur : string) : list string :=
  if cur =? "" then [] else [cur].

(** The fields of [s] after the field [cur] in progress. *)
Fixpoint fieldsFrom (skip : nat) (cur : string) (s : string) : list string :=
  match s with
  | EmptyString => flush cur
  | String c s' =>
      match skip with
      | S k => fieldsFrom k cur s'
      | O => match spaceWidth s with
             | O => fieldsFrom 0 (cur ++ String c "") s'
             | S k => (flush cur ++ fieldsFrom k "" s')%list
             end
      end
  end.

(** [strings.Fields]: [s] split around each run of white space. *)
Definition Fields (s : string) : list string := fieldsFrom 0 "" s.

End Space.

(** ** Errors *)

Inductive error : Type :=
| PathError (op path : string)           (* *fs.PathError of os.Open, os.ReadFile, read *)
| NumError (func num : string) (range : bool)
                                         (* *strconv.NumError: ErrSyntax, or ErrRange *)
| ErrTooLong                             (* bufio.ErrTooLong *)
| Errorf (msg : string)                  (* fmt.Errorf of a plain message *)
| Wrapf (msg : string) (err : error).    (* fmt.Errorf with %w *)

(** ** [strconv.ParseInt(s, 10, 64)] *)

Module strconv.

Local Open Scope Z_scope.

Definition maxUint64 : Z := 2 ^ 64 - 1.

(** The digit loop of [ParseUint(s, 10, 64)] from the value [n] read so
    far: [inl] the value, [inr range] the kind of failure. *)
Fixpoint parseDigits (n : Z) (s : string) : Z + bool :=
  match s with
  | EmptyString => inl n
  | String c s' =>
      let b := Z.of_nat (nat_of_ascii c) in
      if (48 <=? b) && (b <=? 57) then
        if n >=? maxUint64 / 10 + 1 then inr true
        else
          let n1 := n * 10 + (b - 48) in
          if n1 >? maxUint64 then inr true else parseDigits n1 s'
      else inr false
  end.

Definition ParseUint (s : string) : Z + bool :=
  if (s =? "")%string then inr false else parseDigits 0 s.

(** [ParseInt(s, 10, 64)]: an optional sign and decimal digits, within
    the range of [int64]. The value that comes with an error is the one
    Go returns. *)
Definition ParseInt (s0 : string) : Z * option error :=
  match s0 with
  | EmptyString => (0, Some (NumError "ParseInt" s0 false))
  | String c rest =>
      let neg := Ascii.eqb c "-" in
      let s := if Ascii.eqb c "+" || neg then rest else s0 in
      match ParseUint s with
      | inr false => (0, Some (NumError "ParseInt" s0 false))
      | r =>
          let un := match r with inl v => v | inr _ => maxUint64 end in
          let cutoff := 2 ^ 63 in
          if negb neg && (un >=? cutoff) then
            (cutoff - 1, Some (NumError "ParseInt" s0 true))
          else if neg && (un >? cutoff) then
            (- cutoff, Some (NumError "ParseInt" s0 true))
          else ((if neg then - un else un), None)
      end
  end.

End strconv.

(** ** [bufio.Scanner] with [ScanLines] *)

Module bufio.

Definition MaxScanTokenSize : nat := 64 * 1024.

(** [dropCR]: one trailing carriage return removed. *)
Fixpoint dropCR (s : string) : string :=
  match s with
  | EmptyString => EmptyString
  | String c EmptyString => if Ascii.eqb c "013" then EmptyString else s
  | String c s' => String c (dropCR s')
  end.

(** The raw lines of the data: the text before each newline, and what
    follows the last newline unless that is empty. *)
Fixpoint rawLines (cur : string) (data : string) : list string :=
  match data with
  | EmptyString => if cur =? "" then [] else [cur]
  | String c data' =>
      if Ascii.eqb c "010" then cur :: rawLines "" data'
      else rawLines (cur ++ String c "") data'
  end.

(** The tokens [Scan] yields, then the value of [Err]: a line that does
    not fit the buffer stops the scan with [ErrTooLong]; otherwise [Err]
    is the read error that ended the data, if any. *)
Fixpoint scan (lines : list string) (readErr : option error)
  : list string * option error :=
  match lines with
  | [] => ([], readErr)
  | l :: rest =>
      if (MaxScanTokenSize <=? String.length l)%nat then ([], Some ErrTooLong)
      else let '(toks, e) := scan rest readErr in (dropCR l :: toks, e)
  end.

Definition ScanLines (data : string) (readErr : option error)
  : list string * option error :=
  scan (rawLines "" data) readErr.

End bufio.

(** ** [float64] and the [math] package *)

Definition float64 : Type := spec_float.

Module math.

Local Open Scope Z_scope.

Definition prec : Z := 53.
Definition emax : Z := 1024.

(** The constants [0] and [2.0], and the conversion [float64(n)] of an
    integer (rounded to nearest, ties to even). *)
Definition of_int (n : Z) : float64 := binary_normalize prec emax n 0 false.
Definition zero : float64 := S754_zero false.
Definition two : float64 := of_int 2.

(** The operators [/], [==], [<] and [>] of Go on [float64]. *)
Definition div (x y : float64) : float64 := SFdiv prec emax x y.
Definition eqb (x y : float64) : bool := SFeqb x y.
Definition ltb (x y : float64) : bool := SFltb x y.
Definition gtb (x y : float64) : bool := SFltb y x.
Definition leb (x y : float64) : bool := SFleb x y.

(** [math.Inf(sign)]: positive infinity if [sign >= 0], else negative. *)
Definition Inf (sign : Z) : float64 := S754_infinity (sign <? 0).

(** [math.IsInf(f, sign)]. *)
Definition IsInf (f : float64) (sign : Z) : bool :=
  match f with
  | S754_infinity false => sign >=? 0
  | S754_infinity true => sign <=? 0
  | _ => false
  end.

Definition IsNaN (f : float64) : bool :=
  match f with S754_nan => true | _ => false end.

Definition Signbit (f : float64) : bool :=
  match f with
  | S754_zero s | S754_infinity s | S754_finite s _ _ => s
  | S754_nan => false
  end.

(** [math.Min]; special cases: Min(x, -Inf) = Min(-Inf, x) = -Inf,
    Min(x, NaN) = Min(NaN, x) = NaN, Min(-0, ±0) = Min(±0, -0) = -0. *)
Definition Min (x y : float64) : float64 :=
  if IsInf x (-1) || IsInf y (-1) then Inf (-1)
  else if IsNaN x || IsNaN y then S754_nan
  else if eqb x zero && eqb x y then (if Signbit x then x else y)
  else if ltb x y then x else y.

(** [math.Max]; special cases: Max(x, +Inf) = Max(+Inf, x) = +Inf,
    Max(x, NaN) = Max(NaN, x) = NaN, Max(+0, ±0) = Max(±0, +0) = +0,
    Max(-0, -0) = -0. *)
Definition Max (x y : float64) : float64 :=
  if IsInf x 1 || IsInf y 1 then Inf 1
  else if IsNaN x || IsNaN y then S754_nan
  else if eqb x zero && eqb x y then (if Signbit x then y else x)
  else if gtb x y then x else y.

(** The rational number a finite [float64] stands for (and 0 for the
    others): [m * 2^e] with the sign. *)
Definition toQ (x : float64) : Q :=
  match x with
  | S754_finite s m e =>
      let z := if s then Zneg m else Zpos m in
      match e with
      | Zneg k => Qmake z (Pos.iter xO 1%positive k)
      | _ => inject_Z (z * 2 ^ e)
      end
  | _ => inject_Z 0
  end.

(** The mantissa [m] of at most 53 bits shifted to 53 bits. *)
Definition normal (m : positive) : positive :=
  match (53 - Zpos (digits2_pos m))%Z with
  | Zpos k => Pos.iter xO m k
  | _ => m
  end.

(** [math.Floor]: the greatest integer value less than or equal to [x];
    Floor(±0) = ±0, Floor(±Inf) = ±Inf, Floor(NaN) = NaN. A finite [x]
    with a negative exponent [e] is [m / 2^(-e)]: its integer part is
    [m] shifted right, and it has a fractional part when bits are
    shifted out. *)
Definition Floor (x : float64) : float64 :=
  match x with
  | S754_finite s m e =>
      if 0 <=? e then x
      else
        let d := Z.shiftr (Zpos m) (- e) in
        let fract := negb (Z.shiftl d (- e) =? Zpos m) in
        if s then SFopp (of_int (if fract then d + 1 else d))
        else of_int d
  | _ => x
  end.

(** [math.Ceil]: the least integer value greater than or equal to [x],
    computed as [-Floor(-x)]. *)
Definition Ceil (x : float64) : float64 := SFopp (Floor (SFopp x)).

End math.

(** ** The file system and the log of its calls *)

Inductive access : Type :=
| AStat (path : string)
| ARead (path : string)
| AOpen (path : string).

(** What the three calls of the program find: whether [os.Stat] succeeds,
    the content [os.ReadFile] returns, and for [os.Open] the data a reader
    gets with the error, if any, that ends it in place of end of file.
    [None] is a failed call. *)
Record FS : Type := mkFS {
  fsStat : string -> bool;
  fsReadFile : string -> option string;
  fsOpen : string -> option (string * option error)
}.

(** A computation returns its value and the calls it made, in order. *)
Definition IO (A : Type) : Type := (A * list access)%type.

Definition ret {A : Type} (a : A) : IO A := (a, []).

Definition bind {A B : Type} (m : IO A) (f : A -> IO B) : IO B :=
  let '(a, l1) := m in
  let '(b, l2) := f a in
  (b, (l1 ++ l2)%list).

Definition value {A : Type} (m : IO A) : A := fst m.
Definition calls {A : Type} (m : IO A) : list access := snd m.

Declare Scope io_scope.
Delimit Scope io_scope with io.
Notation "x <- m ;; k" := (bind m (fun x => k))
  (at level 61, m at next level, right associativity) : io_scope.
Notation "' p <- m ;; k" := (bind m (fun x => let 'p := x in k))
  (at level 61, p pattern, m at next level, right associativity) : io_scope.

Module os.

(** [os.Stat(path)], of which the program keeps the error only. *)
Definition Stat (fs : FS) (path : string) : IO (option error) :=
  ((if fsStat fs path then None else Some (PathError "stat" path)),
   [AStat path]).

(** [os.ReadFile(path)]. *)
Definition ReadFile (fs : FS) (path : string) : IO (string * option error) :=
  (match fsReadFile fs path with
   | Some content => (content, None)
   | None => ("", Some (PathError "open" path))
   end, [ARead path]).

(** [os.Open(path)], with what a reader of the file will get. *)
Definition Open (fs : FS) (path : string)
  : IO (option (string * option error) * option error) :=
  (match fsOpen fs path with
   | Some file => (Some file, None)
   | None => (None, Some (PathError "open" path))
   end, [AOpen path]).

End os.

(** ** The program: [main.go] *)

Import Bytes Space.
Local Open Scope io_scope.

(** cgroupV1 CPU controller path, cgroupV2 root path, and the unlimited
    quota value of cgroup v1. *)
Definition cgroupV1CPUPath : string := "/sys/fs/cgroup/cpu".
Definition cgroupV2Path : string := "/sys/fs/cgroup".
Definition cgroupV1UnlimitedQuota : Z := (-1)%Z.

(** [readIntFromFile] is a helper to read an integer from a file. *)
Definition readIntFromFile (fs : FS) (filePath : string) : IO (Z * option error) :=
  '(content, err) <- os.ReadFile fs filePath ;;
  match err with
  | Some e => ret (0%Z, Some e)
  | None =>
      let '(val, err) := strconv.ParseInt (TrimSpace content) in
      match err with
      | Some e => ret (0%Z, Some e)
      | None => ret (val, None)
      end
  end.

(** [calculateV1CPUQuota] computes the CPU quota for a given cgroup v1 path. *)
Definition calculateV1CPUQuota (fs : FS) (path : string) : IO (float64 * option error) :=
  let quotaFile := filepath.Join2 path "cpu.cfs_quota_us" in
  let periodFile := filepath.Join2 path "cpu.cfs_period_us" in
  '(quota, err) <- readIntFromFile fs quotaFile ;;
  match err with
  | Some e => ret (math.zero, Some e)
  | None =>
      if (quota =? cgroupV1UnlimitedQuota)%Z then ret (math.Inf 1, None)
      else
        '(period, err) <- readIntFromFile fs periodFile ;;
        match err with
        | Some e => ret (math.zero, Some e)
        | None =>
            if (period =? 0)%Z then
              ret (math.zero, Some (Errorf "cpu.cfs_period_us is zero"))
            else ret (math.div (math.of_int quota) (math.of_int period), None)
        end
  end.

(** [calculateV2CPUQuota] computes the CPU quota for a given cgroup v2 path. *)
Definition calculateV2CPUQuota (fs : FS) (path : string) : IO (float64 * option error) :=
  let maxFile := filepath.Join2 path "cpu.max" in
  '(content, err) <- os.ReadFile fs maxFile ;;
  match err with
  | Some e => ret (math.zero, Some e)
  | None =>
      let parts := Fields content in
      if negb (List.length parts =? 2)%nat then
        ret (math.zero, Some (Errorf ("invalid format in cpu.max: " ++ content)))
      else if nth 0 parts "" =? "max" then ret (math.Inf 1, None)
      else
        let '(quota, err) := strconv.ParseInt (nth 0 parts "") in
        match err with
        | Some e => ret (math.zero, Some e)
        | None =>
            let '(period, err) := strconv.ParseInt (nth 1 parts "") in
            match err with
            | Some e => ret (math.zero, Some e)
            | None =>
                if (period =? 0)%Z then
                  ret (math.zero, Some (Errorf "period in cpu.max is zero"))
                else ret (math.div (math.of_int quota) (math.of_int period), None)
            end
        end
  end.

(** The [for] loop of [walkHierarchy], from [currentPath] with the running
    minimum [minLimit]: [Some] of the minimum at the [break], [None] when
    the fuel runs out first. *)
Fixpoint walkLoop (fuel : nat) (calcFunc : string -> IO (float64 * option error))
    (rootPath currentPath : string) (minLimit : float64) : IO (option float64) :=
  match fuel with
  | O => ret None
  | S fuel' =>
      '(limit, err) <- calcFunc currentPath ;;
      let minLimit :=
        match err with
        | Some _ => minLimit
        | None => math.Min minLimit limit
        end in
      if (currentPath =? rootPath) || (currentPath =? "/") then ret (Some minLimit)
      else walkLoop fuel' calcFunc rootPath (filepath.Dir currentPath) minLimit
  end.

(** [walkHierarchy] traverses up the cgroup directory tree from a starting
    path up to a root path, calculating the CPU limit at each level. It
    returns the minimum limit found. *)
Definition walkHierarchy (fuel : nat) (startPath : string)
    (calcFunc : string -> IO (float64 * option error)) (rootPath : string)
  : IO (option (float64 * option error)) :=
  r <- walkLoop fuel calcFunc rootPath startPath (math.Inf 1) ;;
  match r with
  | None => ret None
  | Some minLimit =>
      if math.IsInf minLimit 1 then ret (Some (math.zero, None))
      else ret (Some (minLimit, None))
  end.

(** The loop over the lines of [/proc/self/cgroup]: the third field of the
    first line that has three fields and whose second field matches. *)
Fixpoint findCgroupLine (controller : string) (lines : list string) : option string :=
  match lines with
  | [] => None
  | line :: rest =>
      let parts := splitByte ":" line in
      if negb (List.length parts =? 3)%nat then findCgroupLine controller rest
      else if (negb (controller =? "") && Contains (nth 1 parts "") controller)
              || ((controller =? "") && (nth 1 parts "" =? ""))
      then Some (nth 2 parts "")
      else findCgroupLine controller rest
  end.

(** [getProcessCgroupPath] parses /proc/self/cgroup to find the path for a
    specific controller. *)
Definition getProcessCgroupPath (fs : FS) (controller : string) : IO (string * option error) :=
  '(file, err) <- os.Open fs "/proc/self/cgroup" ;;
  match file, err with
  | Some (data, readErr), None =>
      let '(lines, scanErr) := bufio.ScanLines data readErr in
      match findCgroupLine controller lines with
      | Some path => ret (path, None)
      | None =>
          match scanErr with
          | Some e => ret ("", Some e)
          | None =>
              ret ("", Some (Errorf ("cgroup path for controller '" ++ controller
                                     ++ "' not found in /proc/self/cgroup")))
          end
      end
  | _, Some e => ret ("", Some e)
  | None, None => ret ("", Some (PathError "open" "/proc/self/cgroup"))
  end.

(** [getCgroupV1Limit] handles the logic for cgroup v1. *)
Definition getCgroupV1Limit (fuel : nat) (fs : FS) : IO (option (float64 * option error)) :=
  '(cgroupPath, err) <- getProcessCgroupPath fs "cpu" ;;
  match err with
  | Some e => ret (Some (math.zero, Some (Wrapf "failed to get cgroup v1 path: " e)))
  | None =>
      let fullPath := filepath.Join2 cgroupV1CPUPath cgroupPath in
      walkHierarchy fuel fullPath (calculateV1CPUQuota fs) cgroupV1CPUPath
  end.

(** [getCgroupV2Limit] handles the logic for cgroup v2. *)
Definition getCgroupV2Limit (fuel : nat) (fs : FS) : IO (option (float64 * option error)) :=
  '(cgroupPath, err) <- getProcessCgroupPath fs "" ;;
  match err with
  | Some e => ret (Some (math.zero, Some (Wrapf "failed to get cgroup v2 path: " e)))
  | None =>
      let fullPath := filepath.Join2 cgroupV2Path cgroupPath in
      walkHierarchy fuel fullPath (calculateV2CPUQuota fs) cgroupV2Path
  end.

(** [getEffectiveCPULimit] determines the effective CPU limit by traversing
    the cgroup hierarchy. It returns the minimum CPU limit found. *)
Definition getEffectiveCPULimit (fuel : nat) (fs : FS) : IO (option (float64 * option error)) :=
  err <- os.Stat fs (filepath.Join2 cgroupV2Path "cgroup.controllers") ;;
  match err with
  | None => getCgroupV2Limit fuel fs
  | Some _ =>
      err <- os.Stat fs cgroupV1CPUPath ;;
      match err with
      | None => getCgroupV1Limit fuel fs
      | Some _ => ret (Some (math.zero, None))
      end
  end.

(** [cgroupLimit]: the effective limit, the adjusted limit and the error. *)
Definition cgroupLimit (fuel : nat) (fs : FS) : IO (option (float64 * float64 * option error)) :=
  r <- getEffectiveCPULimit fuel fs ;;
  match r with
  | None => ret None
  | Some (effectiveLimit, Some e) => ret (Some (math.zero, math.zero, Some e))
  | Some (effectiveLimit, None) =>
      if math.eqb effectiveLimit math.zero then ret (Some (math.zero, math.zero, None))
      else
        let adjustedLimit := math.Max math.two (math.Ceil effectiveLimit) in
        ret (Some (effectiveLimit, adjustedLimit, None))
  end.

(** The last line of the report of [main]. *)
Inductive report : Type :=
| ReportError (err : error)
| ReportNotInCgroup
| ReportLimits (eff adj : float64).

Definition mainReport (r : float64 * float64 * option error) : report :=
  let '(eff, adj, err) := r in
  match err with
  | Some e => ReportError e
  | None =>
      if math.eqb eff math.zero && math.eqb adj math.zero then ReportNotInCgroup
      else ReportLimits eff adj
  end.

(** ** The levels of a walk and their samples *)

(** The directories the loop of [walkHierarchy] visits from [currentPath],
    in order; [None] when the fuel runs out before the [break]. *)
Fixpoint levels (fuel : nat) (rootPath currentPath : string) : option (list string) :=
  match fuel with
  | O => None
  | S fuel' =>
      if (currentPath =? rootPath) || (currentPath =? "/") then Some [currentPath]
      else option_map (cons currentPath) (levels fuel' rootPath (filepath.Dir currentPath))
  end.

(** The samples of the levels at which the calculation succeeds. *)
Fixpoint samples (calcFunc : string -> IO (float64 * option error))
    (ls : list string) : list float64 :=
  match ls with
  | [] => []
  | p :: rest =>
      match value (calcFunc p) with
      | (limit, None) => limit :: samples calcFunc rest
      | (_, Some _) => samples calcFunc rest
      end
  end.

(** The running minimum over a list of samples, from positive infinity. *)
Definition runningMin (l : list float64) : float64 :=
  fold_left math.Min l (math.Inf 1).

(** The path [p] lies under [rootPath]: going to the parent directory
    some number of times leads from [p] to [rootPath]. *)
Definition under (rootPath p : string) : Prop :=
  exists n : nat, Nat.iter n filepath.Dir p = rootPath.

(** An ascent from [p]: each level but the last is followed by its parent
    directory, and the last one, and only it, is the root of the walk or
    the root of the file system. *)
Inductive ascent (rootPath : string) : string -> list string -> Prop :=
| ascent_stop (p : string) :
    p = rootPath \/ p = "/" -> ascent rootPath p [p]
| ascent_up (p : string) (ls : list string) :
    p <> rootPath -> p <> "/" ->
    ascent rootPath (filepath.Dir p) ls -> ascent rootPath p (p :: ls).

(** [m] is a least element of [l] for the comparison [<=] of [float64]. *)
Definition least (m : float64) (l : list float64) : Prop :=
  In m l /\ forall x, In x l -> math.leb m x = true.

(** The resolver walks a hierarchy: the version it detects ([V2] first),
    the path of the process in it, the levels of the walk from there and
    the samples of the levels at which the calculation succeeds. *)
Inductive resolves (fuel : nat) (fs : FS) : list float64 -> Prop :=
| resolves_v2 (cgroupPath : string) (ls : list string) :
    fsStat fs (filepath.Join2 cgroupV2Path "cgroup.controllers") = true ->
    value (getProcessCgroupPath fs "") = (cgroupPath, None) ->
    levels fuel cgroupV2Path (filepath.Join2 cgroupV2Path cgroupPath) = Some ls ->
    resolves fuel fs (samples (calculateV2CPUQuota fs) ls)
| resolves_v1 (cgroupPath : string) (ls : list string) :
    fsStat fs (filepath.Join2 cgroupV2Path "cgroup.controllers") = false ->
    fsStat fs cgroupV1CPUPath = true ->
    value (getProcessCgroupPath fs "cpu") = (cgroupPath, None) ->
    levels fuel cgroupV1CPUPath (filepath.Join2 cgroupV1CPUPath cgroupPath) = Some ls ->
    resolves fuel fs (samples (calculateV1CPUQuota fs) ls).

(** Malformed content of [cpu.max], in the words of the specification:
    a token count other than two, or a quota token that is not ["max"]
    with a token that is no integer or with a period of zero. *)
Definition malformedCpuMax (content : string) : Prop :=
  List.length (Fields content) <> 2
  \/ exists q p : string,
       Fields content = [q; p] /\ q <> "max" /\
       (snd (strconv.ParseInt q) <> None \/ snd (strconv.ParseInt p) <> None
        \/ strconv.ParseInt p = (0%Z, None)).

(** The calls of the v2 way: the probe of the marker, the membership
    file, and files [cpu.max]. *)
Definition v2Call (a : access) : Prop :=
  a = AStat (filepath.Join2 cgroupV2Path "cgroup.controllers")
  \/ a = AOpen "/proc/self/cgroup"
  \/ exists level : string, a = ARead (filepath.Join2 level "cpu.max").

(** The selection of the specification. The controller list of a line
    lists a controller when the controller is one of its comma-separated
    names; a line is selected when it has three fields and, for v2 (empty
    controller name), an empty controller list, for v1 a controller list
    that lists the controller. *)
Definition listsController (controller field : string) : bool :=
  existsb (String.eqb controller) (splitByte "," field).

Definition selects (controller line : string) : bool :=
  let parts := splitByte ":" line in
  (List.length parts =? 3)%nat &&
  (if controller =? "" then nth 1 parts "" =? ""
   else listsController controller (nth 1 parts "")).

(** The line as the format [id:controllers:path] reads it: a line of the
    controller has at least these three fields, and its path is all that
    follows the second colon. *)
Definition claimSelects (controller line : string) : bool :=
  let parts := splitByte ":" line in
  (3 <=? List.length parts)%nat &&
  (if controller =? "" then nth 1 parts "" =? ""
   else listsController controller (nth 1 parts "")).

Definition claimPath (line : string) : string :=
  Bytes.Join (skipn 2 (splitByte ":" line)) ":".

Definition notFound (controller : string) : error :=
  Errorf ("cgroup path for controller '" ++ controller
          ++ "' not found in /proc/self/cgroup").

(** ** Synthetic file systems *)

Fixpoint lookup (path : string) (files : list (string * string)) : option string :=
  match files with
  | [] => None
  | (p, content) :: rest => if p =? path then Some content else lookup path rest
  end.

(** The file system in which [os.Stat] succeeds on the paths of [dirs] and
    on the files, [os.ReadFile] reads the files, and [os.Open] reads them
    to the end of file. *)
Definition fsOf (dirs : list string) (files : list (string * string)) : FS :=
  {| fsStat := fun p => existsb (String.eqb p) dirs
                        || match lookup p files with Some _ => true | None => false end;
     fsReadFile := fun p => lookup p files;
     fsOpen := fun p => match lookup p files with
                        | Some content => Some (content, None)
                        | None => None
                        end |}.

Definition nl : string := String "010" "".

(** A cgroup v2 system: the marker file, the membership file of the
    process with the line of the unified hierarchy, and [files]. *)
Definition fsV2 (cgroupPath : string) (files : list (string * string)) : FS :=
  fsOf ["/sys/fs/cgroup"]
       (("/sys/fs/cgroup/cgroup.controllers", "cpu memory" ++ nl)
        :: ("/proc/self/cgroup", "0::" ++ cgroupPath ++ nl) :: files).

(** A cgroup v1 system: the directory of the CPU controller, the
    membership file with the line of that controller, and [files]. *)
Definition fsV1 (cgroupPath : string) (files : list (string * string)) : FS :=
  fsOf ["/sys/fs/cgroup"; "/sys/fs/cgroup/cpu"]
       (("/proc/self/cgroup", "2:cpu,cpuacct:" ++ cgroupPath ++ nl) :: files).

(** A system without cgroup file system. *)
Definition fsNone : FS := fsOf [] [].

(** The root has a quota of 4 CPUs, the child has no quota file. *)
Definition fsRootQuota4 : FS :=
  fsV2 "/child" [("/sys/fs/cgroup/cpu.max", "400000 100000" ++ nl)].

(** No level has a quota file. *)
Definition fsNoQuota : FS := fsV2 "/a/b" [].

(** One v1 level with an unlimited quota beside a malformed period file. *)
Definition fsV1Unlimited : FS :=
  fsV1 "/" [("/sys/fs/cgroup/cpu/cpu.cfs_quota_us", "-1" ++ nl);
            ("/sys/fs/cgroup/cpu/cpu.cfs_period_us", "garbage" ++ nl)].

(** One v1 level with a quota of zero. *)
Definition fsZeroQuota : FS :=
  fsV1 "/" [("/sys/fs/cgroup/cpu/cpu.cfs_quota_us", "0" ++ nl);
            ("/sys/fs/cgroup/cpu/cpu.cfs_period_us", "100000" ++ nl)].

(** Both the marker of cgroup v2 and the v1 directory of the CPU
    controller exist; the v2 hierarchy has a quota of 2 CPUs, the v1
    hierarchy one of half a CPU. *)
Definition fsBoth : FS :=
  fsOf ["/sys/fs/cgroup"; "/sys/fs/cgroup/cpu"]
       [("/sys/fs/cgroup/cgroup.controllers", "cpu memory" ++ nl);
        ("/proc/self/cgroup", "1:cpu,cpuacct:/" ++ nl ++ "0::/" ++ nl);
        ("/sys/fs/cgroup/cpu.max", "200000 100000" ++ nl);
        ("/sys/fs/cgroup/cpu/cpu.cfs_quota_us", "50000" ++ nl);
        ("/sys/fs/cgroup/cpu/cpu.cfs_period_us", "100000" ++ nl)].

(** A leaf with a file [cpu.max] of three tokens under a root with a
    quota of 2 CPUs. *)
Definition fsMalformedLeaf : FS :=
  fsV2 "/leaf" [("/sys/fs/cgroup/leaf/cpu.max", "max 100000 7" ++ nl);
                ("/sys/fs/cgroup/cpu.max", "200000 100000" ++ nl)].

(** A v2 system in which the cgroup of the process has a colon in its
    name. *)
Definition fsColonPath : FS := fsV2 "/a:b" [].

(** A v1 system in which the line of [cpuset] comes before the line of
    [cpu,cpuacct]. *)
Definition fsCpusetFirst : FS :=
  fsOf ["/sys/fs/cgroup"; "/sys/fs/cgroup/cpu"]
       [("/proc/self/cgroup",
         "3:cpuset:/a" ++ nl ++ "2:cpu,cpuacct:/b" ++ nl)].

(** One v2 level, the root, with the given content of [cpu.max]. *)
Definition fsCpuMax (content : string) : FS :=
  fsV2 "/" [("/sys/fs/cgroup/cpu.max", content)].

(** ** Further vocabulary *)


(** A number: a [float64] that is neither NaN nor infinite. *)
Definition isFinite (x : float64) : bool :=
  match x with
  | S754_zero _ | S754_finite _ _ _ => true
  | _ => false
  end.

(** [f] is a number of [float64] nearest to the rational [x]: no number
    of [float64] is nearer. *)
Definition nearest (x : Q) (f : float64) : Prop :=
  isFinite f = true /\ valid_binary math.prec math.emax f = true /\
  forall g : float64,
    isFinite g = true -> valid_binary math.prec math.emax g = true ->
    Qle (Qabs (math.toQ f - x)) (Qabs (math.toQ g - x)).

(** The class of the samples: positive infinity or a number. *)
Definition sampleClass (x : float64) : Prop := x = math.Inf 1 \/ isFinite x = true.

(** The byte [c] occurs in [s]. *)
Fixpoint hasByte (c : ascii) (s : string) : bool :=
  match s with
  | EmptyString => false
  | String a s' => Ascii.eqb a c || hasByte c s'
  end.

(** A name of a directory: not empty, not ["."] or [".."], without
    separator. *)
Definition properElem (e : string) : bool :=
  negb (e =? "") && negb (e =? ".") && negb (e =? "..")
  && negb (hasByte Bytes.slash e).

(** The rooted path with the elements [elems]. *)
Definition pathOf (elems : list string) : string := "/" ++ Bytes.Join elems "/".

(** The directory [rs ++ es] and its ancestors down to [rs], the longest
    first. *)
Definition ancestors (rs es : list string) : list string :=
  map (fun k => pathOf (rs ++ firstn k es)) (rev (seq 0 (S (List.length es)))).

(** An element a cleaned path drops or keeps as it is, and the elements
    that are kept. *)
Definition sepOrProper (e : string) : bool := (e =? "") || properElem e.
Definition nonEmpty (e : string) : bool := negb (e =? "").

(** A list of elements as [Join] sees it: the empty list joins to the
    empty string, as the list of one empty element does. *)
Definition elemsOf (l : list string) : list string :=
  match l with [] => [""] | _ => l end.

(** The test of [getProcessCgroupPath] on the fields of a line. *)
Definition matches (controller : string) (parts : list string) : bool :=
  (negb (controller =? "") && Bytes.Contains (nth 1 parts "") controller)
  || ((controller =? "") && (nth 1 parts "" =? "")).

(** A v2 system whose membership file has a line of another hierarchy,
    ended by a carriage return and a newline, before the line of the
    unified hierarchy. *)
Definition fsCrLf : FS :=
  fsOf ["/sys/fs/cgroup"]
       [("/sys/fs/cgroup/cgroup.controllers", "cpu memory" ++ nl);
        ("/proc/self/cgroup",
         "1:name=systemd:/x" ++ String "013" "" ++ nl ++ "0::/a" ++ nl)].

(** The reads of the v1 calculation in the directory [level]: the quota
    file, and the period file when the quota file gave an integer other
    than [-1]. *)
Definition v1Reads (fs : FS) (level : string) : list access :=
  ARead (level ++ "/cpu.cfs_quota_us")
  :: match value (readIntFromFile fs (level ++ "/cpu.cfs_quota_us")) with
     | (quota, None) =>
         if (quota =? -1)%Z then [] else [ARead (level ++ "/cpu.cfs_period_us")]
     | (_, Some _) => []
     end.


(** A usual v1 system: the line of the CPU controller before the lines
    of other controllers. *)
Definition fsV1Usual : FS :=
  fsOf ["/sys/fs/cgroup"; "/sys/fs/cgroup/cpu"]
       [("/proc/self/cgroup",
         "11:cpu,cpuacct:/user.slice" ++ nl ++ "4:cpuset:/" ++ nl ++ "0::/x" ++ nl)].

(** A v2 system whose membership file is missing. *)
Definition fsNoMembership : FS :=
  fsOf ["/sys/fs/cgroup"]
       [("/sys/fs/cgroup/cgroup.controllers", "cpu memory" ++ nl);
        ("/sys/fs/cgroup/cpu.max", "200000 100000" ++ nl)].

(** A v1 system whose membership file has only the line of the unified
    hierarchy. *)
Definition fsV1NoCpuLine : FS :=
  fsOf ["/sys/fs/cgroup"; "/sys/fs/cgroup/cpu"]
       [("/proc/self/cgroup", "0::/" ++ nl)].

(** A v1 system, the process in [/a], with half a CPU there and no quota
    at the root. *)
Definition fsV1Half : FS :=
  fsV1 "/a" [("/sys/fs/cgroup/cpu/a/cpu.cfs_quota_us", "50000" ++ nl);
             ("/sys/fs/cgroup/cpu/a/cpu.cfs_period_us", "100000" ++ nl);
             ("/sys/fs/cgroup/cpu/cpu.cfs_quota_us", "-1" ++ nl);
             ("/sys/fs/cgroup/cpu/cpu.cfs_period_us", "100000" ++ nl)].

(** * Properties *)

(** ** The library model on the examples of the Go documentation *)

Example Clean_examples :
  map filepath.Clean
      [""; "abc//def//ghi"; "//abc//"; "abc/./def"; "abc/def/../ghi/../jkl";
       "abc/def/../.."; "/abc/def/../../.."; "abc/def/../../..";
       "abc/def/../../../ghi/jkl/../../../mno"; "/../abc"; "abc/../../././../def"]
  = ["."; "abc/def/ghi"; "/abc"; "abc/def"; "abc/jkl";
     "."; "/"; "..";
     "../../mno"; "/abc"; "../../def"].
Proof. reflexivity. Qed.

Example Dir_examples :
  map filepath.Dir [""; "."; "/."; "/"; "/foo"; "x/"; "abc"; "abc/def"; "a/b/c.x"]
  = ["."; "."; "/"; "/"; "/"; "x"; "."; "abc"; "a/b"].
Proof. reflexivity. Qed.

Example Join_examples :
  map (fun ab => filepath.Join2 (fst ab) (snd ab))
      [("a", "b"); ("a", ""); ("", "b"); ("/", "a"); ("/", ""); ("a", "/b");
       ("a/", "b"); ("", ""); ("/sys/fs/cgroup", "/../../kubepods")]
  = ["a/b"; "a"; "b"; "/a"; "/"; "a/b"; "a/b"; ""; "/sys/kubepods"].
Proof. reflexivity. Qed.

Example Fields_examples :
  Fields " foo bar  baz   " = ["foo"; "bar"; "baz"] /\
  Fields ("max 100000" ++ nl) = ["max"; "100000"] /\
  Fields (String "009" "") = [] /\
  (* U+2000 between the tokens, and a lone byte 0xFF, which is no space *)
  Fields ("1" ++ String "226" (String "128" (String "128" "")) ++ "2" ++ String "255" "")
  = ["1"; "2" ++ String "255" ""].
Proof. repeat split; reflexivity. Qed.

Example TrimSpace_examples :
  TrimSpace (String "009" (String "010" " a " ++ String "009" (String "010" ""))) = "a" /\
  TrimSpace ("100000" ++ nl) = "100000" /\
  (* U+00A0 before and U+2000 after *)
  TrimSpace (String "194" (String "160" "-1 ")
             ++ String "226" (String "128" (String "128" ""))) = "-1" /\
  (* a lone continuation byte is no space *)
  TrimSpace (" x" ++ String "128" "") = "x" ++ String "128" "".
Proof. repeat split; reflexivity. Qed.

Example ParseInt_examples :
  strconv.ParseInt "100000" = (100000%Z, None) /\
  strconv.ParseInt "-1" = ((-1)%Z, None) /\
  strconv.ParseInt "+5" = (5%Z, None) /\
  strconv.ParseInt "" = (0%Z, Some (NumError "ParseInt" "" false)) /\
  strconv.ParseInt "max" = (0%Z, Some (NumError "ParseInt" "max" false)) /\
  strconv.ParseInt "1_000" = (0%Z, Some (NumError "ParseInt" "1_000" false)) /\
  strconv.ParseInt "9223372036854775807" = (9223372036854775807%Z, None) /\
  strconv.ParseInt "9223372036854775808"
  = (9223372036854775807%Z, Some (NumError "ParseInt" "9223372036854775808" true)) /\
  strconv.ParseInt "-9223372036854775808" = ((-9223372036854775808)%Z, None).
Proof. repeat split; reflexivity. Qed.

Example ScanLines_examples :
  bufio.ScanLines ("a" ++ String "013" nl ++ nl ++ "b") None = (["a"; ""; "b"], None) /\
  bufio.ScanLines ("a" ++ nl) None = (["a"], None) /\
  bufio.ScanLines "" None = ([], None).
Proof. repeat split; reflexivity. Qed.

Example math_examples :
  math.Min (math.Inf 1) (math.of_int 4) = math.of_int 4 /\
  math.Min (S754_zero false) (S754_zero true) = S754_zero true /\
  math.Min (math.of_int 1) S754_nan = S754_nan /\
  math.Max (S754_zero true) (S754_zero false) = S754_zero false /\
  math.Max math.two (math.Inf 1) = math.Inf 1 /\
  math.Ceil (math.div (math.of_int 3) (math.of_int 2)) = math.of_int 2 /\
  math.Ceil (math.div (math.of_int (-3)) (math.of_int 2)) = math.of_int (-1) /\
  math.Ceil (math.div (math.of_int (-1)) (math.of_int 2)) = S754_zero true /\
  math.Ceil (math.Inf 1) = math.Inf 1 /\
  math.of_int 9007199254740993 = math.of_int 9007199254740992.
Proof. repeat split; reflexivity. Qed.

(** ** Byte strings and paths *)

Module BytesFacts.
Import Bytes.

Lemma length_append (a b : string) :
  String.length (a ++ b) = String.length a + String.length b.
Proof. induction a as [|c a IH]; simpl; [reflexivity | now rewrite IH]. Qed.

Lemma weight_app (a b : list string) :
  weight (a ++ b)%list = weight a + weight b.
Proof. induction a as [|e a IH]; simpl; [reflexivity | rewrite IH; lia]. Qed.

Lemma weight_rev (l : list string) : weight (rev l) = weight l.
Proof.
  induction l as [|e l IH]; simpl; [reflexivity|].
  rewrite weight_app, IH. simpl. lia.
Qed.

Lemma splitByte_nonnil sep s : splitByte sep s <> [].
Proof.
  destruct s as [|c s]; simpl; [discriminate|].
  destruct (Ascii.eqb c sep); [discriminate|].
  destruct (splitByte sep s); discriminate.
Qed.

Lemma weight_splitByte sep s : weight (splitByte sep s) = S (String.length s).
Proof.
  induction s as [|c s IH]; simpl; [reflexivity|].
  destruct (Ascii.eqb c sep); simpl; [now rewrite IH|].
  destruct (splitByte sep s) as [|x xs] eqn:E.
  - now destruct (splitByte_nonnil sep s).
  - simpl in *. lia.
Qed.

Lemma length_Join_sep (l : list string) (sep : string) :
  String.length sep = 1 -> l <> [] ->
  S (String.length (Join l sep)) = weight l.
Proof.
  intros Hsep. induction l as [|e l IH]; intros Hne; [congruence|].
  destruct l as [|e' l].
  - simpl. lia.
  - change (Join (e :: e' :: l) sep) with (e ++ sep ++ Join (e' :: l) sep).
    rewrite !length_append, Hsep.
    assert (H : e' :: l <> []) by discriminate.
    specialize (IH H). simpl weight in *. lia.
Qed.

End BytesFacts.

Module filepathFacts.
Import Bytes BytesFacts filepath.

Lemma empties_app a b : empties (a ++ b)%list = empties a + empties b.
Proof. induction a as [|e a IH]; simpl; [reflexivity | rewrite IH; lia]. Qed.

(** [Clean] never makes room: what it keeps weighs no more than what it
    had, less one for each empty element it dropped. *)
Lemma cleanElems_weight r elems : forall stack,
  weight (cleanElems r stack elems) + empties elems <= weight stack + weight elems.
Proof.
  induction elems as [|e rest IH]; intros stack; simpl.
  - rewrite weight_rev. lia.
  - destruct (String.eqb_spec e "") as [->|He]; simpl.
    + specialize (IH stack). lia.
    + destruct (e =? ".").
      * specialize (IH stack). lia.
      * destruct (e =? "..").
        -- destruct stack as [|top stack'].
           ++ destruct r; [specialize (IH []) | specialize (IH [e])]; simpl in *; lia.
           ++ destruct (top =? "..");
                [specialize (IH (e :: top :: stack')) | specialize (IH stack')];
                simpl in *; lia.
        -- specialize (IH (e :: stack)). simpl in *. lia.
Qed.

Lemma rooted_length s : rooted s = true -> 1 <= String.length s.
Proof. destruct s; simpl; [discriminate | lia]. Qed.

Lemma rooted_split s :
  rooted s = true -> exists t, s = String slash t.
Proof.
  destruct s as [|c t]; simpl; [discriminate|].
  intros H. apply Ascii.eqb_eq in H. subst. now exists t.
Qed.

Lemma Clean_rooted p : rooted p = true -> rooted (Clean p) = true.
Proof.
  intros H. unfold Clean. rewrite H.
  destruct (String.eqb_spec p ""); [subst; discriminate | reflexivity].
Qed.

Lemma dirPrefix_length s : String.length (dirPrefix s) <= String.length s.
Proof.
  induction s as [|c s IH]; simpl; [lia|].
  destruct (dirPrefix s); [destruct (Ascii.eqb c slash) |]; simpl in *; lia.
Qed.

Lemma dirPrefix_rooted s : rooted s = true -> rooted (dirPrefix s) = true.
Proof.
  destruct s as [|c s]; simpl; [discriminate|]. intros H.
  destruct (dirPrefix s); [rewrite H; reflexivity | simpl; assumption].
Qed.

(** The prefix up to the last separator ends with an empty element. *)
Lemma dirPrefix_split s :
  dirPrefix s <> "" ->
  exists l, splitByte slash (dirPrefix s) = (l ++ [""])%list /\ l <> [].
Proof.
  induction s as [|c s IH]; simpl; [congruence|].
  destruct (dirPrefix s) as [|d ds] eqn:E.
  - destruct (Ascii.eqb c slash) eqn:Ec; [|congruence].
    intros _. exists [""]. split; [reflexivity | discriminate].
  - intros _. destruct IH as (l & Hl & Hne); [discriminate|].
    change (splitByte slash (String c (String d ds))) with
      (if Ascii.eqb c slash then "" :: splitByte slash (String d ds)
       else match splitByte slash (String d ds) with
            | [] => [String c ""]
            | x :: xs => String c x :: xs
            end).
    rewrite Hl. destruct (Ascii.eqb c slash).
    + exists ("" :: l). split; [reflexivity | discriminate].
    + destruct l as [|x xs]; [congruence|].
      exists (String c x :: xs). split; [reflexivity | discriminate].
Qed.

(** Cleaning a rooted prefix that ends with a separator gives a shorter
    path, unless the prefix is the root. *)
Lemma Clean_dirPrefix_length p l :
  rooted p = true ->
  splitByte slash p = (l ++ [""])%list -> l <> [] ->
  String.length (Clean p) < String.length p \/ Clean p = "/".
Proof.
  intros Hr Hl Hnil. unfold Clean. rewrite Hr.
  destruct (String.eqb_spec p "") as [->|Hne]; [discriminate|].
  pose proof (cleanElems_weight true (splitByte slash p) []) as Hw.
  rewrite weight_splitByte in Hw.
  assert (He : 2 <= empties (splitByte slash p)).
  { rewrite Hl, empties_app. destruct l as [|x l']; [congruence|].
    destruct (rooted_split p Hr) as (t & ->).
    simpl in Hl. unfold slash in Hl. simpl in Hl.
    injection Hl as <- _. simpl. lia. }
  simpl in Hw.
  destruct (cleanElems true [] (splitByte slash p)) as [|x xs] eqn:E.
  - right. reflexivity.
  - left.
    pose proof (length_Join_sep (x :: xs) "/" eq_refl) as HJ.
    change (String.length ("/" ++ Join (x :: xs) "/"))
      with (S (String.length (Join (x :: xs) "/"))).
    rewrite HJ by discriminate. lia.
Qed.

(** [Dir] of a rooted path other than the root is rooted and shorter. *)
Lemma Dir_rooted s : rooted s = true -> rooted (Dir s) = true.
Proof. intros H. apply Clean_rooted, dirPrefix_rooted, H. Qed.

Lemma Dir_shorter s :
  rooted s = true -> s <> "/" -> String.length (Dir s) < String.length s.
Proof.
  intros Hr Hne. unfold Dir.
  pose proof (dirPrefix_rooted s Hr) as Hpr.
  pose proof (dirPrefix_length s) as Hlen.
  destruct (dirPrefix_split s) as (l & Hl & Hnil).
  { intros E. rewrite E in Hpr. discriminate. }
  destruct (Clean_dirPrefix_length _ _ Hpr Hl Hnil) as [H|H]; [lia|].
  rewrite H. destruct (rooted_split s Hr) as (t & ->).
  destruct t; [now destruct Hne | simpl; lia].
Qed.

End filepathFacts.

(** ** The writer monad *)

Lemma value_bind {A B : Type} (m : IO A) (f : A -> IO B) :
  value (bind m f) = value (f (value m)).
Proof. unfold value, bind. destruct m as [a l1]. simpl. now destruct (f a). Qed.

Lemma calls_bind {A B : Type} (m : IO A) (f : A -> IO B) :
  calls (bind m f) = (calls m ++ calls (f (value m)))%list.
Proof. unfold value, calls, bind. destruct m as [a l1]. simpl. now destruct (f a). Qed.

Lemma value_ret {A : Type} (a : A) : value (ret a) = a.
Proof. reflexivity. Qed.

(** ** The hierarchy walk *)

Section Walk.
Import filepathFacts.

Variable calcFunc : string -> IO (float64 * option error).
Variable rootPath : string.

(** More fuel does not change a walk that ends. *)
Lemma levels_more fuel : forall k cur ls,
  levels fuel rootPath cur = Some ls ->
  levels (fuel + k) rootPath cur = Some ls.
Proof.
  induction fuel as [|fuel IH]; intros k cur ls; simpl; [discriminate|].
  destruct ((cur =? rootPath) || (cur =? "/")); [trivial|].
  destruct (levels fuel rootPath (filepath.Dir cur)) as [l|] eqn:E; [|discriminate].
  rewrite (IH k _ _ E). trivial.
Qed.

(** From a rooted path the walk ends within as many steps as the path
    has bytes. *)
Lemma levels_rooted fuel : forall cur,
  filepath.rooted cur = true -> String.length cur <= fuel ->
  exists ls, levels fuel rootPath cur = Some ls /\ List.length ls <= String.length cur.
Proof.
  induction fuel as [|fuel IH]; intros cur Hr Hlen.
  - apply rooted_length in Hr. lia.
  - simpl. destruct (cur =? rootPath) eqn:E1; simpl.
    + exists [cur]. split; [reflexivity|]. apply rooted_length in Hr. simpl. lia.
    + destruct (String.eqb_spec cur "/") as [->|Hne].
      * exists ["/"]. split; [reflexivity | simpl; lia].
      * pose proof (Dir_shorter cur Hr Hne) as Hs.
        destruct (IH (filepath.Dir cur) (Dir_rooted cur Hr)) as (ls & Hls & Hn); [lia|].
        rewrite Hls. exists (cur :: ls). split; [reflexivity | simpl; lia].
Qed.

(** From a path under the root the walk ends, too. *)
Lemma levels_under n : forall cur,
  Nat.iter n filepath.Dir cur = rootPath ->
  exists ls, levels (S n) rootPath cur = Some ls.
Proof.
  induction n as [|n IH]; intros cur H.
  - simpl in H. subst. simpl. rewrite String.eqb_refl. now exists [rootPath].
  - change (levels (S (S n)) rootPath cur) with
      (if (cur =? rootPath) || (cur =? "/") then Some [cur]
       else option_map (cons cur) (levels (S n) rootPath (filepath.Dir cur))).
    destruct ((cur =? rootPath) || (cur =? "/")); [now exists [cur]|].
    destruct (IH (filepath.Dir cur)) as (ls & Hls).
    + rewrite <- H. clear. induction n as [|n IHn]; [reflexivity|].
      simpl in *. now rewrite IHn.
    + rewrite Hls. now exists (cur :: ls).
Qed.

(** The loop returns the running minimum of the samples of its levels,
    and its calls are those of the calculation at each level in turn. *)
Lemma walkLoop_levels fuel : forall cur ls m,
  levels fuel rootPath cur = Some ls ->
  value (walkLoop fuel calcFunc rootPath cur m)
    = Some (fold_left math.Min (samples calcFunc ls) m)
  /\ calls (walkLoop fuel calcFunc rootPath cur m)
    = flat_map (fun p => calls (calcFunc p)) ls.
Proof.
  induction fuel as [|fuel IH]; intros cur ls m; simpl; [discriminate|].
  intros H. rewrite value_bind, calls_bind.
  destruct (value (calcFunc cur)) as [limit err] eqn:Ev.
  destruct ((cur =? rootPath) || (cur =? "/")).
  - injection H as <-. simpl. rewrite Ev, app_nil_r.
    destruct err; simpl; split; reflexivity.
  - destruct (levels fuel rootPath (filepath.Dir cur)) as [l|] eqn:E; [|discriminate].
    injection H as <-. simpl. rewrite Ev.
    destruct err as [e|]; simpl.
    + destruct (IH _ _ m E) as [-> ->]. split; reflexivity.
    + destruct (IH _ _ (math.Min m limit) E) as [-> ->]. split; reflexivity.
Qed.

Lemma walkLoop_out_of_fuel fuel : forall cur m,
  levels fuel rootPath cur = None ->
  value (walkLoop fuel calcFunc rootPath cur m) = None.
Proof.
  induction fuel as [|fuel IH]; intros cur m; simpl; [reflexivity|].
  intros H. rewrite value_bind.
  destruct (value (calcFunc cur)) as [limit err].
  destruct ((cur =? rootPath) || (cur =? "/")); [discriminate|].
  destruct (levels fuel rootPath (filepath.Dir cur)) eqn:E; [discriminate|].
  destruct err; simpl; now apply IH.
Qed.

(** [walkHierarchy] on a walk that ends: the running minimum of the
    samples, or [0] when that is positive infinity; never an error. *)
Lemma walkHierarchy_levels fuel start ls :
  levels fuel rootPath start = Some ls ->
  value (walkHierarchy fuel start calcFunc rootPath)
    = Some (if math.IsInf (runningMin (samples calcFunc ls)) 1
            then math.zero else runningMin (samples calcFunc ls), None)
  /\ calls (walkHierarchy fuel start calcFunc rootPath)
    = flat_map (fun p => calls (calcFunc p)) ls.
Proof.
  intros H. unfold walkHierarchy. rewrite value_bind, calls_bind.
  destruct (walkLoop_levels fuel start ls (math.Inf 1) H) as [-> ->].
  fold (runningMin (samples calcFunc ls)).
  destruct (math.IsInf (runningMin (samples calcFunc ls)) 1); simpl;
    rewrite app_nil_r; split; reflexivity.
Qed.

End Walk.

Section WalkShape.

Variable rootPath : string.

Lemma levels_ascent fuel : forall cur ls,
  levels fuel rootPath cur = Some ls -> ascent rootPath cur ls.
Proof.
  induction fuel as [|fuel IH]; intros cur ls; simpl; [discriminate|].
  destruct (String.eqb_spec cur rootPath) as [E1|N1]; simpl.
  - intros H. injection H as <-. constructor. now left.
  - destruct (String.eqb_spec cur "/") as [E2|N2].
    + intros H. injection H as <-. constructor. now right.
    + destruct (levels fuel rootPath (filepath.Dir cur)) as [l|] eqn:E; [|discriminate].
      intros H. injection H as <-. constructor; auto.
Qed.

End WalkShape.

(** ** Order and minimum of [float64] *)

Module mathFacts.
Import math.
Local Open Scope Z_scope.

Lemma leb_fin_pos m1 e1 m2 e2 :
  leb (S754_finite false m1 e1) (S754_finite false m2 e2) = true
  <-> (e1 < e2 \/ e1 = e2 /\ Zpos m1 <= Zpos m2)%Z.
Proof.
  unfold leb, SFleb. simpl. change (Pos.compare_cont Eq) with Pos.compare.
  destruct (Z.compare_spec e1 e2); [destruct (Pos.compare_spec m1 m2)| |];
    split; intros; try discriminate; try reflexivity; lia.
Qed.

Lemma leb_fin_neg m1 e1 m2 e2 :
  leb (S754_finite true m1 e1) (S754_finite true m2 e2) = true
  <-> (e2 < e1 \/ e1 = e2 /\ Zpos m2 <= Zpos m1)%Z.
Proof.
  unfold leb, SFleb. simpl. change (Pos.compare_cont Eq) with Pos.compare.
  destruct (Z.compare_spec e1 e2); [destruct (Pos.compare_spec m1 m2)| |];
    split; simpl; intros; try discriminate; try reflexivity; lia.
Qed.

Lemma leb_trans x y z : leb x y = true -> leb y z = true -> leb x z = true.
Proof.
  destruct x as [sx|sx| |sx mx ex], y as [sy|sy| |sy my ey], z as [sz|sz| |sz mz ez];
    try destruct sx; try destruct sy; try destruct sz;
    try (cbn; intros; (discriminate || reflexivity)).
  - rewrite !leb_fin_neg. lia.
  - rewrite !leb_fin_pos. lia.
Qed.

Lemma leb_total x y : IsNaN x = false -> IsNaN y = false -> leb x y = true \/ leb y x = true.
Proof.
  destruct x as [sx|sx| |sx mx ex], y as [sy|sy| |sy my ey]; 
    try destruct sx; try destruct sy;
    try (cbn; intros; (discriminate || (left; reflexivity) || (right; reflexivity))).
  - rewrite !leb_fin_neg. lia.
  - rewrite !leb_fin_pos. lia.
Qed.

Lemma ltb_leb x y : ltb x y = true -> leb x y = true.
Proof. unfold ltb, leb, SFltb, SFleb. destruct (SFcompare x y) as [[]|]; congruence. Qed.

Lemma ltb_false_leb x y : IsNaN x = false -> IsNaN y = false -> ltb x y = false -> leb y x = true.
Proof.
  intros Hx Hy H. destruct (leb_total x y Hx Hy) as [L|L]; [|exact L].
  revert H L.
  destruct x as [sx|sx| |sx mx ex], y as [sy|sy| |sy my ey]; 
    try destruct sx; try destruct sy;
    try (cbn; intros; (discriminate || reflexivity)).
  - unfold ltb, leb, SFltb, SFleb. simpl. rewrite (Z.compare_antisym ex ey).
    change (Pos.compare_cont Eq) with Pos.compare. rewrite (Pos.compare_antisym mx my).
    destruct (ex ?= ey)%Z, (mx ?= my)%positive; simpl; congruence.
  - unfold ltb, leb, SFltb, SFleb. simpl. rewrite (Z.compare_antisym ex ey).
    change (Pos.compare_cont Eq) with Pos.compare. rewrite (Pos.compare_antisym mx my).
    destruct (ex ?= ey)%Z, (mx ?= my)%positive; simpl; congruence.
Qed.

Lemma Min_cases x y : IsNaN x = false -> IsNaN y = false ->
  (Min x y = x \/ Min x y = y) /\ leb (Min x y) x = true /\ leb (Min x y) y = true.
Proof.
  intros Hx Hy. unfold Min. rewrite Hx, Hy. simpl.
  destruct (IsInf x (-1)) eqn:Ix.
  { destruct x as [| [] | |]; try discriminate. simpl.
    destruct y as [[]|[]| |[]]; try discriminate; cbn; auto. }
  destruct (IsInf y (-1)) eqn:Iy.
  { destruct y as [| [] | |]; try discriminate. simpl.
    destruct x as [[]|[]| |[]]; try discriminate; cbn; auto. }
  simpl.
  destruct (eqb x zero && eqb x y) eqn:E.
  { apply andb_prop in E. destruct E as [E1 E2].
    destruct x as [sx|sx| |sx mx ex]; try destruct sx; try discriminate;
    destruct y as [sy|sy| |sy my ey]; try destruct sy; try discriminate; cbn; auto. }
  destruct (ltb x y) eqn:L.
  - split; [auto|]. split; [|now apply ltb_leb].
    destruct (leb_total x x Hx Hx); assumption.
  - split; [auto|]. split; [now apply ltb_false_leb|].
    destruct (leb_total y y Hy Hy); assumption.
Qed.

Lemma Min_not_nan x y :
  IsNaN x = false -> IsNaN y = false -> IsNaN (Min x y) = false.
Proof.
  intros Hx Hy. destruct (Min_cases x y Hx Hy) as [[-> | ->] _]; assumption.
Qed.

(** The fold of [Min] from [init] over samples that are not NaN is a
    least element of [init :: l]. *)
Lemma fold_Min_least l : forall init,
  IsNaN init = false -> (forall x, In x l -> IsNaN x = false) ->
  least (fold_left Min l init) (init :: l)
  /\ IsNaN (fold_left Min l init) = false.
Proof.
  induction l as [|y l IH]; intros init Hi Hl; simpl.
  - split; [|assumption]. split; [now left|].
    intros x [<-|[]]. destruct (leb_total init init Hi Hi); assumption.
  - assert (Hy : IsNaN y = false) by (apply Hl; now left).
    destruct (Min_cases init y Hi Hy) as (Hc & L1 & L2).
    destruct (IH (Min init y) (Min_not_nan _ _ Hi Hy)) as ((Hin & Hle) & Hn).
    { intros x Hx. apply Hl. now right. }
    split; [|assumption]. split.
    + destruct Hin as [Hin|Hin]; [|right; now right].
      rewrite <- Hin. destruct Hc as [-> | ->]; [now left | right; now left].
    + intros x [<-|[<-|Hx]].
      * eapply leb_trans; [apply Hle; now left | exact L1].
      * eapply leb_trans; [apply Hle; now left | exact L2].
      * apply Hle. now right.
Qed.

Lemma leb_Inf_inv x : leb (Inf 1) x = true -> x = Inf 1.
Proof.
  destruct x as [[]|[]| |[]]; cbn; intros H; (discriminate || reflexivity).
Qed.

End mathFacts.

(** ** Conversion, ceiling and maximum of [float64] *)

Module floatFacts.
Import math.
Local Open Scope Z_scope.

(** Arithmetic on the exponent function of binary64. *)
Ltac fexp_lia := unfold fexp, emin, prec, emax; lia.

Lemma digits2_pos_iter_xO m k :
  digits2_pos (Pos.iter xO m k) = (digits2_pos m + k)%positive.
Proof.
  induction k using Pos.peano_ind.
  - simpl. lia.
  - rewrite Pos.iter_succ. simpl. rewrite IHk. lia.
Qed.

Lemma shr_nop mrs e n : n <= 0 -> shr mrs e n = (mrs, e).
Proof. destruct n; [reflexivity | lia | reflexivity]. Qed.

Lemma shr_fexp_nop m e l :
  fexp prec emax (Zdigits2 m + e) <= e ->
  shr_fexp prec emax m e l = (shr_record_of_loc m l, e).
Proof. intros H. unfold shr_fexp. apply shr_nop. lia. Qed.

(** A canonical mantissa is left as it is. *)
Lemma binary_round_aux_canonical s m e :
  fexp prec emax (Zpos (digits2_pos m) + e) = e -> e <= emax - prec ->
  binary_round_aux prec emax s (Zpos m) e loc_Exact = S754_finite s m e.
Proof.
  intros Hc He. unfold binary_round_aux.
  rewrite shr_fexp_nop by (simpl Zdigits2; lia).
  cbn [shr_record_of_loc shr_m loc_of_shr_record round_nearest_even].
  rewrite shr_fexp_nop by (simpl Zdigits2; lia).
  cbn [shr_record_of_loc shr_m].
  destruct (Z.leb_spec e (emax - prec)); [reflexivity | lia].
Qed.

Lemma binary_round_small s m :
  Zpos (digits2_pos m) <= 53 ->
  binary_round prec emax s m 0
  = S754_finite s (normal m) (Zpos (digits2_pos m) - 53).
Proof.
  intros Hd. unfold binary_round, shl_align, normal.
  assert (Hf : fexp prec emax (Zpos (digits2_pos m) + 0) = Zpos (digits2_pos m) - 53)
    by fexp_lia.
  rewrite Hf.
  destruct (Z.pos (digits2_pos m) - 53 - 0) as [|p|p] eqn:E; try lia.
  - replace (53 - Z.pos (digits2_pos m)) with 0 by lia.
    replace (Z.pos (digits2_pos m) - 53) with 0 by lia.
    apply binary_round_aux_canonical; fexp_lia.
  - replace (53 - Z.pos (digits2_pos m)) with (Zpos p) by lia.
    apply binary_round_aux_canonical; rewrite ?digits2_pos_iter_xO;
      fexp_lia.
Qed.

Lemma digits2_pos_bounds m :
  2 ^ (Zpos (digits2_pos m) - 1) <= Zpos m < 2 ^ Zpos (digits2_pos m).
Proof.
  induction m as [m IH|m IH|]; simpl digits2_pos.
  - rewrite Pos2Z.inj_succ.
    replace (Z.succ (Zpos (digits2_pos m)) - 1) with (Z.succ (Zpos (digits2_pos m) - 1)) by lia.
    rewrite !Z.pow_succ_r by lia. lia.
  - rewrite Pos2Z.inj_succ.
    replace (Z.succ (Zpos (digits2_pos m)) - 1) with (Z.succ (Zpos (digits2_pos m) - 1)) by lia.
    rewrite !Z.pow_succ_r by lia. lia.
  - simpl. lia.
Qed.

Lemma digits2_pos_le m n :
  Zpos m < 2 ^ n -> 0 <= n -> Zpos (digits2_pos m) <= n.
Proof.
  intros H Hn. destruct (Z.le_gt_cases (Zpos (digits2_pos m)) n) as [L|G]; [exact L|].
  pose proof (digits2_pos_bounds m) as [B _].
  assert (2 ^ n <= 2 ^ (Zpos (digits2_pos m) - 1)) by (apply Z.pow_le_mono_r; lia).
  lia.
Qed.

Lemma Zpos_iter_xO m k : Zpos (Pos.iter xO m k) = Zpos m * 2 ^ Zpos k.
Proof.
  induction k using Pos.peano_ind.
  - simpl. lia.
  - rewrite Pos.iter_succ, Pos2Z.inj_succ, Z.pow_succ_r by lia.
    rewrite Pos2Z.inj_xO, IHk. lia.
Qed.

Lemma Zpos_normal m :
  Zpos (digits2_pos m) <= 53 ->
  Zpos (normal m) = Zpos m * 2 ^ (53 - Zpos (digits2_pos m)).
Proof.
  intros H. unfold normal.
  destruct (53 - Zpos (digits2_pos m)) eqn:E; try lia.
  apply Zpos_iter_xO.
Qed.

Lemma of_int_small n :
  0 < n <= 2 ^ 53 ->
  exists m, n = Zpos m /\ Zpos (digits2_pos m) <= 54 /\
  (Zpos (digits2_pos m) <= 53 ->
  of_int n = S754_finite false (normal m) (Zpos (digits2_pos m) - 53)).
Proof.
  intros [H0 H1]. destruct n as [|m|m]; try lia.
  exists m. split; [reflexivity|]. split.
  - apply digits2_pos_le; lia.
  - intros Hd. unfold of_int, binary_normalize. now apply binary_round_small.
Qed.

Lemma toQ_of_int n :
  0 < n < 2 ^ 53 -> Qeq (toQ (of_int n)) (inject_Z n).
Proof.
  intros Hn. destruct (of_int_small n) as (m & -> & _ & H); [lia|].
  assert (Hd : Zpos (digits2_pos m) <= 53) by (apply digits2_pos_le; lia).
  rewrite (H Hd). unfold toQ. pose proof (Zpos_normal m Hd) as HN.
  destruct (Zpos (digits2_pos m) - 53) as [|k|k] eqn:E; try lia.
  - replace (53 - Zpos (digits2_pos m)) with 0 in HN by lia.
    rewrite HN. simpl. unfold Qeq. simpl. lia.
  - unfold Qeq. cbn [Qnum Qden inject_Z]. rewrite Zpos_iter_xO, HN.
    replace (53 - Zpos (digits2_pos m)) with (Zpos k) by lia. lia.
Qed.

Lemma valid_digits s m e :
  valid_binary prec emax (S754_finite s m e) = true ->
  Zpos (digits2_pos m) <= 53 /\ (-1074 < e -> Zpos (digits2_pos m) = 53) /\ -1074 <= e <= 971.
Proof.
  unfold valid_binary, bounded, canonical_mantissa, fexp, emin, prec, emax.
  intros H. apply andb_prop in H. destruct H as [H1 H2].
  apply Z.eqb_eq in H1. apply Z.leb_le in H2. lia.
Qed.

Lemma SFopp_involutive x : SFopp (SFopp x) = x.
Proof. destruct x as [[]|[]| |[]]; reflexivity. Qed.

Lemma Max_two_big M E :
  -51 < E -> Max two (S754_finite false M E) = S754_finite false M E.
Proof.
  intros H. change two with (S754_finite false 4503599627370496 (-51)).
  unfold Max, gtb, SFltb. cbn [IsInf IsNaN orb eqb SFeqb SFcompare zero andb].
  now rewrite (proj2 (Z.compare_gt_iff E (-51))) by lia.
Qed.

Lemma Max_two_of_int n :
  0 < n < 2 ^ 53 -> Max two (of_int n) = of_int (Z.max 2 n).
Proof.
  intros Hn. destruct (of_int_small n) as (m & -> & _ & H); [lia|].
  assert (Hd : Zpos (digits2_pos m) <= 53) by (apply digits2_pos_le; lia).
  assert (Hbig : 3 <= Zpos (digits2_pos m) ->
                 Max two (of_int (Zpos m)) = of_int (Z.max 2 (Zpos m))).
  { intros H3. pose proof (digits2_pos_bounds m) as [B _].
    assert (2 ^ 2 <= 2 ^ (Zpos (digits2_pos m) - 1)) by (apply Z.pow_le_mono_r; lia).
    rewrite Z.max_r by lia. rewrite (H Hd). apply Max_two_big. lia. }
  destruct m as [[p|p|]|[p|p|]|]; try reflexivity; apply Hbig; simpl; lia.
Qed.

(** The integer above a positive dyadic number [m / 2^k]. *)
Lemma Ceil_fraction m k :
  Ceil (S754_finite false m (Zneg k))
  = of_int (- ((- Zpos m) / 2 ^ Zpos k)).
Proof.
  unfold Ceil. cbn [SFopp negb Floor]. cbn [Z.leb Z.compare Z.opp].
  rewrite SFopp_involutive. f_equal.
  rewrite Z.shiftr_div_pow2, Z.shiftl_mul_pow2 by lia.
  assert (Hp : 0 < 2 ^ Zpos k) by (apply Z.pow_pos_nonneg; lia).
  pose proof (Z.div_mod (Zpos m) (2 ^ Zpos k)) as Hdm.
  pose proof (Z.mod_pos_bound (Zpos m) (2 ^ Zpos k) Hp) as Hmb.
  specialize (Hdm ltac:(lia)).
  destruct (Z.eqb_spec (Zpos m / 2 ^ Zpos k * 2 ^ Zpos k) (Zpos m)) as [E|N];
    simpl negb; cbv iota; change (Z.neg m) with (- Zpos m).
  - rewrite Z.div_opp_l_z by lia. lia.
  - rewrite Z.div_opp_l_nz by lia. lia.
Qed.

Lemma Ceil_fraction_bounds m k :
  Zpos (digits2_pos m) <= 53 ->
  0 < - ((- Zpos m) / 2 ^ Zpos k) <= 2 ^ 52.
Proof.
  intros Hd.
  assert (Hp : 2 <= 2 ^ Zpos k).
  { change 2 with (2 ^ 1) at 1. apply Z.pow_le_mono_r; lia. }
  pose proof (digits2_pos_bounds m) as [_ B].
  assert (Zpos m < 2 ^ 53).
  { eapply Z.lt_le_trans; [exact B|]. apply Z.pow_le_mono_r; lia. }
  assert (H1 : (- Zpos m) / 2 ^ Zpos k < 0) by (apply Z.div_lt_upper_bound; lia).
  assert (H2 : - 2 ^ 52 <= (- Zpos m) / 2 ^ Zpos k).
  { apply Z.div_le_lower_bound; [lia|]. change (2 ^ 53) with (2 * 2 ^ 52) in *. nia. }
  lia.
Qed.

Lemma toQ_fraction m k :
  Qceiling (toQ (S754_finite false m (Zneg k))) = - ((- Zpos m) / 2 ^ Zpos k).
Proof.
  unfold toQ, Qceiling, Qfloor, Qopp. cbn [Qnum Qden].
  rewrite Zpos_iter_xO. now rewrite Z.mul_1_l.
Qed.

(** For every finite, positive [float64] [x], [Max(2, Ceil(x))] stands for
    the integer [max 2 (ceiling x)]. *)
Lemma Max_two_Ceil_value x :
  valid_binary prec emax x = true -> ltb zero x = true -> IsInf x 1 = false ->
  Qeq (toQ (Max two (Ceil x))) (inject_Z (Z.max 2 (Qceiling (toQ x)))).
Proof.
  destruct x as [sx|[]| |[] m e]; try discriminate.
  intros Hv _ _. destruct (valid_digits _ _ _ Hv) as (Hd & Hn & He).
  destruct e as [|p|k].
  - assert (Hc : Ceil (S754_finite false m 0) = S754_finite false m 0) by reflexivity.
    rewrite Hc, Max_two_big by lia.
    pose proof (digits2_pos_bounds m) as [B _]. rewrite Hn in B by lia.
    unfold toQ. rewrite Qceiling_Z.
    change (2 ^ (53 - 1)) with 4503599627370496 in B.
    rewrite Z.max_r by lia. reflexivity.
  - assert (Hc : Ceil (S754_finite false m (Zpos p)) = S754_finite false m (Zpos p)) by reflexivity.
    rewrite Hc, Max_two_big by lia.
    pose proof (digits2_pos_bounds m) as [B _]. rewrite Hn in B by lia.
    unfold toQ. rewrite Qceiling_Z.
    change (2 ^ (53 - 1)) with 4503599627370496 in B.
    assert (0 < 2 ^ Zpos p) by (apply Z.pow_pos_nonneg; lia).
    rewrite Z.max_r by nia. reflexivity.
  - rewrite Ceil_fraction, toQ_fraction.
    pose proof (Ceil_fraction_bounds m k Hd) as Hb.
    change (2 ^ 52) with 4503599627370496 in Hb.
    rewrite Max_two_of_int by (change (2 ^ 53) with 9007199254740992; lia).
    apply toQ_of_int. change (2 ^ 53) with 9007199254740992. lia.
Qed.

(** Shifting out zero bits is exact. *)
Lemma iter_shr_exact n : forall M,
  iter_pos shr_1 n {| shr_m := Zpos (Pos.iter xO M n); shr_r := false; shr_s := false |}
  = {| shr_m := Zpos M; shr_r := false; shr_s := false |}.
Proof.
  induction n as [n IH|n IH|]; intros M; simpl.
  - now rewrite !IH.
  - now rewrite !IH.
  - reflexivity.
Qed.

Lemma binary_round_aux_iter s N n E :
  Zpos (digits2_pos N) = 53 -> -1074 <= E + Zpos n <= 971 ->
  binary_round_aux prec emax s (Zpos (Pos.iter xO N n)) E loc_Exact
  = S754_finite s N (E + Zpos n).
Proof.
  intros HN HE. unfold binary_round_aux, shr_fexp at 1.
  cbn [Zdigits2 shr_record_of_loc]. rewrite digits2_pos_iter_xO.
  replace (fexp prec emax (Zpos (digits2_pos N + n) + E) - E) with (Zpos n)
    by fexp_lia.
  cbn [shr]. rewrite iter_shr_exact.
  cbn [shr_m loc_of_shr_record round_nearest_even].
  rewrite shr_fexp_nop by (cbn [Zdigits2]; fexp_lia).
  cbn [shr_record_of_loc shr_m].
  destruct (Z.leb_spec (E + Zpos n) (emax - prec)); [reflexivity | unfold emax, prec in *; lia].
Qed.

Lemma digits2_pos_normal m :
  Zpos (digits2_pos m) <= 53 -> Zpos (digits2_pos (normal m)) = 53.
Proof.
  intros H. unfold normal.
  destruct (53 - Zpos (digits2_pos m)) as [|k|k] eqn:E; try lia.
  rewrite digits2_pos_iter_xO. lia.
Qed.

Lemma of_int_pos m :
  Zpos (digits2_pos m) <= 53 ->
  of_int (Zpos m) = S754_finite false (normal m) (Zpos (digits2_pos m) - 53).
Proof. intros H. unfold of_int, binary_normalize. now apply binary_round_small. Qed.

Lemma digits2_pos_mul K P :
  Zpos (digits2_pos K) + Zpos (digits2_pos P) - 1 <= Zpos (digits2_pos (K * P))
  <= Zpos (digits2_pos K) + Zpos (digits2_pos P).
Proof.
  pose proof (digits2_pos_bounds K) as [K1 K2].
  pose proof (digits2_pos_bounds P) as [P1 P2].
  pose proof (digits2_pos_bounds (K * P)) as [Q1 Q2].
  rewrite Pos2Z.inj_mul in *.
  set (a := Zpos (digits2_pos K)) in *. set (b := Zpos (digits2_pos P)) in *.
  set (c := Zpos (digits2_pos (K * P))) in *.
  assert (Ha : 1 <= a) by (unfold a; lia). assert (Hb : 1 <= b) by (unfold b; lia).
  assert (Hc : 1 <= c) by (unfold c; lia).
  assert (L : 2 ^ (a + b - 2) <= Zpos K * Zpos P).
  { replace (a + b - 2) with ((a - 1) + (b - 1)) by lia.
    rewrite Z.pow_add_r by lia. apply Z.mul_le_mono_nonneg; try lia;
    apply Z.pow_nonneg; lia. }
  assert (U : Zpos K * Zpos P < 2 ^ (a + b)).
  { rewrite Z.pow_add_r by lia. apply Z.mul_lt_mono_nonneg; lia. }
  split.
  - destruct (Z.le_gt_cases (a + b - 1) c) as [H|H]; [exact H|].
    assert (2 ^ c <= 2 ^ (a + b - 2)) by (apply Z.pow_le_mono_r; lia). lia.
  - destruct (Z.le_gt_cases c (a + b)) as [H|H]; [exact H|].
    assert (2 ^ (a + b) <= 2 ^ (c - 1)) by (apply Z.pow_le_mono_r; lia). lia.
Qed.

Lemma new_location_zero n : new_location n 0 = loc_Exact.
Proof. unfold new_location. destruct (Z.even n); reflexivity. Qed.

(** A quota that is a whole multiple of the period, below 2^53, is divided
    exactly. *)
Lemma div_of_int_multiple k p :
  0 < k -> 0 < p -> k * p < 2 ^ 53 ->
  div (of_int (k * p)) (of_int p) = of_int k.
Proof.
  intros Hk Hp Hq.
  destruct k as [|K|K]; try lia. destruct p as [|P|P]; try lia.
  change (Zpos K * Zpos P) with (Zpos (K * P)) in *.
  pose proof (digits2_pos_mul K P) as [D1 D2].
  assert (HdQ : Zpos (digits2_pos (K * P)) <= 53) by (apply digits2_pos_le; lia).
  assert (HdK : Zpos (digits2_pos K) <= 53) by lia.
  assert (HdP : Zpos (digits2_pos P) <= 53) by lia.
  rewrite !of_int_pos by assumption.
  unfold div, SFdiv, SFdiv_core_binary. cbn [Zdigits2 xorb].
  rewrite !digits2_pos_normal by assumption.
  set (dK := Zpos (digits2_pos K)) in *. set (dP := Zpos (digits2_pos P)) in *.
  set (dQ := Zpos (digits2_pos (K * P))) in *.
  replace (Z.min (fexp prec emax (53 + (dQ - 53) - (53 + (dP - 53)))) (dQ - 53 - (dP - 53)))
    with (dQ - dP - 53) by fexp_lia.
  replace (dQ - 53 - (dP - 53) - (dQ - dP - 53)) with 53 by lia.
  rewrite Z.shiftl_mul_pow2 by lia.
  assert (HnQ := Zpos_normal (K * P) HdQ). assert (HnP := Zpos_normal P HdP).
  assert (HnK := Zpos_normal K HdK). fold dQ in HnQ. fold dP in HnP. fold dK in HnK.
  assert (Hdiv : Zpos (normal (K * P)) * 2 ^ 53
                 = Zpos (normal P) * (Zpos K * 2 ^ (53 - dQ + dP))).
  { rewrite HnQ, HnP, Pos2Z.inj_mul.
    replace (53 - dQ + dP) with ((53 - dQ) + dP) by lia.
    rewrite Z.pow_add_r by lia.
    replace (2 ^ 53) with (2 ^ dP * 2 ^ (53 - dP))
      by (rewrite <- Z.pow_add_r by lia; f_equal; lia).
    ring. }
  assert (Hpos : 0 < Zpos K * 2 ^ (53 - dQ + dP)).
  { apply Z.mul_pos_pos; [lia | apply Z.pow_pos_nonneg; lia]. }
  pose proof (Z.div_eucl_eq (Zpos (normal (K * P)) * 2 ^ 53) (Zpos (normal P)) ltac:(lia)) as Heq.
  pose proof (Z.mod_pos_bound (Zpos (normal (K * P)) * 2 ^ 53) (Zpos (normal P)) ltac:(lia)) as Hmod.
  unfold Z.modulo in Hmod.
  destruct (Z.div_eucl (Zpos (normal (K * P)) * 2 ^ 53) (Zpos (normal P))) as [q r].
  assert (Hr : r = 0 /\ q = Zpos K * 2 ^ (53 - dQ + dP)).
  { rewrite Hdiv in Heq.
    assert (Zpos (normal P) * (Zpos K * 2 ^ (53 - dQ + dP) - q) = r) by lia.
    assert (Zpos K * 2 ^ (53 - dQ + dP) - q = 0) by nia. lia. }
  destruct Hr as [-> ->]. rewrite new_location_zero.
  assert (Hcase : dQ - dP = dK \/ dQ - dP = dK - 1) by lia.
  destruct Hcase as [Hc|Hc].
  - replace (Zpos K * 2 ^ (53 - dQ + dP)) with (Zpos (normal K))
      by (rewrite HnK; f_equal; f_equal; lia).
    rewrite binary_round_aux_canonical.
    + f_equal. lia.
    + rewrite digits2_pos_normal by assumption. fexp_lia.
    + unfold emax, prec. lia.
  - replace (Zpos K * 2 ^ (53 - dQ + dP)) with (Zpos (Pos.iter xO (normal K) 1)).
    + rewrite binary_round_aux_iter.
      * f_equal. lia.
      * now apply digits2_pos_normal.
      * lia.
    + rewrite Zpos_iter_xO, HnK.
      replace (53 - dQ + dP) with ((53 - dK) + 1) by lia.
      rewrite Z.pow_add_r by lia. ring.
Qed.

(** *** Conversions and quotients are numbers *)

Lemma shr_m_shr_1 mrs : 0 <= shr_m mrs -> shr_m (shr_1 mrs) = shr_m mrs / 2.
Proof.
  destruct mrs as [m r s]. cbn [shr_m]. intros H.
  destruct m as [|[p|p|]|p]; cbn [shr_1 shr_m]; try reflexivity; try lia.
  - apply Z.div_unique with (r := 1); lia.
  - apply Z.div_unique with (r := 0); lia.
Qed.

Lemma shr_m_iter n : forall mrs,
  0 <= shr_m mrs -> shr_m (iter_pos shr_1 n mrs) = shr_m mrs / 2 ^ Zpos n.
Proof.
  assert (Hnn : forall x k, 0 <= x -> 0 <= x / 2 ^ Zpos k).
  { intros x k Hx. apply Z.div_pos; [lia | apply Z.pow_pos_nonneg; lia]. }
  induction n as [n IH|n IH|]; intros mrs H; cbn [iter_pos].
  - assert (H1 : 0 <= shr_m (shr_1 mrs)) by (rewrite shr_m_shr_1 by lia; apply Z.div_pos; lia).
    rewrite IH; rewrite IH by lia; [|rewrite <- IH by lia; rewrite IH by lia; apply Hnn; lia].
    rewrite shr_m_shr_1 by lia. rewrite !Z.div_div by (try apply Z.pow_pos_nonneg; lia).
    f_equal. rewrite Pos2Z.inj_xI. rewrite <- Z.pow_add_r by lia.
    rewrite <- (Z.pow_1_r 2) at 1. rewrite <- Z.pow_add_r by lia. f_equal. lia.
  - rewrite IH; rewrite IH by lia; [|apply Hnn; lia].
    rewrite !Z.div_div by (try apply Z.pow_pos_nonneg; lia).
    f_equal. rewrite Pos2Z.inj_xO. rewrite <- Z.pow_add_r by lia. f_equal. lia.
  - rewrite shr_m_shr_1 by lia. reflexivity.
Qed.

Lemma shr_m_shr mrs e n :
  0 <= shr_m mrs ->
  shr_m (fst (shr mrs e n)) = (if 0 <? n then shr_m mrs / 2 ^ n else shr_m mrs)
  /\ snd (shr mrs e n) = (if 0 <? n then e + n else e).
Proof.
  intros H. destruct n as [|p|p]; cbn [shr fst snd Z.ltb Z.compare]; split; try reflexivity.
  now apply shr_m_iter.
Qed.

Lemma shr_m_record_of_loc m l : shr_m (shr_record_of_loc m l) = m.
Proof. destruct l as [|[]]; reflexivity. Qed.

Lemma round_nearest_even_bounds m l :
  m <= round_nearest_even m l <= m + 1.
Proof. destruct l as [|[]]; cbn [round_nearest_even]; try lia. destruct (Z.even m); lia. Qed.

Lemma shr_m_shr_nonneg mrs e n : 0 <= shr_m mrs -> 0 <= shr_m (fst (shr mrs e n)).
Proof.
  intros H. destruct n as [|p|p]; cbn [shr fst]; try lia.
  rewrite shr_m_iter by lia. apply Z.div_pos; [lia | apply Z.pow_pos_nonneg; lia].
Qed.

(** The mantissa and the exponent [binary_round_aux] decides on. *)
Lemma binary_round_aux_result s mx ex lx :
  0 <= mx ->
  exists m e, 0 <= m /\
    binary_round_aux prec emax s mx ex lx
    = match m with
      | Z0 => S754_zero s
      | Zpos p => if e <=? emax - prec then S754_finite s p e else S754_infinity s
      | Zneg _ => S754_nan
      end.
Proof.
  intros H. unfold binary_round_aux, shr_fexp.
  pose proof (shr_m_shr_nonneg (shr_record_of_loc mx lx) ex
                (fexp prec emax (Zdigits2 mx + ex) - ex)) as H1.
  rewrite shr_m_record_of_loc in H1. specialize (H1 H).
  destruct (shr (shr_record_of_loc mx lx) ex
              (fexp prec emax (Zdigits2 mx + ex) - ex)) as [mrs' e'].
  cbn [fst] in H1.
  set (m1 := round_nearest_even (shr_m mrs') (loc_of_shr_record mrs')).
  assert (Hm1 : 0 <= m1)
    by (pose proof (round_nearest_even_bounds (shr_m mrs') (loc_of_shr_record mrs')); unfold m1; lia).
  pose proof (shr_m_shr_nonneg (shr_record_of_loc m1 loc_Exact) e'
                (fexp prec emax (Zdigits2 m1 + e') - e')) as H2.
  rewrite shr_m_record_of_loc in H2. specialize (H2 Hm1).
  destruct (shr (shr_record_of_loc m1 loc_Exact) e'
              (fexp prec emax (Zdigits2 m1 + e') - e')) as [mrs'' e''].
  cbn [fst] in H2.
  exists (shr_m mrs''), e''. split; [exact H2 | reflexivity].
Qed.

Lemma binary_round_aux_not_nan s mx ex lx :
  0 <= mx -> IsNaN (binary_round_aux prec emax s mx ex lx) = false.
Proof.
  intros H. destruct (binary_round_aux_result s mx ex lx H) as (m & e & Hm & ->).
  destruct m; [reflexivity | destruct (e <=? emax - prec); reflexivity | lia].
Qed.

Lemma digits2_pos_ge m n :
  2 ^ (n - 1) <= Zpos m -> 1 <= n -> n <= Zpos (digits2_pos m).
Proof.
  intros H Hn. pose proof (digits2_pos_bounds m) as [_ B].
  destruct (Z.le_gt_cases n (Zpos (digits2_pos m))) as [L|G]; [exact L|].
  assert (2 ^ Zpos (digits2_pos m) <= 2 ^ (n - 1)) by (apply Z.pow_le_mono_r; lia).
  lia.
Qed.

(** An integer of at most 64 bits is converted to a finite number. *)
Lemma binary_round_finite s M :
  Zpos (digits2_pos M) <= 64 ->
  exists m e, binary_round prec emax s M 0 = S754_finite s m e.
Proof.
  intros Hd.
  destruct (Z.le_gt_cases (Zpos (digits2_pos M)) 53) as [Hs|Hl].
  { rewrite binary_round_small by assumption. eauto. }
  assert (Hf : forall d e, 53 <= d <= 65 -> 0 <= e <= 64 ->
                 fexp prec emax (d + e) = d + e - 53)
    by (intros; fexp_lia).
  unfold binary_round, shl_align.
  rewrite (Hf _ 0) by lia.
  destruct (Zpos (digits2_pos M) + 0 - 53 - 0) as [|n|n] eqn:En; try lia.
  unfold binary_round_aux, shr_fexp. cbn [Zdigits2].
  rewrite (Hf _ 0) by lia.
  replace (Zpos (digits2_pos M) + 0 - 53 - 0) with (Zpos n).
  destruct (shr_m_shr (shr_record_of_loc (Zpos M) loc_Exact) 0 (Zpos n)) as [A1 A2];
    [cbn; lia|].
  destruct (shr (shr_record_of_loc (Zpos M) loc_Exact) 0 (Zpos n)) as [mrs' e'].
  cbn [fst snd shr_record_of_loc shr_m Z.ltb Z.compare] in A1, A2. subst e'.
  pose proof (digits2_pos_bounds M) as [B1 B2].
  assert (Hp : 0 < 2 ^ Zpos n) by (apply Z.pow_pos_nonneg; lia).
  assert (Hlo : 2 ^ 52 <= shr_m mrs').
  { rewrite A1. apply Z.div_le_lower_bound; [lia|].
    rewrite <- Z.pow_add_r by lia.
    replace (Zpos n + 52) with (Zpos (digits2_pos M) - 1) by lia. exact B1. }
  assert (Hhi : shr_m mrs' < 2 ^ 53).
  { rewrite A1. apply Z.div_lt_upper_bound; [lia|].
    rewrite <- Z.pow_add_r by lia.
    replace (Zpos n + 53) with (Zpos (digits2_pos M)) by lia. exact B2. }
  pose proof (round_nearest_even_bounds (shr_m mrs') (loc_of_shr_record mrs')) as Hr.
  change (2 ^ 52) with 4503599627370496 in *. change (2 ^ 53) with 9007199254740992 in *.
  destruct (round_nearest_even (shr_m mrs') (loc_of_shr_record mrs')) as [|p1|p1];
    try lia.
  cbn [Zdigits2].
  assert (D1 : 53 <= Zpos (digits2_pos p1))
    by (apply digits2_pos_ge; [change (2 ^ (53 - 1)) with 4503599627370496|]; lia).
  assert (D2 : Zpos (digits2_pos p1) <= 54)
    by (apply digits2_pos_le; [change (2 ^ 54) with 18014398509481984|]; lia).
  rewrite Hf by lia.
  destruct (shr_m_shr (shr_record_of_loc (Zpos p1) loc_Exact) (0 + Zpos n)
              (Zpos (digits2_pos p1) + (0 + Zpos n) - 53 - (0 + Zpos n)))
    as [C1 C2]; [cbn; lia|].
  destruct (shr (shr_record_of_loc (Zpos p1) loc_Exact) (0 + Zpos n)
              (Zpos (digits2_pos p1) + (0 + Zpos n) - 53 - (0 + Zpos n)))
    as [mrs'' e''].
  cbn [fst snd shr_record_of_loc shr_m] in C1, C2.
  replace (Zpos (digits2_pos p1) + (0 + Zpos n) - 53 - (0 + Zpos n))
    with (Zpos (digits2_pos p1) - 53) in C1, C2 by lia.
  assert (Hm : 0 < shr_m mrs'' /\ e'' <= 971).
  { destruct (Z.ltb_spec 0 (Zpos (digits2_pos p1) - 53)) as [G|G].
    - replace (Zpos (digits2_pos p1) - 53) with 1 in C1 by lia.
      rewrite C1, C2. change (2 ^ 1) with 2. split; [|lia].
      apply Z.div_str_pos. lia.
    - rewrite C1, C2. lia. }
  destruct Hm as [Hm1 Hm2].
  destruct (shr_m mrs'') as [|p|p]; try lia.
  destruct (Z.leb_spec e'' (emax - prec)); [eauto | unfold emax, prec in *; lia].
Qed.

Lemma of_int_finite n :
  n <> 0 -> - 2 ^ 63 <= n <= 2 ^ 63 ->
  exists m e, of_int n = S754_finite (n <? 0) m e.
Proof.
  intros Hn Hr. change (2 ^ 63) with 9223372036854775808 in Hr.
  destruct n as [|M|M]; [congruence| |];
    apply binary_round_finite; apply digits2_pos_le;
      try (change (2 ^ 64) with 18446744073709551616); lia.
Qed.

Lemma of_int_zero : of_int 0 = zero.
Proof. reflexivity. Qed.

(** The quotient of two converted integers, the divisor not zero, is a
    number, and it has the sign of the quotient of the integers. *)
Lemma div_of_int_not_nan q p :
  - 2 ^ 63 <= q <= 2 ^ 63 -> - 2 ^ 63 <= p <= 2 ^ 63 -> p <> 0 ->
  IsNaN (div (of_int q) (of_int p)) = false
  /\ Signbit (div (of_int q) (of_int p)) = xorb (q <? 0) (p <? 0).
Proof.
  intros Hq Hp Hp0.
  destruct (of_int_finite p Hp0 Hp) as (mp & ep & ->).
  destruct (Z.eq_dec q 0) as [->|Hq0].
  - rewrite of_int_zero. cbn. split; reflexivity.
  - destruct (of_int_finite q Hq0 Hq) as (mq & eq & ->).
    unfold div, SFdiv.
    destruct (SFdiv_core_binary prec emax (Zpos mq) eq (Zpos mp) ep) as [[mz ez] lz] eqn:E.
    assert (Hmz : 0 <= mz).
    { unfold SFdiv_core_binary in E.
      set (s := eq - ep - _) in E.
      set (m' := match s with Z0 => Zpos mq | Zpos _ => Z.shiftl (Zpos mq) s | Zneg _ => 0 end) in E.
      assert (Hm' : 0 <= m').
      { unfold m'. destruct s; try lia. apply Z.shiftl_nonneg. lia. }
      pose proof (Z.div_pos m' (Zpos mp) Hm' ltac:(lia)) as Hdiv.
      unfold Z.div in Hdiv. destruct (Z.div_eucl m' (Zpos mp)) as [q' r'].
      injection E as <- _ _. exact Hdiv. }
    destruct (binary_round_aux_result (xorb (q <? 0) (p <? 0)) mz ez lz Hmz)
      as (m & e & Hm & ->).
    destruct m; [split; reflexivity | destruct (e <=? emax - prec); split; reflexivity | lia].
Qed.

Lemma digits2_pos_eq m n :
  2 ^ (n - 1) <= Zpos m < 2 ^ n -> 1 <= n -> Zpos (digits2_pos m) = n.
Proof.
  intros [H1 H2] Hn. apply Z.le_antisymm;
    [apply digits2_pos_le | apply digits2_pos_ge]; lia.
Qed.

(** A mantissa of at least 53 bits is rounded to a normal number. *)
Lemma binary_round_aux_normal s M ex lx :
  53 <= Zpos (digits2_pos M) <= 120 -> -1000 <= ex <= 800 ->
  exists m e,
    binary_round_aux prec emax s (Zpos M) ex lx = S754_finite s m e
    /\ Zpos (digits2_pos m) = 53 /\ ex <= e <= ex + 120.
Proof.
  intros Hd He.
  assert (Hf : forall d e, 53 <= d <= 121 -> -1000 <= e <= 921 ->
                 fexp prec emax (d + e) - e = d - 53)
    by (intros; fexp_lia).
  unfold binary_round_aux, shr_fexp. cbn [Zdigits2].
  rewrite Hf by lia.
  destruct (shr_m_shr (shr_record_of_loc (Zpos M) lx) ex (Zpos (digits2_pos M) - 53))
    as [A1 A2]; [rewrite shr_m_record_of_loc; lia|].
  destruct (shr (shr_record_of_loc (Zpos M) lx) ex (Zpos (digits2_pos M) - 53))
    as [mrs' e'].
  cbn [fst snd] in A1, A2. rewrite shr_m_record_of_loc in A1.
  pose proof (digits2_pos_bounds M) as [B1 B2].
  assert (Hm' : 2 ^ 52 <= shr_m mrs' < 2 ^ 53 /\ e' = ex + (Zpos (digits2_pos M) - 53)).
  { destruct (Z.ltb_spec 0 (Zpos (digits2_pos M) - 53)) as [G|G].
    - assert (Hp : 0 < 2 ^ (Zpos (digits2_pos M) - 53)) by (apply Z.pow_pos_nonneg; lia).
      rewrite A1. split; [split|lia].
      + apply Z.div_le_lower_bound; [lia|]. rewrite <- Z.pow_add_r by lia.
        replace (Zpos (digits2_pos M) - 53 + 52) with (Zpos (digits2_pos M) - 1) by lia.
        exact B1.
      + apply Z.div_lt_upper_bound; [lia|]. rewrite <- Z.pow_add_r by lia.
        replace (Zpos (digits2_pos M) - 53 + 53) with (Zpos (digits2_pos M)) by lia.
        exact B2.
    - replace (Zpos (digits2_pos M)) with 53 in * by lia.
      rewrite A1. change (53 - 1) with 52 in B1. lia. }
  destruct Hm' as [[Hlo Hhi] He'].
  pose proof (round_nearest_even_bounds (shr_m mrs') (loc_of_shr_record mrs')) as Hr.
  change (2 ^ 52) with 4503599627370496 in *. change (2 ^ 53) with 9007199254740992 in *.
  destruct (round_nearest_even (shr_m mrs') (loc_of_shr_record mrs')) as [|p1|p1];
    try lia.
  cbn [Zdigits2].
  assert (D1 : 53 <= Zpos (digits2_pos p1))
    by (apply digits2_pos_ge; [change (2 ^ (53 - 1)) with 4503599627370496|]; lia).
  assert (D2 : Zpos (digits2_pos p1) <= 54)
    by (apply digits2_pos_le; [change (2 ^ 54) with 18014398509481984|]; lia).
  rewrite Hf by lia.
  destruct (shr_m_shr (shr_record_of_loc (Zpos p1) loc_Exact) e' (Zpos (digits2_pos p1) - 53))
    as [C1 C2]; [cbn; lia|].
  destruct (shr (shr_record_of_loc (Zpos p1) loc_Exact) e' (Zpos (digits2_pos p1) - 53))
    as [mrs'' e''].
  cbn [fst snd shr_record_of_loc shr_m] in C1, C2.
  assert (Hm : 4503599627370496 <= shr_m mrs'' < 9007199254740992 /\ e' <= e'' <= e' + 1).
  { destruct (Z.ltb_spec 0 (Zpos (digits2_pos p1) - 53)) as [G|G].
    - assert (D54 : Zpos (digits2_pos p1) = 54) by lia.
      rewrite D54 in C1, C2. change (54 - 53) with 1 in C1, C2.
      pose proof (digits2_pos_bounds p1) as [P1 _].
      rewrite D54 in P1. change (54 - 1) with 53 in P1.
      change (2 ^ 53) with 9007199254740992 in P1.
      assert (Zpos p1 = 9007199254740992) by lia.
      rewrite C1, C2. replace (Zpos p1) with 9007199254740992. split; [|lia].
      change (2 ^ 1) with 2. change (9007199254740992 / 2) with 4503599627370496. lia.
    - assert (D53 : Zpos (digits2_pos p1) = 53) by lia.
      pose proof (digits2_pos_bounds p1) as [_ P2].
      rewrite D53 in P2. change (2 ^ 53) with 9007199254740992 in P2.
      rewrite C1, C2. lia. }
  destruct Hm as [[Hm1 Hm2] Hm3].
  destruct (shr_m mrs'') as [|p|p]; try lia.
  destruct (Z.leb_spec e'' (emax - prec)) as [L|L]; [|unfold emax, prec in *; lia].
  exists p, e''. split; [reflexivity|]. split; [|lia].
  apply digits2_pos_eq; [|lia].
  change (2 ^ (53 - 1)) with 4503599627370496. change (2 ^ 53) with 9007199254740992. lia.
Qed.

Lemma valid_normal s m e :
  Zpos (digits2_pos m) = 53 -> -1074 <= e <= 971 ->
  valid_binary prec emax (S754_finite s m e) = true.
Proof.
  intros Hd He. unfold valid_binary, bounded, canonical_mantissa, fexp, emin, prec, emax.
  rewrite Hd. apply andb_true_intro. split; [apply Z.eqb_eq | apply Z.leb_le]; lia.
Qed.

(** The conversion of an [int64] other than 0 is a normal number. *)
Lemma of_int_normal n :
  n <> 0 -> - 2 ^ 63 <= n <= 2 ^ 63 ->
  exists m e, of_int n = S754_finite (n <? 0) m e
              /\ Zpos (digits2_pos m) = 53 /\ -52 <= e <= 120.
Proof.
  intros Hn Hr. change (2 ^ 63) with 9223372036854775808 in Hr.
  assert (H : forall s M, Zpos M <= 9223372036854775808 ->
            exists m e, binary_round prec emax s M 0 = S754_finite s m e
                        /\ Zpos (digits2_pos m) = 53 /\ -52 <= e <= 120).
  { intros s M HM.
    assert (Hd : Zpos (digits2_pos M) <= 64)
      by (apply digits2_pos_le; [change (2 ^ 64) with 18446744073709551616|]; lia).
    destruct (Z.le_gt_cases (Zpos (digits2_pos M)) 53) as [Hs|Hl].
    - rewrite binary_round_small by assumption.
      eexists. eexists. split; [reflexivity|].
      split; [now apply digits2_pos_normal | lia].
    - unfold binary_round, shl_align.
      replace (fexp prec emax (Zpos (digits2_pos M) + 0))
        with (Zpos (digits2_pos M) - 53) by fexp_lia.
      destruct (Zpos (digits2_pos M) - 53 - 0) as [|k|k] eqn:Ek; try lia.
      destruct (binary_round_aux_normal s M 0 loc_Exact) as (m & e & -> & Hm & He);
        [lia | lia |].
      exists m, e. split; [reflexivity|]. split; [exact Hm | lia]. }
  destruct n as [|M|M]; [congruence | apply H; lia | apply H; lia].
Qed.

(** The quotient of two normal numbers of that range is a normal number. *)
Lemma div_normal s1 m1 e1 s2 m2 e2 :
  Zpos (digits2_pos m1) = 53 -> Zpos (digits2_pos m2) = 53 ->
  -52 <= e1 <= 120 -> -52 <= e2 <= 120 ->
  exists m e, div (S754_finite s1 m1 e1) (S754_finite s2 m2 e2)
              = S754_finite (xorb s1 s2) m e
              /\ Zpos (digits2_pos m) = 53 /\ -1000 <= e <= 971.
Proof.
  intros D1 D2 E1 E2. unfold div, SFdiv, SFdiv_core_binary. cbn [Zdigits2].
  rewrite D1, D2.
  replace (Z.min (fexp prec emax (53 + e1 - (53 + e2))) (e1 - e2)) with (e1 - e2 - 53)
    by fexp_lia.
  replace (e1 - e2 - (e1 - e2 - 53)) with 53 by lia.
  rewrite Z.shiftl_mul_pow2 by lia.
  pose proof (digits2_pos_bounds m1) as [A1 A2]. rewrite D1 in A1, A2.
  pose proof (digits2_pos_bounds m2) as [B1 B2]. rewrite D2 in B1, B2.
  change (2 ^ (53 - 1)) with 4503599627370496 in *.
  change (2 ^ 53) with 9007199254740992 in *.
  assert (Hq1 : 4503599627370496 <= Zpos m1 * 9007199254740992 / Zpos m2)
    by (apply Z.div_le_lower_bound; lia).
  assert (Hq2 : Zpos m1 * 9007199254740992 / Zpos m2 < 18014398509481984)
    by (apply Z.div_lt_upper_bound; lia).
  unfold Z.div in Hq1, Hq2.
  destruct (Z.div_eucl (Zpos m1 * 9007199254740992) (Zpos m2)) as [q r].
  cbn [fst] in Hq1, Hq2. destruct q as [|Mq|Mq]; try lia.
  destruct (binary_round_aux_normal (xorb s1 s2) Mq (e1 - e2 - 53)
              (new_location (Zpos m2) r)) as (m & e & -> & Hm & He).
  - split.
    + apply digits2_pos_ge; [change (2 ^ (53 - 1)) with 4503599627370496|]; lia.
    + assert (Zpos (digits2_pos Mq) <= 54)
        by (apply digits2_pos_le; [change (2 ^ 54) with 18014398509481984|]; lia).
      lia.
  - lia.
  - exists m, e. split; [reflexivity|]. split; [exact Hm | lia].
Qed.

(** The sample of a level is a [float64]. *)
Lemma div_of_int_valid q p :
  - 2 ^ 63 <= q <= 2 ^ 63 -> - 2 ^ 63 <= p <= 2 ^ 63 -> p <> 0 ->
  valid_binary prec emax (div (of_int q) (of_int p)) = true.
Proof.
  intros Hq Hp Hp0.
  destruct (of_int_normal p Hp0 Hp) as (mp & ep & -> & Dp & Ep).
  destruct (Z.eq_dec q 0) as [->|Hq0]; [reflexivity|].
  destruct (of_int_normal q Hq0 Hq) as (mq & eq & -> & Dq & Eq).
  destruct (div_normal (q <? 0) mq eq (p <? 0) mp ep Dq Dp Eq Ep) as (m & e & -> & Dm & Em).
  apply valid_normal; [exact Dm | lia].
Qed.

Lemma Min_valid x y :
  valid_binary prec emax x = true -> valid_binary prec emax y = true ->
  valid_binary prec emax (Min x y) = true.
Proof.
  intros Hx Hy. unfold Min.
  destruct (IsInf x (-1) || IsInf y (-1)); [reflexivity|].
  destruct (IsNaN x || IsNaN y); [reflexivity|].
  destruct (eqb x zero && eqb x y); [destruct (Signbit x); assumption|].
  destruct (ltb x y); assumption.
Qed.

End floatFacts.

(** ** The range of [strconv.ParseInt] *)

Module strconvFacts.
Import strconv.
Local Open Scope Z_scope.

Lemma parseDigits_range s : forall n v,
  0 <= n <= maxUint64 -> parseDigits n s = inl v -> 0 <= v <= maxUint64.
Proof.
  induction s as [|c s IH]; intros n v Hn; cbn [parseDigits].
  - intros H. injection H as <-. exact Hn.
  - destruct ((48 <=? Z.of_nat (nat_of_ascii c)) && (Z.of_nat (nat_of_ascii c) <=? 57)) eqn:Ed;
      [|discriminate].
    apply andb_prop in Ed. destruct Ed as [E1 E2].
    apply Z.leb_le in E1. apply Z.leb_le in E2.
    destruct (n >=? maxUint64 / 10 + 1); [discriminate|].
    destruct (Z.gtb_spec (n * 10 + (Z.of_nat (nat_of_ascii c) - 48)) maxUint64);
      [discriminate|].
    apply IH. lia.
Qed.

(** A successful [ParseInt] gives a value of [int64]. *)
Lemma ParseInt_range s z :
  ParseInt s = (z, None) -> - 2 ^ 63 <= z < 2 ^ 63.
Proof.
  unfold ParseInt. destruct s as [|c rest]; [discriminate|].
  set (neg := Ascii.eqb c "-").
  set (s := if (Ascii.eqb c "+" || neg)%bool then rest else String c rest).
  assert (Hu : forall v, ParseUint s = inl v -> 0 <= v <= maxUint64).
  { unfold ParseUint. intros v. destruct (s =? "")%string; [discriminate|].
    apply parseDigits_range. unfold maxUint64. lia. }
  destruct (ParseUint s) as [v|[]]; [| |discriminate].
  - specialize (Hu v eq_refl).
    change (2 ^ 63) with 9223372036854775808. unfold maxUint64 in Hu.
    destruct neg; cbn [negb andb].
    + destruct (Z.gtb_spec v 9223372036854775808) as [G|G]; [discriminate|].
      intros E. injection E as <-. lia.
    + destruct (Z.geb_spec v 9223372036854775808) as [G|G]; [discriminate|].
      intros E. injection E as <-. lia.
  - change (maxUint64 >=? 2 ^ 63) with true. change (maxUint64 >? 2 ^ 63) with true.
    destruct neg; cbn [negb andb]; discriminate.
Qed.

End strconvFacts.

Section RunningMin.
Import math mathFacts.

(** The running minimum of samples that are not NaN: positive infinity
    when there is none, and otherwise the least of them. *)
Lemma runningMin_least (l : list float64) :
  (forall x, In x l -> IsNaN x = false) ->
  (l = [] -> runningMin l = Inf 1) /\ (l <> [] -> least (runningMin l) l).
Proof.
  intros Hl. split; [intros ->; reflexivity|]. intros Hne.
  destruct (fold_Min_least l (Inf 1) eq_refl Hl) as ((Hin & Hle) & _).
  fold (runningMin l) in *. split.
  - destruct Hin as [Hin|Hin]; [|exact Hin].
    destruct l as [|y l]; [congruence|].
    assert (Hy : y = Inf 1).
    { apply leb_Inf_inv. rewrite Hin. apply Hle. right. now left. }
    rewrite <- Hin, <- Hy. now left.
  - intros x Hx. apply Hle. now right.
Qed.

End RunningMin.

(** ** The resolver *)

Section Resolver.
Import math.

Variable fuel : nat.
Variable fs : FS.

Lemma value_Stat path :
  value (os.Stat fs path)
  = if fsStat fs path then None else Some (PathError "stat" path).
Proof. reflexivity. Qed.

Lemma getCgroupV2Limit_levels cgroupPath ls :
  value (getProcessCgroupPath fs "") = (cgroupPath, None) ->
  levels fuel cgroupV2Path (filepath.Join2 cgroupV2Path cgroupPath) = Some ls ->
  value (getCgroupV2Limit fuel fs)
  = Some (if IsInf (runningMin (samples (calculateV2CPUQuota fs) ls)) 1 then zero
          else runningMin (samples (calculateV2CPUQuota fs) ls), None).
Proof.
  intros Hp Hl. unfold getCgroupV2Limit. rewrite value_bind, Hp.
  now destruct (walkHierarchy_levels (calculateV2CPUQuota fs) _ _ _ _ Hl) as [-> _].
Qed.

Lemma getCgroupV1Limit_levels cgroupPath ls :
  value (getProcessCgroupPath fs "cpu") = (cgroupPath, None) ->
  levels fuel cgroupV1CPUPath (filepath.Join2 cgroupV1CPUPath cgroupPath) = Some ls ->
  value (getCgroupV1Limit fuel fs)
  = Some (if IsInf (runningMin (samples (calculateV1CPUQuota fs) ls)) 1 then zero
          else runningMin (samples (calculateV1CPUQuota fs) ls), None).
Proof.
  intros Hp Hl. unfold getCgroupV1Limit. rewrite value_bind, Hp.
  now destruct (walkHierarchy_levels (calculateV1CPUQuota fs) _ _ _ _ Hl) as [-> _].
Qed.

(** With the marker of cgroup v2 the resolver goes the v2 way, without it
    and with the v1 directory the v1 way, and with neither it returns 0. *)
Lemma getEffectiveCPULimit_v2 :
  fsStat fs (filepath.Join2 cgroupV2Path "cgroup.controllers") = true ->
  getEffectiveCPULimit fuel fs
  = bind (os.Stat fs (filepath.Join2 cgroupV2Path "cgroup.controllers"))
         (fun _ => getCgroupV2Limit fuel fs).
Proof. intros H. unfold getEffectiveCPULimit, bind, os.Stat. now rewrite H. Qed.

Lemma getEffectiveCPULimit_v1 :
  fsStat fs (filepath.Join2 cgroupV2Path "cgroup.controllers") = false ->
  fsStat fs cgroupV1CPUPath = true ->
  value (getEffectiveCPULimit fuel fs) = value (getCgroupV1Limit fuel fs).
Proof.
  intros H2 H1. unfold getEffectiveCPULimit.
  rewrite value_bind, value_Stat, H2, value_bind, value_Stat, H1. reflexivity.
Qed.

Lemma getEffectiveCPULimit_none :
  fsStat fs (filepath.Join2 cgroupV2Path "cgroup.controllers") = false ->
  fsStat fs cgroupV1CPUPath = false ->
  value (getEffectiveCPULimit fuel fs) = Some (zero, None).
Proof.
  intros H2 H1. unfold getEffectiveCPULimit.
  rewrite value_bind, value_Stat, H2, value_bind, value_Stat, H1. reflexivity.
Qed.

(** The effective limit of a resolved hierarchy is the running minimum of
    its samples, and [0] when that is positive infinity. *)
Lemma getEffectiveCPULimit_resolves l :
  resolves fuel fs l ->
  value (getEffectiveCPULimit fuel fs)
  = Some (if IsInf (runningMin l) 1 then zero else runningMin l, None).
Proof.
  intros [p ls H2 Hp Hl | p ls H2 H1 Hp Hl].
  - rewrite (getEffectiveCPULimit_v2 H2), value_bind.
    now apply getCgroupV2Limit_levels with (cgroupPath := p).
  - rewrite (getEffectiveCPULimit_v1 H2 H1).
    now apply getCgroupV1Limit_levels with (cgroupPath := p).
Qed.

(** [cgroupLimit] after [getEffectiveCPULimit]. *)
Lemma cgroupLimit_effective effective :
  value (getEffectiveCPULimit fuel fs) = Some (effective, None) ->
  value (cgroupLimit fuel fs)
  = Some (if eqb effective zero then (zero, zero, None)
          else (effective, Max two (Ceil effective), None)).
Proof.
  intros H. unfold cgroupLimit. rewrite value_bind, H.
  now destruct (eqb effective zero).
Qed.

End Resolver.

(** ** Termination of the walk *)

(** C9. From every start path that is absolute, or that lies under the
    root of the walk, [walkHierarchy] terminates: there is an amount of
    fuel (for an absolute path, its length) from which the loop reaches
    its [break] and the function returns. The loop makes the calculation
    at the levels of an ascent and nowhere else, in that order: it begins
    at the start path, each further level is the parent directory of the
    one before, and the last level, and only it, equals the mount root or
    the root of the file system. The value returned is the running
    minimum of the samples of these levels (0 when that is positive
    infinity). *)
Theorem walkHierarchy_terminates
    (calcFunc : string -> IO (float64 * option error)) (rootPath startPath : string) :
  filepath.rooted startPath = true \/ under rootPath startPath ->
  exists (N : nat) (ls : list string),
    (filepath.rooted startPath = true -> N = String.length startPath) /\
    ascent rootPath startPath ls /\
    forall fuel, N <= fuel ->
      levels fuel rootPath startPath = Some ls /\
      calls (walkHierarchy fuel startPath calcFunc rootPath)
      = flat_map (fun level => calls (calcFunc level)) ls /\
      value (walkHierarchy fuel startPath calcFunc rootPath)
      = Some (if math.IsInf (runningMin (samples calcFunc ls)) 1 then math.zero
              else runningMin (samples calcFunc ls), None).
Proof.
  intros H.
  assert (HN : exists N ls,
             (filepath.rooted startPath = true -> N = String.length startPath) /\
             levels N rootPath startPath = Some ls).
  { destruct (filepath.rooted startPath) eqn:Hr.
    - destruct (levels_rooted rootPath (String.length startPath) startPath Hr (le_n _))
        as (ls & Hls & _).
      exists (String.length startPath), ls. now split.
    - destruct H as [H|[n Hn]]; [discriminate|].
      destruct (levels_under rootPath n startPath Hn) as (ls & Hls).
      exists (S n), ls. split; [discriminate | exact Hls]. }
  destruct HN as (N & ls & HNr & Hls).
  exists N, ls.
  split; [exact HNr|]. split; [eapply levels_ascent; exact Hls|].
  intros fuel Hf.
  assert (Hl : levels fuel rootPath startPath = Some ls).
  { replace fuel with (N + (fuel - N)) by lia. now apply levels_more. }
  split; [exact Hl|].
  destruct (walkHierarchy_levels calcFunc rootPath fuel startPath ls Hl) as [Hv Hc].
  split; [exact Hc | exact Hv].
Qed.

(** The walk from [/sys/fs/cgroup/kubepods/pod1]: three levels, with one
    read of [cpu.max] at each, the deepest first. *)
Lemma walkHierarchy_terminates_witness :
  filepath.rooted "/sys/fs/cgroup/kubepods/pod1" = true /\
  forall fuel, String.length "/sys/fs/cgroup/kubepods/pod1" <= fuel ->
    calls (walkHierarchy fuel "/sys/fs/cgroup/kubepods/pod1"
             (calculateV2CPUQuota fsNoQuota) cgroupV2Path)
    = [ARead "/sys/fs/cgroup/kubepods/pod1/cpu.max";
       ARead "/sys/fs/cgroup/kubepods/cpu.max";
       ARead "/sys/fs/cgroup/cpu.max"]
    /\ value (walkHierarchy fuel "/sys/fs/cgroup/kubepods/pod1"
                 (calculateV2CPUQuota fsNoQuota) cgroupV2Path)
       = Some (math.zero, None).
Proof.
  split; [reflexivity|].
  destruct (walkHierarchy_terminates (calculateV2CPUQuota fsNoQuota)
              cgroupV2Path "/sys/fs/cgroup/kubepods/pod1" (or_introl eq_refl))
    as (N & ls & HN & _ & H).
  intros fuel Hf. rewrite (HN eq_refl) in H.
  destruct (H _ (le_n _)) as (Hl & _).
  assert (E : ls = ["/sys/fs/cgroup/kubepods/pod1"; "/sys/fs/cgroup/kubepods";
                    "/sys/fs/cgroup"]).
  { vm_compute in Hl. now injection Hl as <-. }
  destruct (H fuel Hf) as (_ & Hc & Hv). rewrite Hc, Hv, E. split; reflexivity.
Defined.

(** The hypothesis is needed: a relative path that is not under the root
    ascends to ["."], whose parent directory is ["."], and never ends. *)
Lemma walk_relative_diverges (fuel : nat) :
  levels fuel "/sys/fs/cgroup" "." = None /\
  levels fuel "/sys/fs/cgroup" "kubepods" = None.
Proof.
  assert (H : forall n, levels n "/sys/fs/cgroup" "." = None).
  { induction n as [|n IH]; [reflexivity|].
    change (levels (S n) "/sys/fs/cgroup" ".")
      with (option_map (cons ".") (levels n "/sys/fs/cgroup" ".")).
    now rewrite IH. }
  split; [apply H|].
  destruct fuel as [|n]; [reflexivity|].
  change (levels (S n) "/sys/fs/cgroup" "kubepods")
    with (option_map (cons "kubepods") (levels n "/sys/fs/cgroup" ".")).
  now rewrite H.
Qed.

(** ** The minimum over the hierarchy *)

(** C1, as stated, fails on a v1 level with quota [-1]: the calculation
    succeeds there with positive infinity, the minimum over the levels at
    which it succeeds is positive infinity, and [walkHierarchy] returns 0. *)
Lemma walkHierarchy_unlimited_counterexample :
  levels 1 cgroupV1CPUPath cgroupV1CPUPath = Some [cgroupV1CPUPath] /\
  samples (calculateV1CPUQuota fsV1Unlimited) [cgroupV1CPUPath] = [math.Inf 1] /\
  value (walkHierarchy 1 cgroupV1CPUPath (calculateV1CPUQuota fsV1Unlimited)
           cgroupV1CPUPath) = Some (math.zero, None) /\
  value (walkHierarchy 1 cgroupV1CPUPath (calculateV1CPUQuota fsV1Unlimited)
           cgroupV1CPUPath)
  <> Some (runningMin (samples (calculateV1CPUQuota fsV1Unlimited) [cgroupV1CPUPath]),
           None).
Proof.
  repeat split; try reflexivity. vm_compute. discriminate.
Qed.

(** C1 (amended). When the walk ends, [walkHierarchy] returns without
    error the running minimum ([math.Min] from positive infinity) of the
    samples of the levels at which the calculation succeeds, except that
    it returns 0 when that minimum is positive infinity (no level
    succeeded, or none with a finite quota). A level whose calculation
    fails contributes no sample. When no sample is NaN (and no sample of
    [calculateV1CPUQuota] or [calculateV2CPUQuota] is, see
    [resolves_not_nan]) the running minimum is the least of the samples. *)
Theorem walkHierarchy_running_minimum
    (calcFunc : string -> IO (float64 * option error))
    (rootPath startPath : string) (fuel : nat) (ls : list string) :
  levels fuel rootPath startPath = Some ls ->
  value (walkHierarchy fuel startPath calcFunc rootPath)
    = Some (if math.IsInf (runningMin (samples calcFunc ls)) 1 then math.zero
            else runningMin (samples calcFunc ls), None)
  /\ (samples calcFunc ls = [] -> runningMin (samples calcFunc ls) = math.Inf 1)
  /\ ((forall x, In x (samples calcFunc ls) -> math.IsNaN x = false) ->
      samples calcFunc ls <> [] ->
      least (runningMin (samples calcFunc ls)) (samples calcFunc ls))
  /\ (forall p rest, snd (value (calcFunc p)) <> None ->
      samples calcFunc (p :: rest) = samples calcFunc rest).
Proof.
  intros Hl.
  split; [exact (proj1 (walkHierarchy_levels calcFunc rootPath fuel startPath ls Hl))|].
  split; [intros ->; reflexivity|].
  split; [intros Hn; exact (proj2 (runningMin_least (samples calcFunc ls) Hn))|].
  intros p rest Hp. simpl.
  destruct (value (calcFunc p)) as [limit [e|]]; [reflexivity | now destruct Hp].
Qed.

(** The synthetic hierarchy of the specification: the root has a quota of
    4, the child has no quota file; the result is 4, not 0 and not an
    error. *)
Lemma walkHierarchy_running_minimum_witness :
  levels 2 cgroupV2Path "/sys/fs/cgroup/child"
    = Some ["/sys/fs/cgroup/child"; "/sys/fs/cgroup"] /\
  samples (calculateV2CPUQuota fsRootQuota4) ["/sys/fs/cgroup/child"; "/sys/fs/cgroup"]
    = [math.of_int 4] /\
  value (walkHierarchy 2 "/sys/fs/cgroup/child" (calculateV2CPUQuota fsRootQuota4)
           cgroupV2Path) = Some (math.of_int 4, None).
Proof.
  split; [reflexivity|]. split; [reflexivity|].
  exact (proj1 (walkHierarchy_running_minimum
           (calculateV2CPUQuota fsRootQuota4) cgroupV2Path "/sys/fs/cgroup/child" 2
           ["/sys/fs/cgroup/child"; "/sys/fs/cgroup"] eq_refl)).
Defined.

(** ** The sentinel *)

(** C3. When neither the marker of cgroup v2 nor the v1 directory of the
    CPU controller is found, or when the resolver walks a hierarchy and no
    calculation succeeds at any level (or the running minimum otherwise
    stays positive infinity), [cgroupLimit] returns [(0, 0, nil)]. *)
Theorem cgroupLimit_sentinel (fuel : nat) (fs : FS) :
  (fsStat fs (filepath.Join2 cgroupV2Path "cgroup.controllers") = false /\
   fsStat fs cgroupV1CPUPath = false)
  \/ (exists l, resolves fuel fs l /\ (l = [] \/ runningMin l = math.Inf 1)) ->
  value (cgroupLimit fuel fs) = Some (math.zero, math.zero, None).
Proof.
  intros [[H2 H1] | (l & Hr & Hl)].
  - now rewrite (cgroupLimit_effective fuel fs _ (getEffectiveCPULimit_none fuel fs H2 H1)).
  - assert (Hm : runningMin l = math.Inf 1) by (destruct Hl as [-> | Hl]; auto).
    pose proof (getEffectiveCPULimit_resolves fuel fs l Hr) as He.
    rewrite Hm in He. now rewrite (cgroupLimit_effective fuel fs _ He).
Qed.

Lemma cgroupLimit_sentinel_witness :
  resolves 3 fsNoQuota [] /\
  value (cgroupLimit 3 fsNoQuota) = Some (math.zero, math.zero, None).
Proof.
  assert (H : resolves 3 fsNoQuota []).
  { exact (resolves_v2 3 fsNoQuota "/a/b"
             ["/sys/fs/cgroup/a/b"; "/sys/fs/cgroup/a"; "/sys/fs/cgroup"]
             eq_refl eq_refl eq_refl). }
  split; [exact H|].
  apply (cgroupLimit_sentinel 3 fsNoQuota).
  right. exists []. split; [exact H | left; reflexivity].
Defined.

(** The two other ways to the sentinel: no cgroup file system at all, and
    an unlimited v1 quota (end-to-end scenario of the specification). *)
Example cgroupLimit_sentinel_examples :
  value (cgroupLimit 0 fsNone) = Some (math.zero, math.zero, None) /\
  value (cgroupLimit 1 fsV1Unlimited) = Some (math.zero, math.zero, None).
Proof. split; reflexivity. Qed.

(** The end-to-end scenario of the specification for v1: one level with
    [cpu.cfs_quota_us] at [-1]; effective 0, and [main] reports "not in
    cgroup". *)
Example v1_unlimited_scenario :
  option_map mainReport (value (cgroupLimit 1 fsV1Unlimited)) = Some ReportNotInCgroup.
Proof. reflexivity. Qed.

(** ** A quota of zero *)

(** C10. When the resolver walks a hierarchy whose minimum sample is 0,
    [cgroupLimit] returns [(0, 0, nil)], which is what it returns when
    there is no cgroup file system; [main] reports both as "not in
    cgroup". *)
Theorem cgroupLimit_zero_quota (fuel : nat) (fs : FS) (l : list float64) :
  resolves fuel fs l ->
  math.eqb (runningMin l) math.zero = true ->
  value (cgroupLimit fuel fs) = Some (math.zero, math.zero, None)
  /\ value (cgroupLimit fuel fs) = value (cgroupLimit fuel fsNone)
  /\ option_map mainReport (value (cgroupLimit fuel fs)) = Some ReportNotInCgroup.
Proof.
  intros Hr Hz.
  pose proof (getEffectiveCPULimit_resolves fuel fs l Hr) as He.
  assert (Hi : math.IsInf (runningMin l) 1 = false).
  { destruct (runningMin l) as [|[]| |]; (discriminate || reflexivity). }
  rewrite Hi in He.
  rewrite (cgroupLimit_effective fuel fs _ He), Hz.
  split; [reflexivity|]. split; reflexivity.
Qed.

Lemma cgroupLimit_zero_quota_witness :
  resolves 1 fsZeroQuota [math.zero] /\
  math.eqb (runningMin [math.zero]) math.zero = true /\
  value (cgroupLimit 1 fsZeroQuota) = Some (math.zero, math.zero, None).
Proof.
  assert (H : resolves 1 fsZeroQuota [math.zero]).
  { exact (resolves_v1 1 fsZeroQuota "/" ["/sys/fs/cgroup/cpu"]
             eq_refl eq_refl eq_refl eq_refl). }
  split; [exact H|]. split; [reflexivity|].
  exact (proj1 (cgroupLimit_zero_quota 1 fsZeroQuota [math.zero] H eq_refl)).
Defined.

(** ** The per-level calculations *)

Section Levels.
Import math.

Variable fs : FS.

Lemma value_ReadFile path :
  value (os.ReadFile fs path)
  = match fsReadFile fs path with
    | Some content => (content, None)
    | None => ("", Some (PathError "open" path))
    end.
Proof. reflexivity. Qed.

Lemma calls_ReadFile path : calls (os.ReadFile fs path) = [ARead path].
Proof. reflexivity. Qed.

(** [readIntFromFile] reads its file once; it returns the integer the
    trimmed content parses to. *)
Lemma readIntFromFile_spec filePath :
  calls (readIntFromFile fs filePath) = [ARead filePath] /\
  value (readIntFromFile fs filePath)
  = match fsReadFile fs filePath with
    | None => (0%Z, Some (PathError "open" filePath))
    | Some content =>
        match strconv.ParseInt (TrimSpace content) with
        | (_, Some e) => (0%Z, Some e)
        | (val, None) => (val, None)
        end
    end.
Proof.
  unfold readIntFromFile. rewrite calls_bind, value_bind, value_ReadFile, calls_ReadFile.
  destruct (fsReadFile fs filePath) as [content|]; [|split; reflexivity].
  destruct (strconv.ParseInt (TrimSpace content)) as [val [e|]]; split; reflexivity.
Qed.

(** The v1 calculation in all its cases. *)
Lemma calculateV1CPUQuota_spec path :
  value (calculateV1CPUQuota fs path)
  = match value (readIntFromFile fs (filepath.Join2 path "cpu.cfs_quota_us")) with
    | (_, Some e) => (zero, Some e)
    | (quota, None) =>
        if (quota =? -1)%Z then (Inf 1, None)
        else
          match value (readIntFromFile fs (filepath.Join2 path "cpu.cfs_period_us")) with
          | (_, Some e) => (zero, Some e)
          | (period, None) =>
              if (period =? 0)%Z then (zero, Some (Errorf "cpu.cfs_period_us is zero"))
              else (div (of_int quota) (of_int period), None)
          end
    end.
Proof.
  unfold calculateV1CPUQuota. rewrite value_bind.
  destruct (value (readIntFromFile fs (filepath.Join2 path "cpu.cfs_quota_us")))
    as [quota [e|]]; [reflexivity|].
  unfold cgroupV1UnlimitedQuota. destruct (quota =? -1)%Z; [reflexivity|].
  rewrite value_bind.
  destruct (value (readIntFromFile fs (filepath.Join2 path "cpu.cfs_period_us")))
    as [period [e|]]; [reflexivity|].
  destruct (period =? 0)%Z; reflexivity.
Qed.

(** The v2 calculation in all its cases. *)
Lemma calculateV2CPUQuota_spec path :
  calls (calculateV2CPUQuota fs path) = [ARead (filepath.Join2 path "cpu.max")] /\
  value (calculateV2CPUQuota fs path)
  = match fsReadFile fs (filepath.Join2 path "cpu.max") with
    | None => (zero, Some (PathError "open" (filepath.Join2 path "cpu.max")))
    | Some content =>
        let parts := Fields content in
        if negb (List.length parts =? 2)%nat then
          (zero, Some (Errorf ("invalid format in cpu.max: " ++ content)))
        else if nth 0 parts "" =? "max" then (Inf 1, None)
        else
          match strconv.ParseInt (nth 0 parts "") with
          | (_, Some e) => (zero, Some e)
          | (quota, None) =>
              match strconv.ParseInt (nth 1 parts "") with
              | (_, Some e) => (zero, Some e)
              | (period, None) =>
                  if (period =? 0)%Z then (zero, Some (Errorf "period in cpu.max is zero"))
                  else (div (of_int quota) (of_int period), None)
              end
          end
    end.
Proof.
  unfold calculateV2CPUQuota. rewrite calls_bind, value_bind, value_ReadFile, calls_ReadFile.
  destruct (fsReadFile fs (filepath.Join2 path "cpu.max")) as [content|];
    [|split; reflexivity].
  cbv zeta.
  destruct (negb (List.length (Fields content) =? 2)%nat); [split; reflexivity|].
  destruct (nth 0 (Fields content) "" =? "max"); [split; reflexivity|].
  destruct (strconv.ParseInt (nth 0 (Fields content) "")) as [quota [e|]];
    [split; reflexivity|].
  destruct (strconv.ParseInt (nth 1 (Fields content) "")) as [period [e|]];
    [split; reflexivity|].
  destruct (period =? 0)%Z; split; reflexivity.
Qed.

End Levels.

(** C4. On a v1 level whose file [cpu.cfs_quota_us] parses to [-1],
    [calculateV1CPUQuota] returns positive infinity without error, whatever
    the file system holds for [cpu.cfs_period_us]: the quota file is the
    only file it reads. *)
Theorem calculateV1CPUQuota_unlimited (fs : FS) (path content : string) :
  fsReadFile fs (filepath.Join2 path "cpu.cfs_quota_us") = Some content ->
  strconv.ParseInt (TrimSpace content) = ((-1)%Z, None) ->
  value (calculateV1CPUQuota fs path) = (math.Inf 1, None)
  /\ calls (calculateV1CPUQuota fs path)
     = [ARead (filepath.Join2 path "cpu.cfs_quota_us")]
  /\ forall fs' : FS,
       fsReadFile fs' (filepath.Join2 path "cpu.cfs_quota_us") = Some content ->
       calculateV1CPUQuota fs' path = calculateV1CPUQuota fs path.
Proof.
  assert (H : forall f : FS,
             fsReadFile f (filepath.Join2 path "cpu.cfs_quota_us") = Some content ->
             strconv.ParseInt (TrimSpace content) = ((-1)%Z, None) ->
             calculateV1CPUQuota f path
             = ((math.Inf 1, None), [ARead (filepath.Join2 path "cpu.cfs_quota_us")])).
  { intros f Hf Hp. unfold calculateV1CPUQuota, readIntFromFile, os.ReadFile, bind.
    rewrite Hf, Hp. reflexivity. }
  intros Hf Hp. rewrite (H fs Hf Hp). split; [reflexivity|]. split; [reflexivity|].
  intros fs' Hf'. now rewrite (H fs' Hf' Hp).
Qed.

Lemma calculateV1CPUQuota_unlimited_witness :
  fsReadFile fsV1Unlimited "/sys/fs/cgroup/cpu/cpu.cfs_period_us" = Some ("garbage" ++ nl) /\
  value (calculateV1CPUQuota fsV1Unlimited cgroupV1CPUPath) = (math.Inf 1, None) /\
  calls (calculateV1CPUQuota fsV1Unlimited cgroupV1CPUPath)
  = [ARead "/sys/fs/cgroup/cpu/cpu.cfs_quota_us"].
Proof.
  split; [reflexivity|].
  destruct (calculateV1CPUQuota_unlimited fsV1Unlimited cgroupV1CPUPath ("-1" ++ nl)
              eq_refl eq_refl) as (Hv & Hc & _).
  split; [exact Hv | exact Hc].
Defined.

(** [walkHierarchy] never returns an error. *)
Lemma walkHierarchy_no_error
    (calcFunc : string -> IO (float64 * option error))
    (fuel : nat) (startPath rootPath : string) (r : float64 * option error) :
  value (walkHierarchy fuel startPath calcFunc rootPath) = Some r -> snd r = None.
Proof.
  unfold walkHierarchy. rewrite value_bind.
  destruct (value (walkLoop fuel calcFunc rootPath startPath (math.Inf 1))) as [m|];
    [|discriminate].
  destruct (math.IsInf m 1); intros H; injection H as <-; reflexivity.
Qed.

(** A level whose calculation fails is passed over: the loop goes on to
    the parent directory with the running minimum it had. *)
Lemma walkLoop_skips
    (calcFunc : string -> IO (float64 * option error))
    (fuel : nat) (rootPath path : string) (m : float64) :
  snd (value (calcFunc path)) <> None ->
  (path =? rootPath) || (path =? "/") = false ->
  value (walkLoop (S fuel) calcFunc rootPath path m)
  = value (walkLoop fuel calcFunc rootPath (filepath.Dir path) m).
Proof.
  intros He Hs. simpl. rewrite value_bind.
  destruct (value (calcFunc path)) as [limit [e|]]; [|now destruct He].
  now rewrite Hs.
Qed.

(** C5. [calculateV2CPUQuota] reads the one file [cpu.max]. With two
    fields of which the first is ["max"] it returns positive infinity;
    with two fields that parse as integers, the period not zero, it
    returns the quotient of quota and period; on malformed content (a
    token count other than two, a token that is no integer, a period of
    zero) it returns an error, the level contributes no sample, and the
    walk goes on to the parent directory; [walkHierarchy] itself returns
    no error. *)
Theorem calculateV2CPUQuota_cases (fs : FS) (path content : string) :
  fsReadFile fs (filepath.Join2 path "cpu.max") = Some content ->
  calls (calculateV2CPUQuota fs path) = [ARead (filepath.Join2 path "cpu.max")]
  /\ (forall p, Fields content = ["max"; p] ->
      value (calculateV2CPUQuota fs path) = (math.Inf 1, None))
  /\ (forall q p quota period,
      Fields content = [q; p] -> q <> "max" ->
      strconv.ParseInt q = (quota, None) ->
      strconv.ParseInt p = (period, None) -> period <> 0%Z ->
      value (calculateV2CPUQuota fs path)
      = (math.div (math.of_int quota) (math.of_int period), None))
  /\ (malformedCpuMax content ->
      snd (value (calculateV2CPUQuota fs path)) <> None
      /\ (forall rest,
          samples (calculateV2CPUQuota fs) (path :: rest)
          = samples (calculateV2CPUQuota fs) rest)
      /\ (forall fuel rootPath m,
          (path =? rootPath) || (path =? "/") = false ->
          value (walkLoop (S fuel) (calculateV2CPUQuota fs) rootPath path m)
          = value (walkLoop fuel (calculateV2CPUQuota fs) rootPath
                     (filepath.Dir path) m)))
  /\ (forall fuel startPath rootPath r,
      value (walkHierarchy fuel startPath (calculateV2CPUQuota fs) rootPath) = Some r ->
      snd r = None).
Proof.
  intros Hf. destruct (calculateV2CPUQuota_spec fs path) as [Hc Hv].
  rewrite Hf in Hv. cbv zeta in Hv.
  split; [exact Hc|]. split; [|split; [|split]].
  - intros p Hp. rewrite Hv, Hp. reflexivity.
  - intros q p quota period Hp Hq Hpq Hpp Hz. rewrite Hv, Hp. simpl.
    destruct (String.eqb_spec q "max") as [->|_]; [now destruct Hq|].
    rewrite Hpq, Hpp. destruct (Z.eqb_spec period 0); [contradiction | reflexivity].
  - intros Hm.
    assert (He : snd (value (calculateV2CPUQuota fs path)) <> None).
    { rewrite Hv. destruct Hm as [Hn | (q & p & Hp & Hq & Hbad)].
      - destruct (Nat.eqb_spec (List.length (Fields content)) 2) as [E|_];
          [contradiction | simpl; discriminate].
      - rewrite Hp. simpl.
        destruct (String.eqb_spec q "max") as [->|_]; [now destruct Hq|].
        destruct (strconv.ParseInt q) as [quota [e|]]; [simpl; discriminate|].
        destruct (strconv.ParseInt p) as [period [e|]]; [simpl; discriminate|].
        destruct Hbad as [H|[H|H]]; try (now destruct H).
        injection H as ->. simpl. discriminate. }
    split; [exact He|]. split.
    + intros rest. simpl.
      destruct (value (calculateV2CPUQuota fs path)) as [limit [e|]];
        [reflexivity | now destruct He].
    + intros fuel rootPath m Hs. now apply walkLoop_skips.
  - intros fuel startPath rootPath r. apply walkHierarchy_no_error.
Qed.

(** A leaf whose [cpu.max] has three tokens under a root with a quota of
    2: the leaf is passed over and the result is 2. *)
Lemma calculateV2CPUQuota_cases_witness :
  fsReadFile fsMalformedLeaf "/sys/fs/cgroup/leaf/cpu.max" = Some ("max 100000 7" ++ nl) /\
  malformedCpuMax ("max 100000 7" ++ nl) /\
  snd (value (calculateV2CPUQuota fsMalformedLeaf "/sys/fs/cgroup/leaf")) <> None /\
  value (walkHierarchy 2 "/sys/fs/cgroup/leaf" (calculateV2CPUQuota fsMalformedLeaf)
           cgroupV2Path) = Some (math.of_int 2, None).
Proof.
  assert (Hm : malformedCpuMax ("max 100000 7" ++ nl)) by (left; vm_compute; lia).
  split; [reflexivity|]. split; [exact Hm|].
  destruct (calculateV2CPUQuota_cases fsMalformedLeaf "/sys/fs/cgroup/leaf"
              ("max 100000 7" ++ nl) eq_refl) as (_ & _ & _ & Hbad & _).
  destruct (Hbad Hm) as (He & _ & Hskip).
  split; [exact He|].
  unfold walkHierarchy. rewrite value_bind.
  rewrite (Hskip 1 cgroupV2Path (math.Inf 1) eq_refl). reflexivity.
Defined.

(** The end-to-end scenario of the specification for v2: the root has
    [cpu.max] "200000 100000", the leaf has "max"; effective 2, adjusted 2. *)
Example v2_max_leaf_scenario :
  value (cgroupLimit 2
           (fsV2 "/leaf" [("/sys/fs/cgroup/leaf/cpu.max", "max 100000" ++ nl);
                          ("/sys/fs/cgroup/cpu.max", "200000 100000" ++ nl)]))
  = Some (math.of_int 2, math.of_int 2, None).
Proof. reflexivity. Qed.

(** ** Version detection *)

Lemma calls_getProcessCgroupPath (fs : FS) (controller : string) :
  calls (getProcessCgroupPath fs controller) = [AOpen "/proc/self/cgroup"].
Proof.
  unfold getProcessCgroupPath, os.Open, bind, calls.
  destruct (fsOpen fs "/proc/self/cgroup") as [[data readErr]|]; [|reflexivity].
  destruct (bufio.ScanLines data readErr) as [lines scanErr].
  destruct (findCgroupLine controller lines); [reflexivity|].
  destruct scanErr; reflexivity.
Qed.

Lemma calls_walkLoop_v2 (fs : FS) (rootPath : string) (fuel : nat) :
  forall cur m,
    Forall v2Call (calls (walkLoop fuel (calculateV2CPUQuota fs) rootPath cur m)).
Proof.
  induction fuel as [|fuel IH]; intros cur m; simpl; [constructor|].
  rewrite calls_bind. apply Forall_app. split.
  - rewrite (proj1 (calculateV2CPUQuota_spec fs cur)).
    constructor; [|constructor]. right. right. now exists cur.
  - destruct (value (calculateV2CPUQuota fs cur)) as [limit err].
    destruct ((cur =? rootPath) || (cur =? "/")); [constructor | apply IH].
Qed.

Lemma calls_getCgroupV2Limit (fuel : nat) (fs : FS) :
  Forall v2Call (calls (getCgroupV2Limit fuel fs)).
Proof.
  unfold getCgroupV2Limit. rewrite calls_bind, calls_getProcessCgroupPath.
  constructor; [right; now left|].
  destruct (value (getProcessCgroupPath fs "")) as [cgroupPath [e|]]; [constructor|].
  unfold walkHierarchy. rewrite calls_bind. apply Forall_app. split.
  - apply calls_walkLoop_v2.
  - destruct (value (walkLoop _ _ _ _ _)) as [m|]; [|constructor].
    destruct (math.IsInf m 1); constructor.
Qed.

(** C6. When the marker file of cgroup v2 and the v1 directory of the CPU
    controller both exist, [getEffectiveCPULimit] takes the v2 way: it
    returns what [getCgroupV2Limit] returns, and after the probe of the
    marker its calls are those of [getCgroupV2Limit]; the v1 directory is
    not probed and no file other than files [cpu.max] is read. *)
Theorem getEffectiveCPULimit_prefers_v2 (fuel : nat) (fs : FS) :
  fsStat fs (filepath.Join2 cgroupV2Path "cgroup.controllers") = true ->
  fsStat fs cgroupV1CPUPath = true ->
  value (getEffectiveCPULimit fuel fs) = value (getCgroupV2Limit fuel fs)
  /\ calls (getEffectiveCPULimit fuel fs)
     = AStat (filepath.Join2 cgroupV2Path "cgroup.controllers")
       :: calls (getCgroupV2Limit fuel fs)
  /\ Forall v2Call (calls (getEffectiveCPULimit fuel fs))
  /\ ~ In (AStat cgroupV1CPUPath) (calls (getEffectiveCPULimit fuel fs)).
Proof.
  intros H2 _. rewrite (getEffectiveCPULimit_v2 fuel fs H2).
  rewrite value_bind, calls_bind.
  change (calls (os.Stat fs (filepath.Join2 cgroupV2Path "cgroup.controllers")))
    with [AStat (filepath.Join2 cgroupV2Path "cgroup.controllers")].
  assert (HF : Forall v2Call
                 ([AStat (filepath.Join2 cgroupV2Path "cgroup.controllers")]
                  ++ calls (getCgroupV2Limit fuel fs))%list).
  { constructor; [now left | apply calls_getCgroupV2Limit]. }
  split; [reflexivity|]. split; [reflexivity|]. split; [exact HF|].
  intros Hin. rewrite Forall_forall in HF.
  destruct (HF _ Hin) as [H|[H|(level & H)]]; discriminate.
Qed.

(** With both present and different quotas on the two sides, the result
    is the one of the v2 hierarchy (2 CPUs), not of v1 (half a CPU). *)
Lemma getEffectiveCPULimit_prefers_v2_witness :
  fsStat fsBoth (filepath.Join2 cgroupV2Path "cgroup.controllers") = true /\
  fsStat fsBoth cgroupV1CPUPath = true /\
  value (getCgroupV1Limit 1 fsBoth)
  = Some (math.div (math.of_int 1) (math.of_int 2), None) /\
  value (getEffectiveCPULimit 1 fsBoth) = Some (math.of_int 2, None).
Proof.
  split; [reflexivity|]. split; [reflexivity|]. split; [reflexivity|].
  rewrite (proj1 (getEffectiveCPULimit_prefers_v2 1 fsBoth eq_refl eq_refl)).
  reflexivity.
Defined.

(** ** The membership file *)

Section Membership.
Import Bytes.

Lemma HasPrefix_refl_hd sep s hd tl :
  splitByte sep s = hd :: tl -> HasPrefix s hd = true.
Proof.
  revert hd tl. induction s as [|a s IH]; intros hd tl; simpl.
  - intros H. injection H as <- _. reflexivity.
  - destruct (Ascii.eqb a sep).
    + intros H. injection H as <- _. reflexivity.
    + destruct (splitByte sep s) as [|x xs] eqn:E.
      * now destruct (BytesFacts.splitByte_nonnil sep s).
      * intros H. injection H as <- _. simpl.
        rewrite Ascii.eqb_refl. simpl. now apply (IH x xs).
Qed.

Lemma Contains_tail a s c : Contains s c = true -> Contains (String a s) c = true.
Proof. intros H. simpl. rewrite H. apply orb_true_r. Qed.

Lemma Contains_prefix s c : HasPrefix s c = true -> Contains s c = true.
Proof. intros H. destruct s; simpl in *; rewrite H; reflexivity. Qed.

(** An element of a split is a part of the string. *)
Lemma In_splitByte_Contains sep s c :
  In c (splitByte sep s) -> Contains s c = true.
Proof.
  induction s as [|a s IH].
  - simpl. intros [<-|[]]. reflexivity.
  - intros H.
    destruct (splitByte sep (String a s)) as [|hd tl] eqn:E; [destruct H|].
    pose proof (HasPrefix_refl_hd sep (String a s) hd tl E) as Hhd.
    destruct H as [<-|H]; [now apply Contains_prefix|].
    apply Contains_tail, IH.
    simpl in E. destruct (Ascii.eqb a sep).
    + injection E as _ <-. exact H.
    + destruct (splitByte sep s) as [|x xs]; injection E as _ <-;
        [destruct H | now right].
Qed.

Lemma listsController_Contains controller field :
  listsController controller field = true -> Contains field controller = true.
Proof.
  unfold listsController. rewrite existsb_exists.
  intros (x & Hin & Hx). apply String.eqb_eq in Hx. subst x.
  now apply (In_splitByte_Contains ","%char).
Qed.

(** The loop passes over the lines before the first line of the
    controller, when none of them has three fields and the text of the
    controller in the second. *)
Lemma findCgroupLine_skips controller line post : forall pre,
  (forall l, In l pre -> claimSelects controller l = false) ->
  (forall l, In l pre ->
     List.length (splitByte ":" l) = 3 -> controller <> "" ->
     Contains (nth 1 (splitByte ":" l) "") controller = false) ->
  findCgroupLine controller (pre ++ line :: post)
  = findCgroupLine controller (line :: post).
Proof.
  induction pre as [|l pre IH]; intros Hc Ht; [reflexivity|].
  rewrite <- IH;
    [|intros l' Hl'; apply Hc; now right | intros l' Hl'; apply Ht; now right].
  cbn [app findCgroupLine].
  destruct (Nat.eqb_spec (List.length (splitByte ":" l)) 3) as [E3|N3];
    [|reflexivity].
  cbn [negb].
  specialize (Hc l (or_introl eq_refl)). specialize (Ht l (or_introl eq_refl) E3).
  unfold claimSelects in Hc. rewrite E3 in Hc. cbn [Nat.leb andb] in Hc.
  destruct (String.eqb_spec controller "") as [->|Hn]; cbn [negb andb orb].
  - now rewrite Hc.
  - now rewrite (Ht Hn).
Qed.

End Membership.

(** C7. A defect of the program: the line of the unified hierarchy
    ["0::/a:b"] has the format ["0::path"] that the comment of the
    function gives, with an empty controller-list field and the path
    ["/a:b"], and the claim selects it; but [strings.Split] cuts the path
    at its colon too, the line has four fields, the test [len(parts) != 3]
    passes over it, and the function returns the lookup error. *)
Lemma getProcessCgroupPath_colon_counterexample :
  fsOpen fsColonPath "/proc/self/cgroup" = Some ("0::/a:b" ++ nl, None) /\
  bufio.ScanLines ("0::/a:b" ++ nl) None = (["0::/a:b"], None) /\
  splitByte ":" "0::/a:b" = ["0"; ""; "/a"; "b"] /\
  claimSelects "" "0::/a:b" = true /\
  claimPath "0::/a:b" = "/a:b" /\
  value (getProcessCgroupPath fsColonPath "") = ("", Some (notFound "")) /\
  ~ (exists path, value (getProcessCgroupPath fsColonPath "") = (path, None)).
Proof.
  repeat split; try reflexivity.
  intros (path & H). vm_compute in H. discriminate.
Qed.

(** A second defect, in v1 mode: the program looks for the text ["cpu"]
    in the controller list, so a line of [cpuset] before the line of
    [cpu,cpuacct] is taken. *)
Example getProcessCgroupPath_cpuset_first :
  value (getProcessCgroupPath fsCpusetFirst "cpu") = ("/a", None) /\
  find (selects "cpu") (fst (bufio.ScanLines ("3:cpuset:/a" ++ nl ++ "2:cpu,cpuacct:/b" ++ nl) None))
  = Some "2:cpu,cpuacct:/b".
Proof. split; reflexivity. Qed.

(** X13. Where the two defects do not come into play the lookup does
    what the format says. When the first line of the controller (second
    field empty for v2, listing the controller for v1) has a path without
    colon, and no line before it has three fields with the text of the
    controller inside another name, [getProcessCgroupPath] returns the
    path of that line, whatever follows it. When the file has no line of
    the controller and no three-field line with the text of the
    controller, it returns an error: the error of the scanner if the scan
    stopped early, else the lookup error. *)
Theorem getProcessCgroupPath_agrees
    (fs : FS) (controller data : string) (readErr : option error) :
  fsOpen fs "/proc/self/cgroup" = Some (data, readErr) ->
  (forall pre line post,
     fst (bufio.ScanLines data readErr) = (pre ++ line :: post)%list ->
     (forall l, In l pre -> claimSelects controller l = false) ->
     (forall l, In l pre ->
        List.length (splitByte ":" l) = 3 -> controller <> "" ->
        Contains (nth 1 (splitByte ":" l) "") controller = false) ->
     claimSelects controller line = true ->
     List.length (splitByte ":" line) = 3 ->
     value (getProcessCgroupPath fs controller) = (claimPath line, None))
  /\ ((forall l, In l (fst (bufio.ScanLines data readErr)) ->
        claimSelects controller l = false) ->
      (forall l, In l (fst (bufio.ScanLines data readErr)) ->
        List.length (splitByte ":" l) = 3 -> controller <> "" ->
        Contains (nth 1 (splitByte ":" l) "") controller = false) ->
      value (getProcessCgroupPath fs controller)
      = ("", Some match snd (bufio.ScanLines data readErr) with
                  | Some e => e
                  | None => notFound controller
                  end)).
Proof.
  intros Ho.
  assert (E : value (getProcessCgroupPath fs controller)
              = match findCgroupLine controller (fst (bufio.ScanLines data readErr)) with
                | Some path => (path, None)
                | None => match snd (bufio.ScanLines data readErr) with
                          | Some e => ("", Some e)
                          | None => ("", Some (notFound controller))
                          end
                end).
  { unfold getProcessCgroupPath, os.Open, bind, value. rewrite Ho. cbn [fst].
    destruct (bufio.ScanLines data readErr) as [lines scanErr]. cbn [fst snd].
    destruct (findCgroupLine controller lines); [reflexivity|].
    destruct scanErr; reflexivity. }
  rewrite E. clear E. split.
  - intros pre line post -> Hc Ht Hs H3.
    rewrite (findCgroupLine_skips controller line post pre Hc Ht).
    cbn [findCgroupLine]. rewrite H3. cbn [Nat.eqb negb].
    unfold claimSelects in Hs. rewrite H3 in Hs. cbn [Nat.leb andb] in Hs.
    assert (P : claimPath line = nth 2 (splitByte ":" line) "").
    { unfold claimPath.
      destruct (splitByte ":" line) as [|a [|b [|c [|d r]]]]; try discriminate H3.
      reflexivity. }
    rewrite P.
    destruct (String.eqb_spec controller "") as [->|Hn]; cbn [negb andb orb].
    + now rewrite Hs.
    + now rewrite (listsController_Contains _ _ Hs).
  - intros Hc Ht.
    assert (F : findCgroupLine controller (fst (bufio.ScanLines data readErr)) = None).
    { induction (fst (bufio.ScanLines data readErr)) as [|l ls IH]; [reflexivity|].
      cbn [findCgroupLine].
      rewrite IH;
        [|intros l' Hl'; apply Hc; now right | intros l' Hl'; apply Ht; now right].
      destruct (Nat.eqb_spec (List.length (splitByte ":" l)) 3) as [E3|N3];
        [|reflexivity].
      cbn [negb].
      specialize (Hc l (or_introl eq_refl)). specialize (Ht l (or_introl eq_refl) E3).
      unfold claimSelects in Hc. rewrite E3 in Hc. cbn [Nat.leb andb] in Hc.
      destruct (String.eqb_spec controller "") as [->|Hn]; cbn [negb andb orb].
      - now rewrite Hc.
      - now rewrite (Ht Hn). }
    rewrite F. destruct (snd (bufio.ScanLines data readErr)); reflexivity.
Qed.

(** A usual v1 file: the line of [cpu,cpuacct], then the lines of
    [cpuset] and of the unified hierarchy. *)
Lemma getProcessCgroupPath_agrees_witness :
  fsOpen fsV1Usual "/proc/self/cgroup"
  = Some ("11:cpu,cpuacct:/user.slice" ++ nl ++ "4:cpuset:/" ++ nl ++ "0::/x" ++ nl,
          None) /\
  value (getProcessCgroupPath fsV1Usual "cpu") = ("/user.slice", None) /\
  value (getProcessCgroupPath fsV1Usual "memory") = ("", Some (notFound "memory")).
Proof.
  split; [reflexivity|].
  pose proof (getProcessCgroupPath_agrees fsV1Usual "cpu" _ None eq_refl) as [H _].
  pose proof (getProcessCgroupPath_agrees fsV1Usual "memory" _ None eq_refl) as [_ H'].
  split.
  - refine (eq_trans (H [] "11:cpu,cpuacct:/user.slice" ["4:cpuset:/"; "0::/x"]
                        eq_refl _ _ eq_refl eq_refl) eq_refl);
      intros l [].
  - refine (eq_trans (H' _ _) eq_refl).
    + intros l [<-|[<-|[<-|[]]]]; reflexivity.
    + intros l [<-|[<-|[<-|[]]]] _ _; reflexivity.
Defined.

(** ** The effective limit is a finite [float64] *)

Section Valid.
Import math floatFacts strconvFacts.

Variable fs : FS.

Lemma readIntFromFile_int64 filePath z :
  value (readIntFromFile fs filePath) = (z, None) -> (- 2 ^ 63 <= z < 2 ^ 63)%Z.
Proof.
  rewrite (proj2 (readIntFromFile_spec fs filePath)).
  destruct (fsReadFile fs filePath) as [content|]; [|discriminate].
  destruct (strconv.ParseInt (TrimSpace content)) as [val [e|]] eqn:E; [discriminate|].
  intros H. injection H as <-. exact (ParseInt_range _ _ E).
Qed.

Lemma calculateV1CPUQuota_valid path x :
  value (calculateV1CPUQuota fs path) = (x, None) -> valid_binary prec emax x = true.
Proof.
  rewrite calculateV1CPUQuota_spec.
  destruct (value (readIntFromFile fs (filepath.Join2 path "cpu.cfs_quota_us")))
    as [quota [e|]] eqn:Eq; [discriminate|].
  destruct (quota =? -1)%Z; [intros H; injection H as <-; reflexivity|].
  destruct (value (readIntFromFile fs (filepath.Join2 path "cpu.cfs_period_us")))
    as [period [e|]] eqn:Ep; [discriminate|].
  destruct (Z.eqb_spec period 0); [discriminate|].
  intros H. injection H as <-.
  apply readIntFromFile_int64 in Eq. apply readIntFromFile_int64 in Ep.
  apply div_of_int_valid; lia.
Qed.

Lemma calculateV2CPUQuota_valid path x :
  value (calculateV2CPUQuota fs path) = (x, None) -> valid_binary prec emax x = true.
Proof.
  rewrite (proj2 (calculateV2CPUQuota_spec fs path)).
  destruct (fsReadFile fs (filepath.Join2 path "cpu.max")) as [content|]; [|discriminate].
  cbv zeta.
  destruct (negb (List.length (Fields content) =? 2)%nat); [discriminate|].
  destruct (nth 0 (Fields content) "" =? "max");
    [intros H; injection H as <-; reflexivity|].
  destruct (strconv.ParseInt (nth 0 (Fields content) "")) as [quota [e|]] eqn:Eq;
    [discriminate|].
  destruct (strconv.ParseInt (nth 1 (Fields content) "")) as [period [e|]] eqn:Ep;
    [discriminate|].
  destruct (Z.eqb_spec period 0); [discriminate|].
  intros H. injection H as <-.
  apply ParseInt_range in Eq. apply ParseInt_range in Ep.
  apply div_of_int_valid; lia.
Qed.

Lemma runningMin_valid (calcFunc : string -> IO (float64 * option error)) :
  (forall path x, value (calcFunc path) = (x, None) -> valid_binary prec emax x = true) ->
  forall ls, valid_binary prec emax (runningMin (samples calcFunc ls)) = true.
Proof.
  intros Hc ls. unfold runningMin.
  assert (H : forall init, valid_binary prec emax init = true ->
            valid_binary prec emax (fold_left Min (samples calcFunc ls) init) = true).
  { induction ls as [|p rest IH]; intros init Hi; simpl; [exact Hi|].
    destruct (value (calcFunc p)) as [limit [e|]] eqn:E; [now apply IH|].
    simpl. apply IH. apply Min_valid; [exact Hi | exact (Hc p limit E)]. }
  now apply H.
Qed.

(** What [walkHierarchy] returns when it returns. *)
Lemma walkHierarchy_inv (calcFunc : string -> IO (float64 * option error))
    (fuel : nat) (startPath rootPath : string) (r : float64 * option error) :
  value (walkHierarchy fuel startPath calcFunc rootPath) = Some r ->
  exists ls, levels fuel rootPath startPath = Some ls /\
    r = (if IsInf (runningMin (samples calcFunc ls)) 1 then zero
         else runningMin (samples calcFunc ls), None).
Proof.
  intros H. destruct (levels fuel rootPath startPath) as [ls|] eqn:E.
  - exists ls. split; [reflexivity|].
    rewrite (proj1 (walkHierarchy_levels calcFunc rootPath fuel startPath ls E)) in H.
    now injection H as <-.
  - unfold walkHierarchy in H. rewrite value_bind in H.
    now rewrite (walkLoop_out_of_fuel calcFunc rootPath fuel startPath (Inf 1) E) in H.
Qed.

Lemma walkHierarchy_valid (calcFunc : string -> IO (float64 * option error))
    (fuel : nat) (startPath rootPath : string) (x : float64) (err : option error) :
  (forall path y, value (calcFunc path) = (y, None) -> valid_binary prec emax y = true) ->
  value (walkHierarchy fuel startPath calcFunc rootPath) = Some (x, err) ->
  valid_binary prec emax x = true /\ IsInf x 1 = false.
Proof.
  intros Hc H. destruct (walkHierarchy_inv _ _ _ _ _ H) as (ls & _ & Hr).
  injection Hr as -> _.
  destruct (IsInf (runningMin (samples calcFunc ls)) 1) eqn:Ei.
  - split; reflexivity.
  - split; [now apply runningMin_valid | exact Ei].
Qed.

(** The effective limit is a [float64] and never positive infinity. *)
Lemma getEffectiveCPULimit_valid (fuel : nat) (x : float64) :
  value (getEffectiveCPULimit fuel fs) = Some (x, None) ->
  valid_binary prec emax x = true /\ IsInf x 1 = false.
Proof.
  unfold getEffectiveCPULimit. rewrite value_bind, value_Stat.
  destruct (fsStat fs (filepath.Join2 cgroupV2Path "cgroup.controllers")).
  - unfold getCgroupV2Limit. rewrite value_bind.
    destruct (value (getProcessCgroupPath fs "")) as [p [e|]]; [discriminate|].
    cbv beta iota zeta. apply walkHierarchy_valid. apply calculateV2CPUQuota_valid.
  - rewrite value_bind, value_Stat.
    destruct (fsStat fs cgroupV1CPUPath).
    + unfold getCgroupV1Limit. rewrite value_bind.
      destruct (value (getProcessCgroupPath fs "cpu")) as [p [e|]]; [discriminate|].
      cbv beta iota zeta. apply walkHierarchy_valid. apply calculateV1CPUQuota_valid.
    + intros H. injection H as <-. split; reflexivity.
Qed.

End Valid.

(** ** The adjusted limit *)

Lemma ltb_zero_not_eqb (x : float64) :
  math.ltb math.zero x = true -> math.eqb x math.zero = false.
Proof. destruct x as [[]|[]| |[]]; cbn; congruence. Qed.

(** C2. For every effective limit greater than 0 that
    [getEffectiveCPULimit] returns, [cgroupLimit] returns it with the
    adjusted limit [math.Max(2, math.Ceil(effective))], and that
    [float64] stands for the integer [max 2 (ceiling effective)]; the
    effective limits 0.5, 1.0, 2.3 and 5.0 give 2, 2, 3 and 5. *)
Theorem cgroupLimit_adjusted (fuel : nat) (fs : FS) (effective : float64) :
  value (getEffectiveCPULimit fuel fs) = Some (effective, None) ->
  math.ltb math.zero effective = true ->
  value (cgroupLimit fuel fs)
  = Some (effective, math.Max math.two (math.Ceil effective), None)
  /\ Qeq (math.toQ (math.Max math.two (math.Ceil effective)))
         (inject_Z (Z.max 2 (Qceiling (math.toQ effective))))
  /\ (let adjusted x := math.Max math.two (math.Ceil x) in
      adjusted (math.div (math.of_int 1) (math.of_int 2)) = math.of_int 2
      /\ adjusted (math.of_int 1) = math.of_int 2
      /\ adjusted (math.div (math.of_int 23) (math.of_int 10)) = math.of_int 3
      /\ adjusted (math.of_int 5) = math.of_int 5).
Proof.
  intros He Hpos. split; [|split].
  - rewrite (cgroupLimit_effective fuel fs effective He).
    now rewrite (ltb_zero_not_eqb effective Hpos).
  - destruct (getEffectiveCPULimit_valid fs fuel effective He) as [Hv Hi].
    now apply floatFacts.Max_two_Ceil_value.
  - repeat split; reflexivity.
Qed.

(** The four values of the specification: effective 0.5, 1.0, 2.3 and 5.0
    give adjusted 2, 2, 3 and 5. *)
Example cgroupLimit_adjusted_examples :
  value (cgroupLimit 1 (fsCpuMax "50000 100000"))
  = Some (math.div (math.of_int 1) (math.of_int 2), math.of_int 2, None) /\
  value (cgroupLimit 1 (fsCpuMax "100000 100000"))
  = Some (math.of_int 1, math.of_int 2, None) /\
  value (cgroupLimit 1 (fsCpuMax "230000 100000"))
  = Some (math.div (math.of_int 23) (math.of_int 10), math.of_int 3, None) /\
  value (cgroupLimit 1 (fsCpuMax "500000 100000"))
  = Some (math.of_int 5, math.of_int 5, None).
Proof. repeat split; reflexivity. Qed.

Lemma cgroupLimit_adjusted_witness :
  value (getEffectiveCPULimit 1 (fsCpuMax "230000 100000"))
  = Some (math.div (math.of_int 23) (math.of_int 10), None) /\
  math.ltb math.zero (math.div (math.of_int 23) (math.of_int 10)) = true /\
  value (cgroupLimit 1 (fsCpuMax "230000 100000"))
  = Some (math.div (math.of_int 23) (math.of_int 10), math.of_int 3, None).
Proof.
  split; [reflexivity|]. split; [reflexivity|].
  exact (proj1 (cgroupLimit_adjusted 1 (fsCpuMax "230000 100000")
                  (math.div (math.of_int 23) (math.of_int 10)) eq_refl eq_refl)).
Defined.

(** ** The sample of a level *)

Section Samples.
Import math floatFacts strconvFacts.

Variable fs : FS.

(** No sample of the program is NaN. *)
Lemma calculateV1CPUQuota_not_nan path x :
  value (calculateV1CPUQuota fs path) = (x, None) -> IsNaN x = false.
Proof.
  rewrite calculateV1CPUQuota_spec.
  destruct (value (readIntFromFile fs (filepath.Join2 path "cpu.cfs_quota_us")))
    as [quota [e|]] eqn:Eq; [discriminate|].
  destruct (quota =? -1)%Z; [intros H; injection H as <-; reflexivity|].
  destruct (value (readIntFromFile fs (filepath.Join2 path "cpu.cfs_period_us")))
    as [period [e|]] eqn:Ep; [discriminate|].
  destruct (Z.eqb_spec period 0); [discriminate|].
  intros H. injection H as <-.
  apply (readIntFromFile_int64 fs) in Eq. apply (readIntFromFile_int64 fs) in Ep.
  apply div_of_int_not_nan; lia.
Qed.

Lemma calculateV2CPUQuota_not_nan path x :
  value (calculateV2CPUQuota fs path) = (x, None) -> IsNaN x = false.
Proof.
  rewrite (proj2 (calculateV2CPUQuota_spec fs path)).
  destruct (fsReadFile fs (filepath.Join2 path "cpu.max")) as [content|]; [|discriminate].
  cbv zeta.
  destruct (negb (List.length (Fields content) =? 2)%nat); [discriminate|].
  destruct (nth 0 (Fields content) "" =? "max");
    [intros H; injection H as <-; reflexivity|].
  destruct (strconv.ParseInt (nth 0 (Fields content) "")) as [quota [e|]] eqn:Eq;
    [discriminate|].
  destruct (strconv.ParseInt (nth 1 (Fields content) "")) as [period [e|]] eqn:Ep;
    [discriminate|].
  destruct (Z.eqb_spec period 0); [discriminate|].
  intros H. injection H as <-.
  apply ParseInt_range in Eq. apply ParseInt_range in Ep.
  apply div_of_int_not_nan; lia.
Qed.

Lemma samples_not_nan (calcFunc : string -> IO (float64 * option error)) :
  (forall path x, value (calcFunc path) = (x, None) -> IsNaN x = false) ->
  forall ls x, In x (samples calcFunc ls) -> IsNaN x = false.
Proof.
  intros Hc ls. induction ls as [|p rest IH]; intros x; simpl; [tauto|].
  destruct (value (calcFunc p)) as [limit [e|]] eqn:E; [apply IH|].
  intros [<-|Hx]; [exact (Hc p limit E) | now apply IH].
Qed.

End Samples.

(** The samples of a hierarchy the resolver walks are numbers, and their
    running minimum is the least of them. *)
Lemma resolves_not_nan (fuel : nat) (fs : FS) (l : list float64) :
  resolves fuel fs l -> forall x, In x l -> math.IsNaN x = false.
Proof.
  intros [p ls _ _ _ | p ls _ _ _ _].
  - apply samples_not_nan, calculateV2CPUQuota_not_nan.
  - apply samples_not_nan, calculateV1CPUQuota_not_nan.
Qed.

Lemma resolves_least (fuel : nat) (fs : FS) (l : list float64) :
  resolves fuel fs l -> l <> [] -> least (runningMin l) l.
Proof.
  intros Hr. apply runningMin_least. exact (resolves_not_nan fuel fs l Hr).
Qed.

(** ** The rounding of the quotient *)

Module roundFacts.
Import math floatFacts.
Local Open Scope Z_scope.

Lemma loc_of_record_of_loc m l : loc_of_shr_record (shr_record_of_loc m l) = l.
Proof. destruct l as [|[]]; reflexivity. Qed.

(** The second stage of [binary_round_aux] on a mantissa of 53 bits that
    was rounded up or not: when the rounding reached [2^53] the mantissa
    is halved and the exponent grows by one. *)
Lemma round_stage s H E M1 :
  2 ^ 52 <= H < 2 ^ 53 -> -1074 <= E <= 970 -> H <= M1 <= H + 1 ->
  exists M E',
    (let '(mrs, e) := shr_fexp prec emax M1 E loc_Exact in
     match shr_m mrs with
     | Z0 => S754_zero s
     | Zpos m => if e <=? emax - prec then S754_finite s m e else S754_infinity s
     | Zneg _ => S754_nan
     end) = S754_finite s M E'
    /\ Zpos (digits2_pos M) = 53 /\ E <= E' <= E + 1
    /\ Zpos M * 2 ^ (E' - E) = M1.
Proof.
  intros HH HE HM.
  change (2 ^ 52) with 4503599627370496 in *.
  change (2 ^ 53) with 9007199254740992 in *.
  destruct (Z.eq_dec M1 9007199254740992) as [->|Hne].
  - unfold shr_fexp. cbn [Zdigits2 digits2_pos Pos.succ].
    replace (fexp prec emax (54 + E) - E) with 1 by fexp_lia.
    cbn [shr iter_pos shr_record_of_loc shr_1 shr_m].
    destruct (Z.leb_spec (E + 1) (emax - prec)) as [L|L];
      [|unfold emax, prec in L; lia].
    exists 4503599627370496%positive, (E + 1).
    split; [reflexivity|]. split; [reflexivity|]. split; [lia|].
    replace (E + 1 - E) with 1 by lia. reflexivity.
  - destruct M1 as [|p|p]; try lia.
    assert (D : Zpos (digits2_pos p) = 53).
    { apply digits2_pos_eq; [|lia].
      change (2 ^ (53 - 1)) with 4503599627370496.
      change (2 ^ 53) with 9007199254740992. lia. }
    unfold shr_fexp. cbn [Zdigits2]. rewrite D.
    replace (fexp prec emax (53 + E) - E) with 0 by fexp_lia.
    cbn [shr shr_record_of_loc shr_m].
    destruct (Z.leb_spec E (emax - prec)) as [L|L];
      [|unfold emax, prec in L; lia].
    exists p, E. split; [reflexivity|]. split; [exact D|]. split; [lia|].
    rewrite Z.sub_diag. cbn. lia.
Qed.

(** [binary_round_aux] on a mantissa of 53 bits: no shift, one rounding. *)
Lemma binary_round_aux_53 s Qq e l :
  2 ^ 52 <= Qq < 2 ^ 53 -> -1074 <= e <= 970 ->
  exists M E, binary_round_aux prec emax s Qq e l = S754_finite s M E
    /\ Zpos (digits2_pos M) = 53 /\ e <= E <= e + 1
    /\ Zpos M * 2 ^ (E - e) = round_nearest_even Qq l.
Proof.
  intros HQ He.
  pose proof (round_nearest_even_bounds Qq l) as Hr.
  destruct (round_stage s Qq e (round_nearest_even Qq l) HQ He Hr)
    as (M & E & HS & HD & HE & HV).
  exists M, E. split; [|split; [exact HD | split; [lia | exact HV]]].
  rewrite <- HS. unfold binary_round_aux.
  assert (S1 : shr_fexp prec emax Qq e l = (shr_record_of_loc Qq l, e)).
  { change (2 ^ 52) with 4503599627370496 in *.
    change (2 ^ 53) with 9007199254740992 in *.
    destruct Qq as [|q|q]; try lia.
    assert (D : Zpos (digits2_pos q) = 53).
    { apply digits2_pos_eq; [|lia].
      change (2 ^ (53 - 1)) with 4503599627370496.
      change (2 ^ 53) with 9007199254740992. lia. }
    unfold shr_fexp. cbn [Zdigits2]. rewrite D.
    replace (fexp prec emax (53 + e) - e) with 0 by fexp_lia. reflexivity. }
  rewrite S1. rewrite shr_m_record_of_loc, loc_of_record_of_loc. reflexivity.
Qed.

(** [binary_round_aux] on a mantissa of 54 bits: one shift, which moves
    the last bit into the location, then one rounding. *)
Lemma binary_round_aux_54 s Qq e l :
  2 ^ 53 <= Qq < 2 ^ 54 -> -1075 <= e <= 969 ->
  exists M E, binary_round_aux prec emax s Qq e l = S754_finite s M E
    /\ Zpos (digits2_pos M) = 53 /\ e + 1 <= E <= e + 2
    /\ Zpos M * 2 ^ (E - (e + 1))
       = round_nearest_even (Qq / 2)
           (loc_of_shr_record (shr_1 (shr_record_of_loc Qq l))).
Proof.
  intros HQ He.
  assert (HH : 2 ^ 52 <= Qq / 2 < 2 ^ 53).
  { change (2 ^ 52) with 4503599627370496 in *.
    change (2 ^ 53) with 9007199254740992 in *.
    change (2 ^ 54) with 18014398509481984 in *.
    split; [apply Z.div_le_lower_bound | apply Z.div_lt_upper_bound]; lia. }
  pose proof (round_nearest_even_bounds (Qq / 2)
                (loc_of_shr_record (shr_1 (shr_record_of_loc Qq l)))) as Hr.
  assert (He1 : -1074 <= e + 1 <= 970) by lia.
  destruct (round_stage s (Qq / 2) (e + 1) _ HH He1 Hr)
    as (M & E & HS & HD & HE & HV).
  exists M, E. split; [|split; [exact HD | split; [lia | exact HV]]].
  rewrite <- HS. unfold binary_round_aux.
  assert (S1 : shr_fexp prec emax Qq e l = (shr_1 (shr_record_of_loc Qq l), e + 1)).
  { change (2 ^ 53) with 9007199254740992 in *.
    change (2 ^ 54) with 18014398509481984 in *.
    destruct Qq as [|q|q]; try lia.
    assert (D : Zpos (digits2_pos q) = 54).
    { apply digits2_pos_eq; [|lia].
      change (2 ^ (54 - 1)) with 9007199254740992.
      change (2 ^ 54) with 18014398509481984. lia. }
    unfold shr_fexp. cbn [Zdigits2]. rewrite D.
    replace (fexp prec emax (54 + e) - e) with 1 by fexp_lia. reflexivity. }
  rewrite S1. rewrite shr_m_shr_1 by (rewrite shr_m_record_of_loc; lia).
  rewrite shr_m_record_of_loc. reflexivity.
Qed.

(** The location of [R / D] in the unit interval. *)
Lemma new_location_spec D R :
  0 < D -> 0 <= R < D ->
  new_location D R = if R =? 0 then loc_Exact else loc_Inexact (2 * R ?= D).
Proof.
  intros HD HR. unfold new_location.
  destruct (Z.even D) eqn:Ev.
  - reflexivity.
  - unfold new_location_odd. destruct (R =? 0); [reflexivity|]. f_equal.
    rewrite <- Z.negb_odd in Ev. apply negb_false_iff in Ev.
    apply Z.odd_spec in Ev. destruct Ev as (k & ->).
    destruct (Z.compare_spec (2 * R + 1) (2 * k + 1)),
             (Z.compare_spec (2 * R) (2 * k + 1)); (reflexivity || lia).
Qed.

(** The rounding of [H + R / D]: down only at or below the middle, up
    only at or above it. *)
Lemma round_decision_53 H D R :
  0 < D -> 0 <= R < D ->
  (round_nearest_even H (new_location D R) = H /\ 2 * R <= D)
  \/ (round_nearest_even H (new_location D R) = H + 1 /\ D <= 2 * R).
Proof.
  intros HD HR. rewrite new_location_spec by assumption.
  destruct (Z.eqb_spec R 0) as [->|Hn]; [left; cbn; split; [reflexivity | lia]|].
  destruct (Z.compare_spec (2 * R) D); cbn [round_nearest_even].
  - destruct (Z.even H); [left | right]; split; (reflexivity || lia).
  - left. split; [reflexivity | lia].
  - right. split; [reflexivity | lia].
Qed.

(** The same after the shift of a mantissa [Qq] of 54 bits: the value is
    [Qq / 2 + ((Qq mod 2) * D + R) / (2 * D)]. *)
Lemma round_decision_54 Qq D R :
  0 < Qq -> 0 < D -> 0 <= R < D ->
  (round_nearest_even (Qq / 2)
     (loc_of_shr_record (shr_1 (shr_record_of_loc Qq (new_location D R))))
   = Qq / 2
   /\ 2 * ((Qq mod 2) * D + R) <= 2 * D)
  \/ (round_nearest_even (Qq / 2)
        (loc_of_shr_record (shr_1 (shr_record_of_loc Qq (new_location D R))))
      = Qq / 2 + 1
      /\ 2 * D <= 2 * ((Qq mod 2) * D + R)).
Proof.
  intros HQ HD HR. rewrite new_location_spec by assumption.
  assert (Hb : Qq mod 2 = 0 \/ Qq mod 2 = 1)
    by (pose proof (Z.mod_pos_bound Qq 2); lia).
  assert (Hq : Qq = 2 * (Qq / 2) + Qq mod 2) by (apply Z.div_mod; lia).
  destruct Qq as [|q|q]; try lia.
  assert (Hm : Zpos q mod 2 = if Z.odd (Zpos q) then 1 else 0)
    by apply Zmod_odd.
  assert (S : forall l, shr_1 (shr_record_of_loc (Zpos q) l)
              = {| shr_m := Zpos q / 2; shr_r := Z.odd (Zpos q);
                   shr_s := match l with loc_Exact => false | _ => true end |}).
  { intros l. destruct q as [q|q|]; destruct l as [|[]];
      cbn [shr_record_of_loc shr_1 orb]; f_equal; try reflexivity;
      first [apply Z.div_unique with (r := 1); lia
            |apply Z.div_unique with (r := 0); lia]. }
  rewrite S.
  destruct (Z.eqb_spec R 0) as [->|Hn];
    destruct (Z.odd (Zpos q)); cbn [loc_of_shr_record round_nearest_even].
  - destruct (Z.even (Zpos q / 2)); [left | right]; split; (reflexivity || lia).
  - left. split; [reflexivity | lia].
  - right. split; [reflexivity | lia].
  - left. split; [reflexivity | lia].
Qed.

(** The quotient of two normal numbers, rounded once. With [t] the
    number of bits by which the integer quotient exceeds 53 bits, the
    exact quotient is [(H + N / D) * 2^B] for [D = m2 * 2^t] and
    [B = e1 - e2 - 53 + t], and the result is [H * 2^B] or
    [(H + 1) * 2^B], whichever is nearer. *)
Lemma div_core s1 m1 e1 s2 m2 e2 :
  Zpos (digits2_pos m1) = 53 -> Zpos (digits2_pos m2) = 53 ->
  -52 <= e1 <= 120 -> -52 <= e2 <= 120 ->
  exists M E t H N,
    div (S754_finite s1 m1 e1) (S754_finite s2 m2 e2)
    = S754_finite (xorb s1 s2) M E
    /\ Zpos (digits2_pos M) = 53
    /\ (t = 0 \/ t = 1)
    /\ e1 - e2 - 53 + t <= E <= e1 - e2 - 53 + t + 1
    /\ 2 ^ 52 <= H < 2 ^ 53
    /\ 0 <= N < Zpos m2 * 2 ^ t
    /\ Zpos m1 * 2 ^ 53 = H * (Zpos m2 * 2 ^ t) + N
    /\ (Zpos M * 2 ^ (E - (e1 - e2 - 53 + t)) = H /\ 2 * N <= Zpos m2 * 2 ^ t
        \/ Zpos M * 2 ^ (E - (e1 - e2 - 53 + t)) = H + 1
           /\ Zpos m2 * 2 ^ t <= 2 * N).
Proof.
  intros D1 D2 E1 E2. unfold div, SFdiv, SFdiv_core_binary. cbn [Zdigits2].
  rewrite D1, D2.
  replace (Z.min (fexp prec emax (53 + e1 - (53 + e2))) (e1 - e2)) with (e1 - e2 - 53)
    by fexp_lia.
  replace (e1 - e2 - (e1 - e2 - 53)) with 53 by lia.
  rewrite Z.shiftl_mul_pow2 by lia.
  pose proof (digits2_pos_bounds m1) as [A1 A2]. rewrite D1 in A1, A2.
  pose proof (digits2_pos_bounds m2) as [B1 B2]. rewrite D2 in B1, B2.
  change (2 ^ (53 - 1)) with 4503599627370496 in *.
  change (2 ^ 52) with 4503599627370496.
  change (2 ^ 53) with 9007199254740992 in *.
  assert (Hq1 : 4503599627370496 <= Zpos m1 * 9007199254740992 / Zpos m2)
    by (apply Z.div_le_lower_bound; lia).
  assert (Hq2 : Zpos m1 * 9007199254740992 / Zpos m2 < 18014398509481984)
    by (apply Z.div_lt_upper_bound; lia).
  pose proof (Z_div_mod (Zpos m1 * 9007199254740992) (Zpos m2) eq_refl) as DM.
  unfold Z.div in Hq1, Hq2.
  destruct (Z.div_eucl (Zpos m1 * 9007199254740992) (Zpos m2)) as [q r].
  cbn [fst] in Hq1, Hq2. destruct DM as [DM1 DM2].
  destruct (Z.lt_ge_cases q 9007199254740992) as [Hs|Hl].
  - destruct (binary_round_aux_53 (xorb s1 s2) q (e1 - e2 - 53)
                (new_location (Zpos m2) r)) as (M & E & -> & HD & HE & HV);
      [change (2 ^ 52) with 4503599627370496;
       change (2 ^ 53) with 9007199254740992; lia | lia |].
    exists M, E, 0, q, r.
    rewrite Z.pow_0_r, Z.mul_1_r, Z.add_0_r.
    split; [reflexivity|]. split; [exact HD|]. split; [now left|].
    split; [lia|]. split; [lia|]. split; [lia|]. split; [lia|].
    rewrite HV. apply round_decision_53; lia.
  - destruct (binary_round_aux_54 (xorb s1 s2) q (e1 - e2 - 53)
                (new_location (Zpos m2) r)) as (M & E & -> & HD & HE & HV);
      [change (2 ^ 53) with 9007199254740992;
       change (2 ^ 54) with 18014398509481984; lia | lia |].
    assert (Hb : q mod 2 = 0 \/ q mod 2 = 1)
      by (pose proof (Z.mod_pos_bound q 2); lia).
    assert (Hq : q = 2 * (q / 2) + q mod 2) by (apply Z.div_mod; lia).
    exists M, E, 1, (q / 2), ((q mod 2) * Zpos m2 + r).
    change (2 ^ 1) with 2.
    split; [reflexivity|]. split; [exact HD|]. split; [now right|].
    split; [lia|].
    split; [split; [apply Z.div_le_lower_bound | apply Z.div_lt_upper_bound]; lia|].
    split; [destruct Hb as [-> | ->]; lia|].
    split.
    { rewrite DM1. rewrite Hq at 1. ring. }
    rewrite HV.
    destruct (round_decision_54 q (Zpos m2) r) as [[-> Hc]|[-> Hc]]; [lia.. | |];
      [left | right]; (split; [reflexivity | lia]).
Qed.

End roundFacts.

Module nearestFacts.
Import math floatFacts roundFacts.
Local Open Scope Q_scope.

Lemma Qpow2_pos (e : Z) : 0 < 2 ^ e.
Proof. apply Qpower_0_lt. reflexivity. Qed.

Lemma Qpow2_Z (n : Z) : (0 <= n)%Z -> inject_Z (2 ^ n) == 2 ^ n.
Proof. intros H. now rewrite Zpower_Qpower. Qed.

Lemma Qpow2_add (a b : Z) : 2 ^ (a + b) == 2 ^ a * 2 ^ b.
Proof. apply Qpower_plus. discriminate. Qed.

(** The number a finite [float64] stands for, as a product. *)
Lemma toQ_finite s m e :
  toQ (S754_finite s m e) == inject_Z (if s then Zneg m else Zpos m) * 2 ^ e.
Proof.
  unfold toQ. destruct e as [|p|k].
  - rewrite Z.pow_0_r, Z.mul_1_r. change (2 ^ 0) with 1. ring.
  - rewrite inject_Z_mult, Qpow2_Z by lia. reflexivity.
  - rewrite Qmake_Qdiv, Zpos_iter_xO, Z.mul_1_l, Qpow2_Z by lia.
    change (Zneg k) with (- Zpos k)%Z. rewrite Qpower_opp. reflexivity.
Qed.

(** No [float64] lies strictly between [H * 2^B] and [(H + 1) * 2^B]
    when [H] has 53 bits. *)
Lemma float_gap (g : float64) (H B : Z) :
  isFinite g = true -> valid_binary prec emax g = true ->
  (2 ^ 52 <= H < 2 ^ 53)%Z ->
  toQ g <= inject_Z H * 2 ^ B \/ inject_Z (H + 1) * 2 ^ B <= toQ g.
Proof.
  intros Hf Hv HH. pose proof (Qpow2_pos B) as HB.
  change (2 ^ 52)%Z with 4503599627370496%Z in HH.
  change (2 ^ 53)%Z with 9007199254740992%Z in HH.
  assert (H0 : 0 <= inject_Z H * 2 ^ B).
  { apply Qmult_le_0_compat; [|now apply Qlt_le_weak].
    change 0 with (inject_Z 0). rewrite <- Zle_Qle. lia. }
  destruct g as [s| | |s m e]; try discriminate.
  - left. exact H0.
  - rewrite toQ_finite. pose proof (Qpow2_pos e) as He.
    destruct s.
    + left. apply Qle_trans with 0; [|exact H0].
      assert (inject_Z (Zneg m) <= 0)
        by (change 0 with (inject_Z 0); rewrite <- Zle_Qle; lia).
      nra.
    + destruct (valid_digits _ _ _ Hv) as (Hd & _ & _).
      pose proof (digits2_pos_bounds m) as [_ Hm].
      assert (Hm' : (Zpos m < 9007199254740992)%Z).
      { eapply Z.lt_le_trans; [exact Hm|].
        change 9007199254740992%Z with (2 ^ 53)%Z.
        apply Z.pow_le_mono_r; lia. }
      destruct (Z.le_gt_cases B e) as [L|G].
      * assert (E : 2 ^ e == inject_Z (2 ^ (e - B)) * 2 ^ B).
        { rewrite Qpow2_Z by lia. rewrite <- Qpow2_add.
          now replace (e - B + B)%Z with e by lia. }
        rewrite E, Qmult_assoc, <- inject_Z_mult.
        destruct (Z.le_gt_cases (Zpos m * 2 ^ (e - B)) H) as [K|K].
        -- left. apply Qmult_le_compat_r; [|now apply Qlt_le_weak].
           now rewrite <- Zle_Qle.
        -- right. apply Qmult_le_compat_r; [|now apply Qlt_le_weak].
           rewrite <- Zle_Qle. lia.
      * left.
        assert (E : 2 ^ B == inject_Z (2 ^ (B - e)) * 2 ^ e).
        { rewrite Qpow2_Z by lia. rewrite <- Qpow2_add.
          now replace (B - e + e)%Z with B by lia. }
        rewrite E, Qmult_assoc, <- inject_Z_mult.
        apply Qmult_le_compat_r; [|now apply Qlt_le_weak].
        rewrite <- Zle_Qle.
        assert (2 <= 2 ^ (B - e))%Z.
        { change 2%Z with (2 ^ 1)%Z at 1. apply Z.pow_le_mono_r; lia. }
        nia.
Qed.

(** Between two neighbours the nearer one is nearer than every
    [float64]. *)
Lemma nearest_bracket (x f g u : Q) (H N D c : Z) :
  0 < u -> (0 <= N < D)%Z ->
  inject_Z D * x == inject_Z (H * D + N) * u ->
  f == inject_Z (H + c) * u ->
  (c = 0 /\ 2 * N <= D \/ c = 1 /\ D <= 2 * N)%Z ->
  g <= inject_Z H * u \/ inject_Z (H + 1) * u <= g ->
  Qabs (f - x) <= Qabs (g - x).
Proof.
  intros Hu HN Hx Hf Hc Hg.
  rewrite inject_Z_plus, inject_Z_mult in Hx.
  rewrite inject_Z_plus in Hf. rewrite inject_Z_plus in Hg.
  change (inject_Z 1) with 1 in Hg.
  assert (Hd : 0 < inject_Z D)
    by (change 0 with (inject_Z 0); rewrite <- Zlt_Qlt; lia).
  assert (Hn0 : 0 <= inject_Z N)
    by (change 0 with (inject_Z 0); rewrite <- Zle_Qle; lia).
  assert (Hn1 : inject_Z N < inject_Z D) by (rewrite <- Zlt_Qlt; lia).
  set (d := inject_Z D) in *. set (n := inject_Z N) in *.
  set (h := inject_Z H) in *.
  assert (Hw : d * (x - h * u) == n * u) by (ring_simplify; rewrite Hx; ring).
  set (w := x - h * u) in *.
  assert (Hw0 : 0 <= w) by nra.
  assert (Hw1 : w < u) by nra.
  pose proof (Qle_Qabs (g - x)) as G1.
  pose proof (Qle_Qabs (- (g - x))) as G2. rewrite Qabs_opp in G2.
  set (y := Qabs (g - x)) in *.
  assert (Hxw : x == h * u + w) by (unfold w; ring).
  destruct Hc as [[-> Hc]|[-> Hc]].
  - assert (Hc' : 2 * n <= d).
    { unfold n, d. change 2 with (inject_Z 2).
      rewrite <- inject_Z_mult, <- Zle_Qle. exact Hc. }
    assert (Hw2 : 2 * w <= u) by nra.
    change (inject_Z 0) with 0 in Hf.
    apply Qabs_case; intros _; destruct Hg as [Hg|Hg]; lra.
  - assert (Hc' : d <= 2 * n).
    { unfold n, d. change 2 with (inject_Z 2).
      rewrite <- inject_Z_mult, <- Zle_Qle. exact Hc. }
    assert (Hw2 : u <= 2 * w) by nra.
    change (inject_Z 1) with 1 in Hf.
    apply Qabs_case; intros _; destruct Hg as [Hg|Hg]; lra.
Qed.

Lemma nearest_wd (x y : Q) (f : float64) : x == y -> nearest x f -> nearest y f.
Proof.
  intros E (Hf & Hv & Hn). split; [exact Hf|]. split; [exact Hv|].
  intros g Hg Hgv. rewrite <- E. now apply Hn.
Qed.

(** When the number is itself a [float64], a nearest [float64] stands
    for it. *)
Lemma nearest_exact (x : Q) (f g : float64) :
  nearest x f -> isFinite g = true -> valid_binary prec emax g = true ->
  toQ g == x -> toQ f == x.
Proof.
  intros (_ & _ & Hn) Hg Hv E. specialize (Hn g Hg Hv).
  assert (Z : Qabs (toQ g - x) == 0).
  { rewrite E. setoid_replace (x - x) with 0 by ring. reflexivity. }
  rewrite Z in Hn. apply Qabs_Qle_condition in Hn. lra.
Qed.

(** The quotient of two positive normal numbers is a [float64] nearest
    to the quotient of the numbers they stand for. *)
Lemma div_nearest m1 e1 m2 e2 :
  (Zpos (digits2_pos m1) = 53)%Z -> (Zpos (digits2_pos m2) = 53)%Z ->
  (-52 <= e1 <= 120)%Z -> (-52 <= e2 <= 120)%Z ->
  nearest (toQ (S754_finite false m1 e1) / toQ (S754_finite false m2 e2))
          (div (S754_finite false m1 e1) (S754_finite false m2 e2)).
Proof.
  intros D1 D2 E1 E2.
  destruct (div_core false m1 e1 false m2 e2 D1 D2 E1 E2)
    as (M & E & t & H & N & Hdiv & HD & Ht & HE & HH & HN & Hrel & Hdec).
  rewrite Hdiv. cbn [xorb].
  split; [reflexivity|].
  split; [apply valid_normal; [exact HD | lia]|].
  intros g Hg Hv.
  set (B := (e1 - e2 - 53 + t)%Z) in *.
  assert (Ht0 : (0 <= t)%Z) by lia.
  assert (P1 : 2 ^ e1 == 2 ^ (e1 - e2) * 2 ^ e2).
  { rewrite <- Qpow2_add. now replace (e1 - e2 + e2)%Z with e1 by lia. }
  assert (P2 : 2 ^ 53 * 2 ^ B == 2 ^ (e1 - e2) * 2 ^ t).
  { rewrite <- !Qpow2_add. now replace (53 + B)%Z with (e1 - e2 + t)%Z by (unfold B; lia). }
  assert (P3 : 2 ^ E == inject_Z (2 ^ (E - B)) * 2 ^ B).
  { rewrite Qpow2_Z by lia. rewrite <- Qpow2_add.
    now replace (E - B + B)%Z with E by lia. }
  pose proof (Qpow2_pos e2) as Hb. pose proof (Qpow2_pos B) as HU.
  assert (Hm2 : 0 < inject_Z (Zpos m2)) by reflexivity.
  assert (Hf : exists c : Z,
             (Zpos M * 2 ^ (E - B) = H + c)%Z
             /\ (c = 0 /\ 2 * N <= Zpos m2 * 2 ^ t
                 \/ c = 1 /\ Zpos m2 * 2 ^ t <= 2 * N)%Z).
  { destruct Hdec as [[Hm Hc]|[Hm Hc]]; [exists 0%Z | exists 1%Z];
      (split; [lia|]); [left | right]; (split; [reflexivity | exact Hc]). }
  destruct Hf as (c & Hm & Hc).
  apply (nearest_bracket _ _ _ (2 ^ B) H N (Zpos m2 * 2 ^ t) c).
  - exact HU.
  - exact HN.
  - rewrite <- Hrel. rewrite !toQ_finite.
    rewrite !inject_Z_mult, !Qpow2_Z by lia. rewrite P1.
    transitivity (inject_Z (Zpos m1) * (2 ^ (e1 - e2) * 2 ^ t)).
    + field. split; lra.
    + rewrite <- P2. ring.
  - rewrite toQ_finite, P3, Qmult_assoc, <- inject_Z_mult, Hm. reflexivity.
  - exact Hc.
  - apply float_gap; assumption.
Qed.

End nearestFacts.

(** C8, as stated, fails for the quota 100000 and the period 300000: the
    sample is the [float64] nearest to one third, not one third. *)
Lemma quota_sample_third_counterexample :
  value (calculateV2CPUQuota (fsCpuMax "100000 300000") cgroupV2Path)
  = (S754_finite false 6004799503160661 (-54), None) /\
  ~ Qeq (math.toQ (S754_finite false 6004799503160661 (-54))) (100000 # 300000).
Proof.
  split; [reflexivity|]. unfold Qeq. vm_compute. discriminate.
Qed.

(** One half and two and a half are numbers of [float64]: the samples for
    50000/100000 and 250000/100000 are exact. *)
Example quota_sample_exact_examples :
  Qeq (math.toQ (math.div (math.of_int 50000) (math.of_int 100000))) (1 # 2) /\
  Qeq (math.toQ (math.div (math.of_int 250000) (math.of_int 100000))) (5 # 2).
Proof. split; reflexivity. Qed.

(** From 2^53 on the conversion of the quota rounds before the division
    does: for the quota 2^53 + 1 and the period 3 the sample is not the
    [float64] nearest to the quotient 3002399751580331, which is a
    [float64] itself. *)
Example quota_sample_double_rounding :
  math.div (math.of_int 9007199254740993) (math.of_int 3)
  = S754_finite false 6004799503160661 (-1) /\
  Qeq (math.toQ (S754_finite false 6004799503160662 (-1))) (9007199254740993 # 3) /\
  valid_binary math.prec math.emax (S754_finite false 6004799503160662 (-1)) = true /\
  ~ nearest (9007199254740993 # 3)
            (math.div (math.of_int 9007199254740993) (math.of_int 3)).
Proof.
  split; [reflexivity|]. split; [reflexivity|]. split; [reflexivity|].
  intros (_ & _ & H).
  specialize (H (S754_finite false 6004799503160662 (-1)) eq_refl eq_refl).
  vm_compute in H. apply H. reflexivity.
Qed.

(** C8 (amended). For all [int64] pairs with quota >= 0 and period > 0
    the sample of a level, in v1 and in v2, is the [float64]
    [float64(quota) / float64(period)]; it is a number with a clear sign
    bit, and it is a [float64] nearest to the exact quotient of the two
    converted operands. Below 2^53 the conversions are exact: the sample
    is then a [float64] nearest to the rational [quota / period], and it
    stands for [quota / period] exactly whenever that is a number of
    [float64], as for one half, for two and a half, and for every whole
    multiple [k] of the period, where the sample is [float64(k)]. *)
Theorem quota_sample_rounded (quota period : Z) :
  (0 <= quota < 2 ^ 63)%Z -> (0 < period < 2 ^ 63)%Z ->
  (forall fs path,
     value (readIntFromFile fs (filepath.Join2 path "cpu.cfs_quota_us")) = (quota, None) ->
     value (readIntFromFile fs (filepath.Join2 path "cpu.cfs_period_us")) = (period, None) ->
     value (calculateV1CPUQuota fs path)
     = (math.div (math.of_int quota) (math.of_int period), None))
  /\ (forall fs path content q p,
     fsReadFile fs (filepath.Join2 path "cpu.max") = Some content ->
     Fields content = [q; p] ->
     strconv.ParseInt q = (quota, None) -> strconv.ParseInt p = (period, None) ->
     value (calculateV2CPUQuota fs path)
     = (math.div (math.of_int quota) (math.of_int period), None))
  /\ math.IsNaN (math.div (math.of_int quota) (math.of_int period)) = false
  /\ math.Signbit (math.div (math.of_int quota) (math.of_int period)) = false
  /\ nearest (math.toQ (math.of_int quota) / math.toQ (math.of_int period))
             (math.div (math.of_int quota) (math.of_int period))
  /\ ((quota < 2 ^ 53)%Z -> (period < 2 ^ 53)%Z ->
      Qeq (math.toQ (math.of_int quota)) (inject_Z quota)
      /\ Qeq (math.toQ (math.of_int period)) (inject_Z period)
      /\ nearest (Qmake quota (Z.to_pos period))
                 (math.div (math.of_int quota) (math.of_int period))
      /\ forall g : float64,
           isFinite g = true -> valid_binary math.prec math.emax g = true ->
           Qeq (math.toQ g) (Qmake quota (Z.to_pos period)) ->
           Qeq (math.toQ (math.div (math.of_int quota) (math.of_int period)))
               (Qmake quota (Z.to_pos period)))
  /\ (forall k : Z,
     quota = (k * period)%Z -> (quota < 2 ^ 53)%Z ->
     math.div (math.of_int quota) (math.of_int period) = math.of_int k
     /\ Qeq (math.toQ (math.div (math.of_int quota) (math.of_int period)))
            (Qmake quota (Z.to_pos period))).
Proof.
  intros Hq Hp.
  assert (Hn : nearest (math.toQ (math.of_int quota) / math.toQ (math.of_int period))
                 (math.div (math.of_int quota) (math.of_int period))).
  { destruct (floatFacts.of_int_normal period) as (mp & ep & Ep & Dp & Xp); [lia | lia|].
    destruct (Z.ltb_spec period 0) as [|_]; [lia|].
    destruct (Z.eq_dec quota 0) as [->|Hq0].
    - rewrite Ep. split; [reflexivity|]. split; [reflexivity|].
      intros g _ _.
      assert (E : Qeq (math.toQ (math.div (math.of_int 0) (S754_finite false mp ep))
                       - math.toQ (math.of_int 0) / math.toQ (S754_finite false mp ep)) 0).
      { change (math.toQ (math.div (math.of_int 0) (S754_finite false mp ep)))
          with (inject_Z 0).
        change (math.toQ (math.of_int 0)) with (inject_Z 0).
        unfold Qdiv. ring. }
      rewrite E. apply Qabs_nonneg.
    - destruct (floatFacts.of_int_normal quota) as (mq & eq & Eq & Dq & Xq); [lia | lia|].
      destruct (Z.ltb_spec quota 0) as [|_]; [lia|].
      rewrite Eq, Ep. now apply nearestFacts.div_nearest. }
  split; [|split; [|split; [|split; [|split; [exact Hn|split]]]]].
  - intros fs path Hfq Hfp. rewrite calculateV1CPUQuota_spec, Hfq.
    destruct (Z.eqb_spec quota (-1)); [lia|]. rewrite Hfp.
    destruct (Z.eqb_spec period 0); [lia | reflexivity].
  - intros fs path content q p Hf Hfl Hpq Hpp.
    rewrite (proj2 (calculateV2CPUQuota_spec fs path)), Hf, Hfl. simpl.
    destruct (String.eqb_spec q "max") as [->|_]; [discriminate Hpq|].
    rewrite Hpq, Hpp. destruct (Z.eqb_spec period 0); [lia | reflexivity].
  - apply floatFacts.div_of_int_not_nan; lia.
  - rewrite (proj2 (floatFacts.div_of_int_not_nan quota period
                      ltac:(lia) ltac:(lia) ltac:(lia))).
    destruct (Z.ltb_spec quota 0), (Z.ltb_spec period 0); (reflexivity || lia).
  - intros Hq53 Hp53.
    assert (Cq : Qeq (math.toQ (math.of_int quota)) (inject_Z quota)).
    { destruct (Z.eq_dec quota 0) as [->|Hq0]; [reflexivity|].
      apply floatFacts.toQ_of_int. lia. }
    assert (Cp : Qeq (math.toQ (math.of_int period)) (inject_Z period))
      by (apply floatFacts.toQ_of_int; lia).
    assert (Hn' : nearest (Qmake quota (Z.to_pos period))
                    (math.div (math.of_int quota) (math.of_int period))).
    { eapply nearestFacts.nearest_wd; [|exact Hn].
      rewrite Cq, Cp, Qmake_Qdiv, Z2Pos.id by lia. reflexivity. }
    split; [exact Cq|]. split; [exact Cp|]. split; [exact Hn'|].
    intros g Hg Hv Eg. exact (nearestFacts.nearest_exact _ _ g Hn' Hg Hv Eg).
  - intros k Hk H53.
    assert (Hk0 : (0 <= k)%Z) by nia.
    assert (Hd : math.div (math.of_int quota) (math.of_int period) = math.of_int k).
    { destruct (Z.eq_dec k 0) as [->|Hkn].
      - subst quota.
        destruct (floatFacts.of_int_finite period ltac:(lia) ltac:(lia)) as (m & e & ->).
        destruct (Z.ltb_spec period 0); [lia | reflexivity].
      - subst quota. apply floatFacts.div_of_int_multiple; lia. }
    split; [exact Hd|]. rewrite Hd.
    assert (Hv : Qeq (math.toQ (math.of_int k)) (inject_Z k)).
    { destruct (Z.eq_dec k 0) as [->|Hkn]; [reflexivity|].
      apply floatFacts.toQ_of_int. nia. }
    rewrite Hv. unfold Qeq. cbn [Qnum Qden inject_Z].
    rewrite Z2Pos.id by lia. lia.
Qed.

(** Two and a half periods: the quotient is a number of [float64], and
    the sample stands for it exactly. *)
Lemma quota_sample_rounded_witness :
  (0 <= 250000 < 2 ^ 63)%Z /\ (0 < 100000 < 2 ^ 63)%Z /\
  Qeq (math.toQ (S754_finite false 5629499534213120 (-51))) (250000 # 100000) /\
  Qeq (math.toQ (math.div (math.of_int 250000) (math.of_int 100000)))
      (250000 # 100000).
Proof.
  assert (Hq : (0 <= 250000 < 2 ^ 63)%Z) by (split; [discriminate | reflexivity]).
  assert (Hp : (0 < 100000 < 2 ^ 63)%Z) by (split; reflexivity).
  split; [exact Hq|]. split; [exact Hp|]. split; [reflexivity|].
  destruct (quota_sample_rounded 250000 100000 Hq Hp) as (_ & _ & _ & _ & _ & H & _).
  destruct (H eq_refl eq_refl) as (_ & _ & _ & He).
  exact (He (S754_finite false 5629499534213120 (-51)) eq_refl eq_refl eq_refl).
Defined.

(** ** The resolver returns *)

Lemma Join2_rooted (a b : string) :
  filepath.rooted a = true -> filepath.rooted (filepath.Join2 a b) = true.
Proof.
  intros Ha. destruct (filepathFacts.rooted_split a Ha) as (t & ->).
  unfold filepath.Join2. simpl negb. cbv iota.
  apply filepathFacts.Clean_rooted. reflexivity.
Qed.

(** The walk of the resolver starts at a rooted path, so with fuel for
    the length of that path it ends. *)
Lemma walkHierarchy_joined
    (calcFunc : string -> IO (float64 * option error))
    (rootPath cgroupPath : string) (fuel : nat) :
  filepath.rooted rootPath = true ->
  String.length (filepath.Join2 rootPath cgroupPath) <= fuel ->
  exists ls,
    levels fuel rootPath (filepath.Join2 rootPath cgroupPath) = Some ls /\
    value (walkHierarchy fuel (filepath.Join2 rootPath cgroupPath) calcFunc rootPath)
    = Some (if math.IsInf (runningMin (samples calcFunc ls)) 1 then math.zero
            else runningMin (samples calcFunc ls), None).
Proof.
  intros Hr Hf.
  destruct (levels_rooted rootPath fuel _ (Join2_rooted rootPath cgroupPath Hr) Hf)
    as (ls & Hls & _).
  exists ls. split; [exact Hls|].
  exact (proj1 (walkHierarchy_levels calcFunc rootPath fuel _ ls Hls)).
Qed.

(** On every file system [cgroupLimit] returns, given fuel for the length
    of the directory of the process in the hierarchy. *)
Lemma cgroupLimit_returns (fs : FS) :
  exists N : nat, forall fuel, N <= fuel ->
    exists r, value (cgroupLimit fuel fs) = Some r.
Proof.
  exists (String.length
            (filepath.Join2 cgroupV2Path (fst (value (getProcessCgroupPath fs ""))))
          + String.length
              (filepath.Join2 cgroupV1CPUPath (fst (value (getProcessCgroupPath fs "cpu"))))).
  intros fuel Hf.
  assert (He : exists e, value (getEffectiveCPULimit fuel fs) = Some e).
  { unfold getEffectiveCPULimit. rewrite value_bind, value_Stat.
    destruct (fsStat fs (filepath.Join2 cgroupV2Path "cgroup.controllers")).
    - unfold getCgroupV2Limit. rewrite value_bind.
      destruct (value (getProcessCgroupPath fs "")) as [p [e|]];
        [eexists; reflexivity|].
      cbv beta iota zeta.
      destruct (walkHierarchy_joined (calculateV2CPUQuota fs) cgroupV2Path p fuel eq_refl)
        as (ls & _ & ->); [simpl fst in Hf; lia | eexists; reflexivity].
    - rewrite value_bind, value_Stat.
      destruct (fsStat fs cgroupV1CPUPath); [|eexists; reflexivity].
      unfold getCgroupV1Limit. rewrite value_bind.
      destruct (value (getProcessCgroupPath fs "cpu")) as [p [e|]];
        [eexists; reflexivity|].
      cbv beta iota zeta.
      destruct (walkHierarchy_joined (calculateV1CPUQuota fs) cgroupV1CPUPath p fuel eq_refl)
        as (ls & _ & ->); [simpl fst in Hf; lia | eexists; reflexivity]. }
  destruct He as ([effective [e|]] & He); unfold cgroupLimit; rewrite value_bind, He;
    [eexists; reflexivity|].
  destruct (math.eqb effective math.zero); eexists; reflexivity.
Qed.

(** With that fuel the resolver walks a hierarchy whenever it detects a
    version and finds the path of the process. *)
Lemma resolves_v2_enough (fs : FS) (cgroupPath : string) (fuel : nat) :
  fsStat fs (filepath.Join2 cgroupV2Path "cgroup.controllers") = true ->
  value (getProcessCgroupPath fs "") = (cgroupPath, None) ->
  String.length (filepath.Join2 cgroupV2Path cgroupPath) <= fuel ->
  exists l, resolves fuel fs l.
Proof.
  intros H2 Hp Hf.
  destruct (levels_rooted cgroupV2Path fuel _ (Join2_rooted cgroupV2Path cgroupPath eq_refl) Hf)
    as (ls & Hls & _).
  eexists. exact (resolves_v2 fuel fs cgroupPath ls H2 Hp Hls).
Qed.

Lemma resolves_v1_enough (fs : FS) (cgroupPath : string) (fuel : nat) :
  fsStat fs (filepath.Join2 cgroupV2Path "cgroup.controllers") = false ->
  fsStat fs cgroupV1CPUPath = true ->
  value (getProcessCgroupPath fs "cpu") = (cgroupPath, None) ->
  String.length (filepath.Join2 cgroupV1CPUPath cgroupPath) <= fuel ->
  exists l, resolves fuel fs l.
Proof.
  intros H2 H1 Hp Hf.
  destruct (levels_rooted cgroupV1CPUPath fuel _
              (Join2_rooted cgroupV1CPUPath cgroupPath eq_refl) Hf) as (ls & Hls & _).
  eexists. exact (resolves_v1 fuel fs cgroupPath ls H2 H1 Hp Hls).
Qed.

(** * Further properties of the resolver *)

(** ** Failures of the membership lookup *)

Lemma calls_getEffectiveCPULimit_error (fuel : nat) (fs : FS) :
  (fsStat fs (filepath.Join2 cgroupV2Path "cgroup.controllers") = true ->
   snd (value (getProcessCgroupPath fs "")) <> None ->
   calls (getEffectiveCPULimit fuel fs)
   = [AStat (filepath.Join2 cgroupV2Path "cgroup.controllers");
      AOpen "/proc/self/cgroup"])
  /\ (fsStat fs (filepath.Join2 cgroupV2Path "cgroup.controllers") = false ->
      fsStat fs cgroupV1CPUPath = true ->
      snd (value (getProcessCgroupPath fs "cpu")) <> None ->
      calls (getEffectiveCPULimit fuel fs)
      = [AStat (filepath.Join2 cgroupV2Path "cgroup.controllers");
         AStat cgroupV1CPUPath; AOpen "/proc/self/cgroup"]).
Proof.
  split.
  - intros H2 He. unfold getEffectiveCPULimit, getCgroupV2Limit.
    rewrite calls_bind, value_Stat, H2, calls_bind, calls_getProcessCgroupPath.
    destruct (value (getProcessCgroupPath fs "")) as [p [e|]]; [reflexivity|].
    now destruct He.
  - intros H2 H1 He. unfold getEffectiveCPULimit, getCgroupV1Limit.
    rewrite calls_bind, value_Stat, H2, calls_bind, value_Stat, H1, calls_bind,
      calls_getProcessCgroupPath.
    destruct (value (getProcessCgroupPath fs "cpu")) as [p [e|]]; [reflexivity|].
    now destruct He.
Qed.

Lemma calls_cgroupLimit (fuel : nat) (fs : FS) :
  calls (cgroupLimit fuel fs) = calls (getEffectiveCPULimit fuel fs).
Proof.
  unfold cgroupLimit. rewrite calls_bind.
  destruct (value (getEffectiveCPULimit fuel fs)) as [[eff [e|]]|];
    try (simpl; apply app_nil_r).
  destruct (math.eqb eff math.zero); simpl; apply app_nil_r.
Qed.

(** X1. When a version is detected and the lookup in the membership file
    fails, [cgroupLimit] returns [(0, 0, err)] with the error of the lookup
    wrapped in the message of that version; this does not depend on the
    fuel, no file of the hierarchy is read, and [main] reports the error. *)
Theorem lookup_failure_propagates
    (fuel : nat) (fs : FS) (path msg : string) (e : error) :
  (fsStat fs (filepath.Join2 cgroupV2Path "cgroup.controllers") = true /\
   value (getProcessCgroupPath fs "") = (path, Some e) /\
   msg = "failed to get cgroup v2 path: ")
  \/ (fsStat fs (filepath.Join2 cgroupV2Path "cgroup.controllers") = false /\
      fsStat fs cgroupV1CPUPath = true /\
      value (getProcessCgroupPath fs "cpu") = (path, Some e) /\
      msg = "failed to get cgroup v1 path: ") ->
  value (cgroupLimit fuel fs) = Some (math.zero, math.zero, Some (Wrapf msg e))
  /\ option_map mainReport (value (cgroupLimit fuel fs))
     = Some (ReportError (Wrapf msg e))
  /\ (forall p, ~ In (ARead p) (calls (cgroupLimit fuel fs))).
Proof.
  intros H.
  assert (Hv : value (getEffectiveCPULimit fuel fs)
               = Some (math.zero, Some (Wrapf msg e))).
  { destruct H as [(H2 & Hp & ->) | (H2 & H1 & Hp & ->)].
    - rewrite (getEffectiveCPULimit_v2 fuel fs H2), value_bind.
      unfold getCgroupV2Limit. now rewrite value_bind, Hp.
    - rewrite (getEffectiveCPULimit_v1 fuel fs H2 H1).
      unfold getCgroupV1Limit. now rewrite value_bind, Hp. }
  assert (Hc : value (cgroupLimit fuel fs)
               = Some (math.zero, math.zero, Some (Wrapf msg e))).
  { unfold cgroupLimit. now rewrite value_bind, Hv. }
  split; [exact Hc|]. split; [now rewrite Hc|].
  intros p Hin. rewrite calls_cgroupLimit in Hin.
  destruct (calls_getEffectiveCPULimit_error fuel fs) as [C2 C1].
  destruct H as [(H2 & Hp & _) | (H2 & H1 & Hp & _)].
  - rewrite C2 in Hin by (assumption || (rewrite Hp; discriminate)).
    destruct Hin as [Hin|[Hin|[]]]; discriminate.
  - rewrite C1 in Hin by (assumption || (rewrite Hp; discriminate)).
    destruct Hin as [Hin|[Hin|[Hin|[]]]]; discriminate.
Qed.

Lemma lookup_failure_propagates_witness :
  value (getProcessCgroupPath fsNoMembership "")
  = ("", Some (PathError "open" "/proc/self/cgroup")) /\
  value (cgroupLimit 0 fsNoMembership)
  = Some (math.zero, math.zero,
          Some (Wrapf "failed to get cgroup v2 path: "
                      (PathError "open" "/proc/self/cgroup"))).
Proof.
  split; [reflexivity|].
  refine (proj1 (lookup_failure_propagates 0 fsNoMembership ""
                   "failed to get cgroup v2 path: "
                   (PathError "open" "/proc/self/cgroup") _)).
  left. repeat split; reflexivity.
Defined.

(** ** The v1 way *)

Lemma calls_readIntFromFile (fs : FS) (filePath : string) :
  calls (readIntFromFile fs filePath) = [ARead filePath].
Proof. exact (proj1 (readIntFromFile_spec fs filePath)). Qed.

Lemma calls_calculateV1CPUQuota (fs : FS) (path : string) :
  calls (calculateV1CPUQuota fs path)
  = match value (readIntFromFile fs (filepath.Join2 path "cpu.cfs_quota_us")) with
    | (quota, None) =>
        if (quota =? -1)%Z then [ARead (filepath.Join2 path "cpu.cfs_quota_us")]
        else [ARead (filepath.Join2 path "cpu.cfs_quota_us");
              ARead (filepath.Join2 path "cpu.cfs_period_us")]
    | (_, Some _) => [ARead (filepath.Join2 path "cpu.cfs_quota_us")]
    end.
Proof.
  unfold calculateV1CPUQuota. rewrite calls_bind, calls_readIntFromFile.
  destruct (value (readIntFromFile fs (filepath.Join2 path "cpu.cfs_quota_us")))
    as [quota [e|]]; [reflexivity|].
  unfold cgroupV1UnlimitedQuota. destruct (quota =? -1)%Z; [reflexivity|].
  rewrite calls_bind, calls_readIntFromFile.
  destruct (value (readIntFromFile fs (filepath.Join2 path "cpu.cfs_period_us")))
    as [period [e|]]; [reflexivity|].
  destruct (period =? 0)%Z; reflexivity.
Qed.

(** X2. [calculateV1CPUQuota] reads the quota file first and at most one
    more file; it reads the period file exactly when the quota file gave
    an integer other than [-1]. A level whose quota file is missing or
    malformed costs one read. *)
Theorem calculateV1CPUQuota_reads (fs : FS) (path : string) :
  (calls (calculateV1CPUQuota fs path)
   = [ARead (filepath.Join2 path "cpu.cfs_quota_us")]
   \/ calls (calculateV1CPUQuota fs path)
      = [ARead (filepath.Join2 path "cpu.cfs_quota_us");
         ARead (filepath.Join2 path "cpu.cfs_period_us")])
  /\ (List.length (calls (calculateV1CPUQuota fs path)) = 2
      <-> exists quota : Z,
            value (readIntFromFile fs (filepath.Join2 path "cpu.cfs_quota_us"))
            = (quota, None) /\ quota <> (-1)%Z).
Proof.
  rewrite calls_calculateV1CPUQuota.
  destruct (value (readIntFromFile fs (filepath.Join2 path "cpu.cfs_quota_us")))
    as [quota [e|]].
  - split; [now left|]. split; [discriminate|]. intros (q & H & _). discriminate.
  - destruct (Z.eqb_spec quota (-1)) as [->|Hq].
    + split; [now left|]. split; [discriminate|].
      intros (q & H & Hn). injection H as <-. now destruct Hn.
    + split; [now right|]. split; [|reflexivity]. intros _. now exists quota.
Qed.





(** ** The numbers [cgroupLimit] returns *)

Module resultFacts.
Import math floatFacts.
Local Open Scope Z_scope.

Lemma of_int_nonneg n :
  0 <= n <= 2 ^ 63 -> isFinite (of_int n) = true /\ Signbit (of_int n) = false.
Proof.
  intros Hn. destruct (Z.eq_dec n 0) as [->|Hn0]; [split; reflexivity|].
  destruct (of_int_finite n Hn0) as (m & e & ->); [lia|].
  destruct (Z.ltb_spec n 0); [lia | split; reflexivity].
Qed.

(** The quotient of two [int64], the divisor not zero, is a number. *)
Lemma div_of_int_finite q p :
  - 2 ^ 63 <= q <= 2 ^ 63 -> - 2 ^ 63 <= p <= 2 ^ 63 -> p <> 0 ->
  isFinite (div (of_int q) (of_int p)) = true.
Proof.
  intros Hq Hp Hp0.
  destruct (of_int_normal p Hp0 Hp) as (mp & ep & -> & Dp & Ep).
  destruct (Z.eq_dec q 0) as [->|Hq0]; [reflexivity|].
  destruct (of_int_normal q Hq0 Hq) as (mq & eq & -> & Dq & Eq).
  now destruct (div_normal (q <? 0) mq eq (p <? 0) mp ep Dq Dp Eq Ep) as (m & e & -> & _).
Qed.

(** [Min] keeps the class of the samples. *)
Lemma Min_sampleClass x y : sampleClass x -> sampleClass y -> sampleClass (Min x y).
Proof.
  intros Hx Hy.
  assert (Nx : IsNaN x = false) by (destruct Hx as [->|Hx]; [reflexivity | now destruct x]).
  assert (Ny : IsNaN y = false) by (destruct Hy as [->|Hy]; [reflexivity | now destruct y]).
  destruct (mathFacts.Min_cases x y Nx Ny) as [[-> | ->] _]; assumption.
Qed.

Lemma Ceil_zero s : Ceil (S754_zero s) = S754_zero s.
Proof. now destruct s. Qed.

Lemma Ceil_integral s m e : 0 <= e -> Ceil (S754_finite s m e) = S754_finite s m e.
Proof.
  intros He. unfold Ceil. cbn [SFopp Floor].
  destruct (Z.leb_spec 0 e); [|lia]. cbn [SFopp]. now rewrite Bool.negb_involutive.
Qed.

Lemma Ceil_negative m k :
  Ceil (S754_finite true m (Zneg k)) = SFopp (of_int (Zpos m / 2 ^ Zpos k)).
Proof.
  unfold Ceil. cbn [SFopp negb Floor]. cbn [Z.leb Z.compare Z.opp].
  now rewrite Z.shiftr_div_pow2 by lia.
Qed.

Lemma shifted_small m k :
  Zpos (digits2_pos m) <= 53 -> 0 <= Zpos m / 2 ^ Zpos k < 2 ^ 52.
Proof.
  intros Hd.
  assert (Hp : 2 <= 2 ^ Zpos k).
  { change 2 with (2 ^ 1) at 1. apply Z.pow_le_mono_r; lia. }
  pose proof (digits2_pos_bounds m) as [_ B].
  assert (Zpos m < 2 ^ 53).
  { eapply Z.lt_le_trans; [exact B|]. apply Z.pow_le_mono_r; lia. }
  split; [apply Z.div_pos; lia|].
  apply Z.div_lt_upper_bound; [lia|]. change (2 ^ 53) with (2 * 2 ^ 52) in *. nia.
Qed.

Lemma SFopp_finite x : isFinite (SFopp x) = isFinite x.
Proof. now destruct x. Qed.

(** The ceiling of a number is a number. *)
Lemma Ceil_finite x :
  valid_binary prec emax x = true -> isFinite x = true -> isFinite (Ceil x) = true.
Proof.
  destruct x as [s| | |s m e]; try discriminate; intros Hv _.
  - now rewrite Ceil_zero.
  - destruct (valid_digits _ _ _ Hv) as (Hd & _ & _).
    destruct e as [|p|k]; [now rewrite Ceil_integral | now rewrite Ceil_integral|].
    destruct s.
    + rewrite Ceil_negative, SFopp_finite.
      apply of_int_nonneg. pose proof (shifted_small m k Hd).
      change (2 ^ 63) with 9223372036854775808.
      change (2 ^ 52) with 4503599627370496 in *. lia.
    + rewrite Ceil_fraction. apply of_int_nonneg.
      pose proof (Ceil_fraction_bounds m k Hd).
      change (2 ^ 63) with 9223372036854775808.
      change (2 ^ 52) with 4503599627370496 in *. lia.
Qed.

Lemma Max_two_finite y : isFinite y = true -> isFinite (Max two y) = true.
Proof.
  intros Hy. unfold Max.
  destruct y as [s| | |s m e]; try discriminate; cbn [IsInf IsNaN orb];
    change (IsInf two 1) with false; cbn [orb];
    change (eqb two zero) with false; cbn [andb];
    destruct (gtb two _); reflexivity.
Qed.

(** [Max(2, y) = 2] for a [y] that is zero or negative. *)
Lemma Max_two_nonpos y :
  (exists s, y = S754_zero s) \/ (exists m e, y = S754_finite true m e) ->
  Max two y = two.
Proof. intros [(s & ->) | (m & e & ->)]; reflexivity. Qed.

Lemma toQ_negative_floor m e :
  (Qceiling (toQ (S754_finite true m e)) <= 0)%Z.
Proof.
  unfold toQ. destruct e as [|p|k].
  - rewrite Qceiling_Z. lia.
  - rewrite Qceiling_Z. assert (0 < 2 ^ Zpos p) by (apply Z.pow_pos_nonneg; lia). nia.
  - unfold Qceiling, Qfloor, Qopp. cbn [Qnum Qden Z.opp].
    assert (0 <= Zpos m / Zpos (Pos.iter xO 1%positive k)) by (apply Z.div_pos; lia).
    lia.
Qed.

(** For every [float64] number [x], [Max(2, Ceil(x))] stands for the
    integer [max 2 (ceiling x)]. *)
Lemma adjusted_value x :
  valid_binary prec emax x = true -> isFinite x = true ->
  Qeq (toQ (Max two (Ceil x))) (inject_Z (Z.max 2 (Qceiling (toQ x)))).
Proof.
  intros Hv Hf. destruct x as [s| | |s m e]; try discriminate.
  - rewrite Ceil_zero. destruct s; reflexivity.
  - destruct s; [|apply Max_two_Ceil_value; [exact Hv | reflexivity | reflexivity]].
    pose proof (toQ_negative_floor m e) as Hq. rewrite Z.max_l by lia.
    destruct (valid_digits _ _ _ Hv) as (Hd & _ & _).
    assert (Hm : Max two (Ceil (S754_finite true m e)) = two).
    { apply Max_two_nonpos.
      destruct e as [|p|k];
        [right; rewrite Ceil_integral by lia; eauto
        |right; rewrite Ceil_integral by lia; eauto|].
      rewrite Ceil_negative.
      pose proof (shifted_small m k Hd) as Hs.
      destruct (Z.eq_dec (Zpos m / 2 ^ Zpos k) 0) as [->|Hn].
      - left. now exists true.
      - right. destruct (of_int_finite (Zpos m / 2 ^ Zpos k) Hn) as (m' & e' & ->).
        + change (2 ^ 63) with 9223372036854775808.
          change (2 ^ 52) with 4503599627370496 in *. lia.
        + destruct (Z.ltb_spec (Zpos m / 2 ^ Zpos k) 0); [lia|]. cbn. eauto. }
    rewrite Hm. reflexivity.
Qed.

Lemma of_int_valid n :
  - 2 ^ 63 <= n <= 2 ^ 63 -> valid_binary prec emax (of_int n) = true.
Proof.
  intros Hn. destruct (Z.eq_dec n 0) as [->|Hn0]; [reflexivity|].
  destruct (of_int_normal n Hn0 Hn) as (m & e & -> & Hd & He).
  apply valid_normal; [exact Hd | lia].
Qed.

Lemma SFopp_valid x : valid_binary prec emax (SFopp x) = valid_binary prec emax x.
Proof. now destruct x. Qed.

(** The ceiling of a number of [float64] is one. *)
Lemma Ceil_valid x :
  valid_binary prec emax x = true -> isFinite x = true ->
  valid_binary prec emax (Ceil x) = true.
Proof.
  destruct x as [s| | |s m e]; try discriminate; intros Hv _.
  - now rewrite Ceil_zero.
  - destruct (valid_digits _ _ _ Hv) as (Hd & _ & _).
    destruct e as [|p|k];
      [now rewrite Ceil_integral | now rewrite Ceil_integral by lia|].
    destruct s.
    + rewrite Ceil_negative, SFopp_valid.
      apply of_int_valid. pose proof (shifted_small m k Hd).
      change (2 ^ 63) with 9223372036854775808.
      change (2 ^ 52) with 4503599627370496 in *. lia.
    + rewrite Ceil_fraction. apply of_int_valid.
      pose proof (Ceil_fraction_bounds m k Hd).
      change (2 ^ 63) with 9223372036854775808.
      change (2 ^ 52) with 4503599627370496 in *. lia.
Qed.

Lemma Max_two_valid y :
  valid_binary prec emax y = true -> isFinite y = true ->
  valid_binary prec emax (Max two y) = true.
Proof.
  intros Hv Hy. unfold Max.
  destruct y as [s| | |s m e]; try discriminate; cbn [IsInf IsNaN orb];
    change (IsInf two 1) with false; cbn [orb];
    change (eqb two zero) with false; cbn [andb];
    destruct (gtb two _); first [exact Hv | reflexivity].
Qed.

End resultFacts.

Section Numbers.
Import math floatFacts strconvFacts resultFacts.

Variable fs : FS.

Lemma calculateV1CPUQuota_sampleClass path x :
  value (calculateV1CPUQuota fs path) = (x, None) -> sampleClass x.
Proof.
  rewrite calculateV1CPUQuota_spec.
  destruct (value (readIntFromFile fs (filepath.Join2 path "cpu.cfs_quota_us")))
    as [quota [e|]] eqn:Eq; [discriminate|].
  destruct (quota =? -1)%Z; [intros H; injection H as <-; now left|].
  destruct (value (readIntFromFile fs (filepath.Join2 path "cpu.cfs_period_us")))
    as [period [e|]] eqn:Ep; [discriminate|].
  destruct (Z.eqb_spec period 0); [discriminate|].
  intros H. injection H as <-.
  apply (readIntFromFile_int64 fs) in Eq. apply (readIntFromFile_int64 fs) in Ep.
  right. apply div_of_int_finite; lia.
Qed.

Lemma calculateV2CPUQuota_sampleClass path x :
  value (calculateV2CPUQuota fs path) = (x, None) -> sampleClass x.
Proof.
  rewrite (proj2 (calculateV2CPUQuota_spec fs path)).
  destruct (fsReadFile fs (filepath.Join2 path "cpu.max")) as [content|]; [|discriminate].
  cbv zeta.
  destruct (negb (List.length (Fields content) =? 2)%nat); [discriminate|].
  destruct (nth 0 (Fields content) "" =? "max");
    [intros H; injection H as <-; now left|].
  destruct (strconv.ParseInt (nth 0 (Fields content) "")) as [quota [e|]] eqn:Eq;
    [discriminate|].
  destruct (strconv.ParseInt (nth 1 (Fields content) "")) as [period [e|]] eqn:Ep;
    [discriminate|].
  destruct (Z.eqb_spec period 0); [discriminate|].
  intros H. injection H as <-.
  apply ParseInt_range in Eq. apply ParseInt_range in Ep.
  right. apply div_of_int_finite; lia.
Qed.

Lemma runningMin_sampleClass (calcFunc : string -> IO (float64 * option error)) :
  (forall path x, value (calcFunc path) = (x, None) -> sampleClass x) ->
  forall ls, sampleClass (runningMin (samples calcFunc ls)).
Proof.
  intros Hc ls. unfold runningMin.
  assert (H : forall init, sampleClass init ->
            sampleClass (fold_left Min (samples calcFunc ls) init)).
  { induction ls as [|p rest IH]; intros init Hi; simpl; [exact Hi|].
    destruct (value (calcFunc p)) as [limit [e|]] eqn:E; [now apply IH|].
    simpl. apply IH. apply Min_sampleClass; [exact Hi | exact (Hc p limit E)]. }
  apply H. now left.
Qed.

Lemma walkHierarchy_finite (calcFunc : string -> IO (float64 * option error))
    (fuel : nat) (startPath rootPath : string) (x : float64) (err : option error) :
  (forall path y, value (calcFunc path) = (y, None) -> sampleClass y) ->
  value (walkHierarchy fuel startPath calcFunc rootPath) = Some (x, err) ->
  isFinite x = true /\ err = None.
Proof.
  intros Hc H. destruct (walkHierarchy_inv _ _ _ _ _ H) as (ls & _ & Hr).
  injection Hr as -> ->. split; [|reflexivity].
  destruct (IsInf (runningMin (samples calcFunc ls)) 1) eqn:Ei; [reflexivity|].
  destruct (runningMin_sampleClass calcFunc Hc ls) as [E|E]; [|exact E].
  rewrite E in Ei. discriminate.
Qed.

(** Whatever [getEffectiveCPULimit] returns, with or without an error,
    the limit is a number. *)
Lemma getEffectiveCPULimit_finite (fuel : nat) (x : float64) (err : option error) :
  value (getEffectiveCPULimit fuel fs) = Some (x, err) -> isFinite x = true.
Proof.
  unfold getEffectiveCPULimit. rewrite value_bind, value_Stat.
  destruct (fsStat fs (filepath.Join2 cgroupV2Path "cgroup.controllers")).
  - unfold getCgroupV2Limit. rewrite value_bind.
    destruct (value (getProcessCgroupPath fs "")) as [p [e|]];
      cbv beta iota zeta.
    + intros H. now injection H as <- _.
    + intros H. eapply walkHierarchy_finite; [|exact H].
      apply calculateV2CPUQuota_sampleClass.
  - rewrite value_bind, value_Stat.
    destruct (fsStat fs cgroupV1CPUPath).
    + unfold getCgroupV1Limit. rewrite value_bind.
      destruct (value (getProcessCgroupPath fs "cpu")) as [p [e|]];
        cbv beta iota zeta.
      * intros H. now injection H as <- _.
      * intros H. eapply walkHierarchy_finite; [|exact H].
        apply calculateV1CPUQuota_sampleClass.
    + intros H. now injection H as <- _.
Qed.

(** What [cgroupLimit] returns when it returns. *)
Lemma cgroupLimit_inv (fuel : nat) (eff adj : float64) (err : option error) :
  value (cgroupLimit fuel fs) = Some (eff, adj, err) ->
  (exists x e, value (getEffectiveCPULimit fuel fs) = Some (x, Some e)
     /\ eff = zero /\ adj = zero /\ err = Some e)
  \/ (exists x, value (getEffectiveCPULimit fuel fs) = Some (x, None)
        /\ eqb x zero = true /\ eff = zero /\ adj = zero /\ err = None)
  \/ (value (getEffectiveCPULimit fuel fs) = Some (eff, None)
        /\ eqb eff zero = false /\ adj = Max two (Ceil eff) /\ err = None).
Proof.
  unfold cgroupLimit. rewrite value_bind.
  destruct (value (getEffectiveCPULimit fuel fs)) as [[x [e|]]|] eqn:E;
    cbv beta iota zeta; [| |discriminate].
  - intros H. injection H as <- <- <-. left. now exists x, e.
  - destruct (eqb x zero) eqn:Ez; intros H; injection H as <- <- <-.
    + right; left. now exists x.
    + right; right. auto.
Qed.

End Numbers.

(** X4. Whatever [cgroupLimit] returns, the effective and the adjusted
    limit are numbers of [float64]: neither NaN nor an infinity, also when
    quota files hold the unlimited mark, negative numbers or the extremes
    of [int64]. *)
Theorem cgroupLimit_numbers (fuel : nat) (fs : FS)
    (eff adj : float64) (err : option error) :
  value (cgroupLimit fuel fs) = Some (eff, adj, err) ->
  isFinite eff = true /\ isFinite adj = true
  /\ valid_binary math.prec math.emax eff = true
  /\ valid_binary math.prec math.emax adj = true.
Proof.
  intros H.
  destruct (cgroupLimit_inv fs fuel eff adj err H)
    as [(x & e & _ & -> & -> & _) | [(x & _ & _ & -> & -> & _) | (He & _ & -> & _)]];
    [repeat split; reflexivity | repeat split; reflexivity |].
  pose proof (getEffectiveCPULimit_finite fs fuel eff None He) as Hf.
  destruct (getEffectiveCPULimit_valid fs fuel eff He) as [Hv _].
  pose proof (resultFacts.Ceil_finite eff Hv Hf) as Hc.
  split; [exact Hf|]. split; [now apply resultFacts.Max_two_finite|].
  split; [exact Hv|].
  apply resultFacts.Max_two_valid; [now apply resultFacts.Ceil_valid | exact Hc].
Qed.

(** The extremes of [int64] in [cpu.max] still give numbers. *)
Lemma cgroupLimit_numbers_witness :
  value (cgroupLimit 1 (fsCpuMax "-9223372036854775808 1"))
  = Some (math.of_int (- 2 ^ 63), math.two, None) /\
  isFinite (math.of_int (- 2 ^ 63)) = true /\ isFinite math.two = true.
Proof.
  split; [reflexivity|].
  pose proof (cgroupLimit_numbers 1 (fsCpuMax "-9223372036854775808 1")
                (math.of_int (- 2 ^ 63)) math.two None eq_refl) as H.
  split; [exact (proj1 H) | exact (proj1 (proj2 H))].
Defined.

(** X5. When [cgroupLimit] returns without an error, either both limits
    are 0 and [main] reports that the process is in no cgroup, or the
    effective limit is not 0, [main] reports the two limits, and the
    adjusted limit is a whole number: the larger of 2 and the ceiling of
    the effective limit, hence at least 2 and at least the effective
    limit. This holds for negative effective limits too. *)
Theorem cgroupLimit_adjusted_at_least_two (fuel : nat) (fs : FS)
    (eff adj : float64) :
  value (cgroupLimit fuel fs) = Some (eff, adj, None) ->
  (eff = math.zero /\ adj = math.zero
   /\ mainReport (eff, adj, None) = ReportNotInCgroup)
  \/ (math.eqb eff math.zero = false
      /\ mainReport (eff, adj, None) = ReportLimits eff adj
      /\ isFinite adj = true
      /\ exists n : Z,
           Qeq (math.toQ adj) (inject_Z n)
           /\ n = Z.max 2 (Qceiling (math.toQ eff))
           /\ (2 <= n)%Z
           /\ Qle (math.toQ eff) (inject_Z n)).
Proof.
  intros H.
  destruct (cgroupLimit_inv fs fuel eff adj None H)
    as [(x & e & _ & _ & _ & E) | [(x & _ & _ & -> & -> & _) | (He & Hz & -> & _)]];
    [discriminate E | left; repeat split; reflexivity | right].
  pose proof (getEffectiveCPULimit_finite fs fuel eff None He) as Hf.
  destruct (getEffectiveCPULimit_valid fs fuel eff He) as [Hv _].
  split; [exact Hz|]. split; [unfold mainReport; now rewrite Hz|].
  split; [apply resultFacts.Max_two_finite; now apply resultFacts.Ceil_finite|].
  exists (Z.max 2 (Qceiling (math.toQ eff))).
  split; [now apply resultFacts.adjusted_value|].
  split; [reflexivity|]. split; [lia|].
  apply Qle_trans with (inject_Z (Qceiling (math.toQ eff))); [apply Qle_ceiling|].
  rewrite <- Zle_Qle. lia.
Qed.

(** A negative quota: the effective limit is minus one half, the adjusted
    limit is 2, and [main] reports them. *)
Lemma cgroupLimit_adjusted_at_least_two_witness :
  value (cgroupLimit 1 (fsCpuMax "-50000 100000"))
  = Some (math.div (math.of_int (-1)) (math.of_int 2), math.of_int 2, None) /\
  mainReport (math.div (math.of_int (-1)) (math.of_int 2), math.of_int 2, None)
  = ReportLimits (math.div (math.of_int (-1)) (math.of_int 2)) (math.of_int 2).
Proof.
  split; [reflexivity|].
  destruct (cgroupLimit_adjusted_at_least_two 1 (fsCpuMax "-50000 100000")
              (math.div (math.of_int (-1)) (math.of_int 2)) (math.of_int 2) eq_refl)
    as [(E & _) | (_ & R & _)]; [discriminate E | exact R].
Defined.

(** ** Unlimited levels *)




(** ** Where an error of [cgroupLimit] comes from *)

(** The errors of the lookup in the membership file. *)
Lemma getProcessCgroupPath_errors (fs : FS) (controller path : string) (e : error) :
  value (getProcessCgroupPath fs controller) = (path, Some e) ->
  path = "" /\
  (fsOpen fs "/proc/self/cgroup" = None /\ e = PathError "open" "/proc/self/cgroup"
   \/ exists data readErr,
        fsOpen fs "/proc/self/cgroup" = Some (data, readErr)
        /\ findCgroupLine controller (fst (bufio.ScanLines data readErr)) = None
        /\ (snd (bufio.ScanLines data readErr) = Some e
            \/ snd (bufio.ScanLines data readErr) = None /\ e = notFound controller)).
Proof.
  unfold getProcessCgroupPath, os.Open, bind, value. cbn [fst snd].
  destruct (fsOpen fs "/proc/self/cgroup") as [[data readErr]|] eqn:Eo.
  - destruct (bufio.ScanLines data readErr) as [lines scanErr] eqn:Es.
    destruct (findCgroupLine controller lines) as [p|] eqn:Ef; [discriminate|].
    destruct scanErr as [se|]; cbn; intros H; injection H as <- <-;
      (split; [reflexivity|]); right; exists data, readErr; rewrite Es; cbn; auto.
  - cbn. intros H. injection H as <- <-. split; [reflexivity|]. now left.
Qed.

(** X7. An error of [cgroupLimit] always comes from the lookup in the
    membership file of a detected version, wrapped in the message of that
    version: the file cannot be opened, the scan of its lines stopped with
    an error before a line matched, or no line matched. A quota file that
    is missing, unreadable or malformed never makes [cgroupLimit] return
    an error. *)
Theorem cgroupLimit_error_origin (fuel : nat) (fs : FS)
    (eff adj : float64) (err : error) :
  value (cgroupLimit fuel fs) = Some (eff, adj, Some err) ->
  eff = math.zero /\ adj = math.zero /\
  exists (controller msg : string) (e : error),
    err = Wrapf msg e
    /\ value (getProcessCgroupPath fs controller) = ("", Some e)
    /\ (fsStat fs (filepath.Join2 cgroupV2Path "cgroup.controllers") = true
        /\ controller = "" /\ msg = "failed to get cgroup v2 path: "
        \/ fsStat fs (filepath.Join2 cgroupV2Path "cgroup.controllers") = false
           /\ fsStat fs cgroupV1CPUPath = true
           /\ controller = "cpu" /\ msg = "failed to get cgroup v1 path: ")
    /\ (e = PathError "open" "/proc/self/cgroup"
        \/ e = notFound controller
        \/ exists data readErr,
             fsOpen fs "/proc/self/cgroup" = Some (data, readErr)
             /\ snd (bufio.ScanLines data readErr) = Some e).
Proof.
  intros H.
  destruct (cgroupLimit_inv fs fuel eff adj (Some err) H)
    as [(x & e0 & He & -> & -> & E) | [(x & _ & _ & _ & _ & E) | (_ & _ & _ & E)]];
    [|discriminate E | discriminate E].
  injection E as <-. split; [reflexivity|]. split; [reflexivity|].
  revert He. unfold getEffectiveCPULimit. rewrite value_bind, value_Stat.
  destruct (fsStat fs (filepath.Join2 cgroupV2Path "cgroup.controllers")) eqn:S2.
  - unfold getCgroupV2Limit. rewrite value_bind.
    destruct (value (getProcessCgroupPath fs "")) as [p [e|]] eqn:Ep;
      cbv beta iota zeta.
    + intros Hx. injection Hx as _ <-.
      destruct (getProcessCgroupPath_errors fs "" p e Ep) as [-> Hc].
      exists "", "failed to get cgroup v2 path: ", e.
      split; [reflexivity|]. split; [exact Ep|]. split; [now left|].
      destruct Hc as [[_ ->] | (d & r & Ho & _ & [Hs | [_ ->]])];
        [now left | right; right; now exists d, r | right; now left].
    + intros Hx. apply walkHierarchy_finite in Hx.
      * destruct Hx as [_ Hx]. discriminate Hx.
      * apply calculateV2CPUQuota_sampleClass.
  - rewrite value_bind, value_Stat.
    destruct (fsStat fs cgroupV1CPUPath) eqn:S1; [|discriminate].
    unfold getCgroupV1Limit. rewrite value_bind.
    destruct (value (getProcessCgroupPath fs "cpu")) as [p [e|]] eqn:Ep;
      cbv beta iota zeta.
    + intros Hx. injection Hx as _ <-.
      destruct (getProcessCgroupPath_errors fs "cpu" p e Ep) as [-> Hc].
      exists "cpu", "failed to get cgroup v1 path: ", e.
      split; [reflexivity|]. split; [exact Ep|]. split; [now right|].
      destruct Hc as [[_ ->] | (d & r & Ho & _ & [Hs | [_ ->]])];
        [now left | right; right; now exists d, r | right; now left].
    + intros Hx. apply walkHierarchy_finite in Hx.
      * destruct Hx as [_ Hx]. discriminate Hx.
      * apply calculateV1CPUQuota_sampleClass.
Qed.

(** A v1 system whose membership file has no line of the CPU controller:
    the error is the wrapped lookup error. *)
Lemma cgroupLimit_error_origin_witness :
  value (cgroupLimit 0 fsV1NoCpuLine)
  = Some (math.zero, math.zero,
          Some (Wrapf "failed to get cgroup v1 path: " (notFound "cpu"))) /\
  exists (controller msg : string) (e : error),
    Wrapf "failed to get cgroup v1 path: " (notFound "cpu") = Wrapf msg e
    /\ value (getProcessCgroupPath fsV1NoCpuLine controller) = ("", Some e).
Proof.
  split; [reflexivity|].
  destruct (cgroupLimit_error_origin 0 fsV1NoCpuLine math.zero math.zero
              (Wrapf "failed to get cgroup v1 path: " (notFound "cpu")) eq_refl)
    as (_ & _ & c & m & e & H1 & H2 & _).
  exists c, m, e. split; assumption.
Defined.

(** ** The levels of a walk from a clean path *)

Module pathFacts.
Import Bytes filepath.

Lemma properElem_noSlash e : properElem e = true -> hasByte slash e = false.
Proof.
  unfold properElem. intros H. apply andb_prop in H. destruct H as [_ H].
  now apply negb_true_iff in H.
Qed.

Lemma sepOrProper_noSlash e : sepOrProper e = true -> hasByte slash e = false.
Proof.
  unfold sepOrProper. destruct (String.eqb_spec e "") as [->|_]; [reflexivity|].
  apply properElem_noSlash.
Qed.

Lemma splitByte_noSep sep a : hasByte sep a = false -> splitByte sep a = [a].
Proof.
  induction a as [|c a IH]; [reflexivity|]. cbn [hasByte splitByte].
  intros H. apply orb_false_elim in H. destruct H as [Hc Ha].
  now rewrite Hc, (IH Ha).
Qed.

Lemma splitByte_app_sep sep a b :
  hasByte sep a = false ->
  splitByte sep (a ++ String sep b) = a :: splitByte sep b.
Proof.
  induction a as [|c a IH]; cbn [hasByte append splitByte].
  - intros _. now rewrite Ascii.eqb_refl.
  - intros H. apply orb_false_elim in H. destruct H as [Hc Ha].
    now rewrite Hc, (IH Ha).
Qed.

(** Splitting a joined list gives the list back. *)
Lemma splitByte_Join l :
  l <> [] -> forallb (fun e => negb (hasByte slash e)) l = true ->
  splitByte slash (Join l "/") = l.
Proof.
  induction l as [|e l IH]; [congruence|]. intros _ H.
  cbn [forallb] in H. apply andb_prop in H. destruct H as [He Hl].
  apply negb_true_iff in He.
  destruct l as [|e2 l]; [now apply splitByte_noSep|].
  change (Join (e :: e2 :: l) "/") with (e ++ String slash (Join (e2 :: l) "/")).
  rewrite splitByte_app_sep by exact He. f_equal. apply IH; [discriminate | exact Hl].
Qed.

Lemma cleanElems_proper r : forall l stack,
  forallb sepOrProper l = true ->
  cleanElems r stack l = (rev stack ++ filter nonEmpty l)%list.
Proof.
  induction l as [|e l IH]; intros stack H.
  - cbn. now rewrite app_nil_r.
  - cbn [forallb] in H. apply andb_prop in H. destruct H as [He Hl].
    cbn [cleanElems filter]. unfold nonEmpty at 1. unfold sepOrProper in He.
    destruct (String.eqb_spec e "") as [->|Hne]; cbn [orb negb].
    + now apply IH.
    + cbn [orb] in He. unfold properElem in He.
      apply andb_prop in He. destruct He as [He _].
      apply andb_prop in He. destruct He as [He Hdd].
      apply andb_prop in He. destruct He as [_ Hd].
      apply negb_true_iff in Hd. apply negb_true_iff in Hdd.
      rewrite Hd, Hdd. rewrite (IH (e :: stack) Hl). cbn [rev].
      now rewrite <- app_assoc.
Qed.

(** [Clean] on a rooted path of names and empty elements drops the empty
    elements. *)
Lemma Clean_Join l :
  l <> [] -> forallb sepOrProper l = true ->
  Clean ("/" ++ Join l "/") = pathOf (filter nonEmpty l).
Proof.
  intros Hl Hp. unfold Clean.
  change ("/" ++ Join l "/") with (String slash (Join l "/")).
  cbn [String.eqb rooted]. rewrite Ascii.eqb_refl.
  cbn [splitByte]. rewrite Ascii.eqb_refl.
  rewrite splitByte_Join; [|exact Hl|].
  - cbn [cleanElems String.eqb orb]. rewrite cleanElems_proper by exact Hp.
    reflexivity.
  - rewrite forallb_forall in *. intros e He.
    apply negb_true_iff, sepOrProper_noSlash, Hp, He.
Qed.

Lemma filter_proper l : forallb properElem l = true -> filter nonEmpty l = l.
Proof.
  induction l as [|e l IH]; [reflexivity|]. cbn [forallb filter].
  intros H. apply andb_prop in H. destruct H as [He Hl].
  unfold nonEmpty at 1. unfold properElem in He.
  destruct (e =? ""); [discriminate He|]. cbn [negb]. now rewrite IH.
Qed.

Lemma proper_sepOrProper l :
  forallb properElem l = true -> forallb sepOrProper l = true.
Proof.
  rewrite !forallb_forall. intros H e He. unfold sepOrProper.
  rewrite (H e He). apply orb_true_r.
Qed.

Lemma append_assoc (a b c : string) : (a ++ b) ++ c = a ++ (b ++ c).
Proof. induction a as [|x a IH]; [reflexivity|]. cbn. now rewrite IH. Qed.

Lemma Join_app a b :
  a <> [] -> b <> [] -> Join (a ++ b) "/" = Join a "/" ++ "/" ++ Join b "/".
Proof.
  intros Ha Hb. induction a as [|e a IH]; [congruence|].
  destruct a as [|e2 a].
  - destruct b as [|f b]; [congruence|]. reflexivity.
  - change (Join ((e :: e2 :: a) ++ b) "/")
      with (e ++ "/" ++ Join ((e2 :: a) ++ b) "/").
    rewrite IH by discriminate.
    change (Join (e :: e2 :: a) "/") with (e ++ "/" ++ Join (e2 :: a) "/").
    now rewrite append_assoc.
Qed.

Lemma Join_elems l : Join (elemsOf l) "/" = Join l "/".
Proof. now destruct l. Qed.

Lemma elems_nonnil l : elemsOf l <> [].
Proof. now destruct l. Qed.

Lemma filter_elems l : forallb properElem l = true -> filter nonEmpty (elemsOf l) = l.
Proof. destruct l; [reflexivity|]. apply filter_proper. Qed.

Lemma sepOrProper_elems l :
  forallb properElem l = true -> forallb sepOrProper (elemsOf l) = true.
Proof. destruct l; [reflexivity|]. apply proper_sepOrProper. Qed.

(** A clean path is its own [Clean]. *)
Lemma Clean_pathOf l : forallb properElem l = true -> Clean (pathOf l) = pathOf l.
Proof.
  intros H. unfold pathOf at 1. rewrite <- Join_elems.
  rewrite Clean_Join; [|apply elems_nonnil | now apply sepOrProper_elems].
  now rewrite filter_elems.
Qed.

(** [Join] of two clean paths: the elements of the one, then those of the
    other. *)
Lemma Join2_pathOf rs es :
  forallb properElem rs = true -> forallb properElem es = true ->
  Join2 (pathOf rs) (pathOf es) = pathOf (rs ++ es).
Proof.
  intros Hr He. unfold Join2. change (pathOf rs =? "") with false. cbn [negb].
  assert (E : pathOf rs ++ "/" ++ pathOf es
              = "/" ++ Join (elemsOf rs ++ "" :: elemsOf es) "/").
  { unfold pathOf. rewrite Join_app; [|apply elems_nonnil | discriminate].
    rewrite Join_elems.
    change ("" :: elemsOf es)%list with ([""] ++ elemsOf es)%list.
    rewrite Join_app; [|discriminate | apply elems_nonnil].
    rewrite Join_elems. reflexivity. }
  rewrite E. rewrite Clean_Join.
  - rewrite filter_app. cbn [filter]. change (nonEmpty "") with false. cbv iota.
    now rewrite !filter_elems.
  - destruct rs; discriminate.
  - rewrite forallb_app. cbn [forallb]. change (sepOrProper "") with true.
    now rewrite !sepOrProper_elems.
Qed.

(** [Join] of a clean path and a name. *)
Lemma Join2_name l name :
  forallb properElem l = true -> properElem name = true ->
  Join2 (pathOf l) name = pathOf (l ++ [name]).
Proof.
  intros Hl Hn. unfold Join2. change (pathOf l =? "") with false. cbn [negb].
  assert (E : pathOf l ++ "/" ++ name = "/" ++ Join (elemsOf l ++ [name]) "/").
  { unfold pathOf. rewrite Join_app; [|apply elems_nonnil | discriminate].
    rewrite Join_elems. reflexivity. }
  rewrite E, Clean_Join.
  - rewrite filter_app, filter_elems by exact Hl.
    now rewrite (filter_proper [name]) by (cbn; now rewrite Hn).
  - destruct l; discriminate.
  - rewrite forallb_app, sepOrProper_elems by exact Hl.
    cbn. unfold sepOrProper. rewrite Hn. now rewrite orb_true_r.
Qed.

Lemma dirPrefix_noSlash e : hasByte slash e = false -> dirPrefix e = "".
Proof.
  induction e as [|c e IH]; [reflexivity|]. cbn [hasByte dirPrefix].
  intros H. apply orb_false_elim in H. destruct H as [Hc He].
  now rewrite (IH He), Hc.
Qed.

(** The prefix up to the last separator: all but a last name. *)
Lemma dirPrefix_app a e :
  hasByte slash e = false -> dirPrefix (a ++ "/" ++ e) = a ++ "/".
Proof.
  intros He. induction a as [|c a IH].
  - cbn [append dirPrefix]. rewrite (dirPrefix_noSlash e He).
    now rewrite Ascii.eqb_refl.
  - cbn [append dirPrefix]. cbn [append] in IH. rewrite IH.
    destruct a; reflexivity.
Qed.

(** The parent directory of a clean path. *)
Lemma Dir_pathOf l e :
  forallb properElem l = true -> properElem e = true ->
  Dir (pathOf (l ++ [e])) = pathOf l.
Proof.
  intros Hl He. unfold Dir.
  assert (E : pathOf (l ++ [e]) = ("/" ++ Join (l ++ [""]) "/") ++ e).
  { unfold pathOf. destruct l as [|x l]; [reflexivity|].
    rewrite !Join_app by discriminate. cbn. rewrite !append_assoc. reflexivity. }
  assert (E' : "/" ++ Join (l ++ [""]) "/"
               = match l with [] => "" | _ => pathOf l end ++ "/" ++ "").
  { unfold pathOf. destruct l as [|x l]; [reflexivity|].
    rewrite Join_app by discriminate. reflexivity. }
  assert (D : dirPrefix (pathOf (l ++ [e])) = "/" ++ Join (l ++ [""]) "/").
  { rewrite E. rewrite E' at 1.
    replace ((match l with [] => "" | _ => pathOf l end ++ "/" ++ "") ++ e)
      with (match l with [] => "" | _ => pathOf l end ++ "/" ++ e)
      by (now rewrite append_assoc).
    rewrite dirPrefix_app by (now apply properElem_noSlash).
    rewrite E'. reflexivity. }
  rewrite D, Clean_Join.
  - rewrite filter_app, filter_proper by exact Hl. cbn [filter].
    change (nonEmpty "") with false. cbv iota. now rewrite app_nil_r.
  - destruct l; discriminate.
  - rewrite forallb_app, proper_sepOrProper by exact Hl. reflexivity.
Qed.

(** Clean paths with different elements are different. *)
Lemma pathOf_inj a b :
  forallb properElem a = true -> forallb properElem b = true ->
  pathOf a = pathOf b -> a = b.
Proof.
  intros Ha Hb H. unfold pathOf in H. injection H as H.
  rewrite <- (Join_elems a), <- (Join_elems b) in H.
  assert (S : forall l, forallb properElem l = true ->
              splitByte slash (Join (elemsOf l) "/") = elemsOf l).
  { intros l Hl. apply splitByte_Join; [apply elems_nonnil|].
    pose proof (sepOrProper_elems l Hl) as Hs.
    rewrite forallb_forall in *. intros e Hin.
    apply negb_true_iff, sepOrProper_noSlash, Hs, Hin. }
  assert (E : elemsOf a = elemsOf b) by (rewrite <- (S a Ha), <- (S b Hb); now rewrite H).
  rewrite <- (filter_elems a Ha), <- (filter_elems b Hb). now rewrite E.
Qed.

End pathFacts.

Section Ancestors.
Import pathFacts.

Lemma ancestors_nil rs : ancestors rs [] = [pathOf rs].
Proof. unfold ancestors. cbn. now rewrite app_nil_r. Qed.

Lemma ancestors_snoc rs es e :
  ancestors rs (es ++ [e]) = pathOf (rs ++ es ++ [e]) :: ancestors rs es.
Proof.
  unfold ancestors. rewrite last_length, seq_S, rev_app_distr.
  cbn [rev app map Nat.add].
  rewrite <- (last_length es e) at 1. rewrite firstn_all. f_equal.
  apply map_ext_in. intros k Hk. apply in_rev, in_seq in Hk.
  rewrite firstn_app. replace (k - List.length es) with 0 by lia.
  cbn [firstn]. now rewrite app_nil_r.
Qed.

Lemma ancestors_length rs es : List.length (ancestors rs es) = S (List.length es).
Proof. unfold ancestors. now rewrite length_map, length_rev, length_seq. Qed.

(** From a clean path below a clean root the walk visits the path and
    its ancestors down to the root, one level for each element. *)
Lemma levels_ancestors rs :
  forallb properElem rs = true ->
  forall es, forallb properElem es = true ->
  forall k, levels (S (List.length es) + k) (pathOf rs) (pathOf (rs ++ es))
            = Some (ancestors rs es).
Proof.
  intros Hr es. induction es as [|e es IH] using rev_ind; intros He k.
  - rewrite app_nil_r, ancestors_nil. cbn [List.length Nat.add levels].
    now rewrite String.eqb_refl.
  - rewrite forallb_app in He. apply andb_prop in He. destruct He as [Hes He1].
    assert (He' : properElem e = true).
    { cbn in He1. now rewrite andb_true_r in He1. }
    rewrite last_length, ancestors_snoc.
    change (levels (S (S (List.length es)) + k) (pathOf rs) (pathOf (rs ++ es ++ [e])))
      with (if (pathOf (rs ++ es ++ [e]) =? pathOf rs)
               || (pathOf (rs ++ es ++ [e]) =? "/")
            then Some [pathOf (rs ++ es ++ [e])]
            else option_map (cons (pathOf (rs ++ es ++ [e])))
                   (levels (S (List.length es) + k) (pathOf rs)
                      (filepath.Dir (pathOf (rs ++ es ++ [e]))))).
    assert (Hall : forallb properElem (rs ++ es ++ [e]) = true).
    { rewrite !forallb_app, Hr, Hes. cbn. now rewrite He'. }
    destruct (String.eqb_spec (pathOf (rs ++ es ++ [e])) (pathOf rs)) as [E|_].
    { apply pathOf_inj in E; [|exact Hall | exact Hr].
      apply (f_equal (@List.length string)) in E.
      rewrite !length_app in E. cbn in E. lia. }
    destruct (String.eqb_spec (pathOf (rs ++ es ++ [e])) "/") as [E|_].
    { change "/" with (pathOf []) in E.
      apply pathOf_inj in E; [|exact Hall | reflexivity].
      apply (f_equal (@List.length string)) in E.
      rewrite !length_app in E. cbn in E. lia. }
    cbn [orb]. rewrite app_assoc, Dir_pathOf;
      [|rewrite forallb_app, Hr, Hes; reflexivity | exact He'].
    rewrite (IH Hes k). cbn [option_map]. now rewrite <- app_assoc.
Qed.

Lemma forallb_firstn (f : string -> bool) k l :
  forallb f l = true -> forallb f (firstn k l) = true.
Proof.
  revert k. induction l as [|x l IH]; intros [|k] H; try reflexivity.
  cbn [forallb firstn] in *. apply andb_prop in H. destruct H as [Hx Hl].
  now rewrite Hx, IH.
Qed.

Lemma pathOf_snoc l x : l <> [] -> pathOf (l ++ [x]) = pathOf l ++ "/" ++ x.
Proof.
  intros Hl. unfold pathOf. rewrite Join_app by (assumption || discriminate).
  reflexivity.
Qed.

(** The file of a level of the walk. *)
Lemma Join2_ancestor rs es name level :
  rs <> [] -> forallb properElem rs = true -> forallb properElem es = true ->
  properElem name = true -> In level (ancestors rs es) ->
  filepath.Join2 level name = level ++ "/" ++ name.
Proof.
  intros Hn Hr He Hname Hin. unfold ancestors in Hin.
  apply in_map_iff in Hin. destruct Hin as (k & <- & _).
  rewrite Join2_name; [|rewrite forallb_app, Hr; now apply forallb_firstn | exact Hname].
  apply pathOf_snoc. destruct rs; [congruence | discriminate].
Qed.

End Ancestors.

(** X8. When the root of the walk is a clean path [/r1/.../rm] and the
    path of the process in the membership file is a clean path
    [/e1/.../en] (names without separator, none empty, ["."] or [".."]),
    the walk starts at [/r1/.../rm/e1/.../en] and visits exactly that
    directory and its ancestors down to the root, the longest first:
    [n + 1] levels, for which [n + 1] units of fuel are enough. *)
Theorem walkHierarchy_visits_ancestors
    (calcFunc : string -> IO (float64 * option error))
    (rs es : list string) (fuel : nat) :
  forallb properElem rs = true -> forallb properElem es = true ->
  List.length es < fuel ->
  filepath.Join2 (pathOf rs) (pathOf es) = pathOf (rs ++ es)
  /\ levels fuel (pathOf rs) (pathOf (rs ++ es)) = Some (ancestors rs es)
  /\ List.length (ancestors rs es) = S (List.length es)
  /\ calls (walkHierarchy fuel (filepath.Join2 (pathOf rs) (pathOf es))
              calcFunc (pathOf rs))
     = flat_map (fun level => calls (calcFunc level)) (ancestors rs es)
  /\ value (walkHierarchy fuel (filepath.Join2 (pathOf rs) (pathOf es))
              calcFunc (pathOf rs))
     = Some (if math.IsInf (runningMin (samples calcFunc (ancestors rs es))) 1
             then math.zero
             else runningMin (samples calcFunc (ancestors rs es)), None).
Proof.
  intros Hr He Hf.
  assert (HL : levels fuel (pathOf rs) (pathOf (rs ++ es)) = Some (ancestors rs es)).
  { replace fuel with (S (List.length es) + (fuel - S (List.length es))) by lia.
    now apply levels_ancestors. }
  rewrite (pathFacts.Join2_pathOf rs es Hr He).
  destruct (walkHierarchy_levels calcFunc (pathOf rs) fuel _ _ HL) as [Hv Hc].
  split; [reflexivity|]. split; [exact HL|].
  split; [apply ancestors_length|]. split; [exact Hc | exact Hv].
Qed.

Lemma walkHierarchy_visits_ancestors_witness :
  levels 3 cgroupV2Path "/sys/fs/cgroup/kubepods/pod1"
  = Some ["/sys/fs/cgroup/kubepods/pod1"; "/sys/fs/cgroup/kubepods"; "/sys/fs/cgroup"].
Proof.
  exact (proj1 (proj2 (walkHierarchy_visits_ancestors
                         (calculateV2CPUQuota fsNoQuota)
                         ["sys"; "fs"; "cgroup"] ["kubepods"; "pod1"] 3
                         eq_refl eq_refl (le_n 3)))).
Defined.

(** X9. In a cgroup v2 system whose membership file gives a clean path
    [/e1/.../en], [getCgroupV2Limit] opens the membership file and then
    reads [cpu.max] once in the directory of the process and once in each
    of its ancestors down to [/sys/fs/cgroup], the deepest first, and
    nothing else; its result is the running minimum of the samples of
    these levels, or 0 when that is positive infinity. *)
Theorem getCgroupV2Limit_reads_ancestors (fuel : nat) (fs : FS) (es : list string) :
  value (getProcessCgroupPath fs "") = (pathOf es, None) ->
  forallb properElem es = true ->
  List.length es < fuel ->
  calls (getCgroupV2Limit fuel fs)
  = AOpen "/proc/self/cgroup"
    :: map (fun level => ARead (level ++ "/cpu.max"))
           (ancestors ["sys"; "fs"; "cgroup"] es)
  /\ value (getCgroupV2Limit fuel fs)
     = Some (if math.IsInf (runningMin (samples (calculateV2CPUQuota fs)
                                          (ancestors ["sys"; "fs"; "cgroup"] es))) 1
             then math.zero
             else runningMin (samples (calculateV2CPUQuota fs)
                                (ancestors ["sys"; "fs"; "cgroup"] es)), None).
Proof.
  intros Hp He Hf.
  assert (HL : levels fuel (pathOf ["sys"; "fs"; "cgroup"])
                 (pathOf (["sys"; "fs"; "cgroup"] ++ es))
               = Some (ancestors ["sys"; "fs"; "cgroup"] es)).
  { replace fuel with (S (List.length es) + (fuel - S (List.length es))) by lia.
    now apply levels_ancestors. }
  unfold getCgroupV2Limit.
  rewrite calls_bind, value_bind, calls_getProcessCgroupPath, Hp.
  cbv beta iota zeta.
  change cgroupV2Path with (pathOf ["sys"; "fs"; "cgroup"]).
  rewrite (pathFacts.Join2_pathOf ["sys"; "fs"; "cgroup"] es eq_refl He).
  destruct (walkHierarchy_levels (calculateV2CPUQuota fs)
              (pathOf ["sys"; "fs"; "cgroup"]) fuel _ _ HL) as [Hv Hc].
  rewrite Hv, Hc. split; [|reflexivity].
  cbn [app]. f_equal.
  assert (G : forall ls,
            (forall level, In level ls ->
               filepath.Join2 level "cpu.max" = level ++ "/" ++ "cpu.max") ->
            flat_map (fun level => calls (calculateV2CPUQuota fs level)) ls
            = map (fun level => ARead (level ++ "/cpu.max")) ls).
  { induction ls as [|l ls IH]; intros H; [reflexivity|].
    cbn [flat_map map]. rewrite (proj1 (calculateV2CPUQuota_spec fs l)).
    rewrite (H l (or_introl eq_refl)). cbn [app]. f_equal.
    apply IH. intros level Hin. apply H. now right. }
  apply G. intros level Hin.
  apply (Join2_ancestor ["sys"; "fs"; "cgroup"] es); [discriminate | reflexivity
    | exact He | reflexivity | exact Hin].
Qed.

(** The process in [/a/b]: three reads of [cpu.max], the deepest first. *)
Lemma getCgroupV2Limit_reads_ancestors_witness :
  value (getProcessCgroupPath fsNoQuota "") = ("/a/b", None) /\
  calls (getCgroupV2Limit 3 fsNoQuota)
  = [AOpen "/proc/self/cgroup";
     ARead "/sys/fs/cgroup/a/b/cpu.max";
     ARead "/sys/fs/cgroup/a/cpu.max";
     ARead "/sys/fs/cgroup/cpu.max"].
Proof.
  split; [reflexivity|].
  exact (proj1 (getCgroupV2Limit_reads_ancestors 3 fsNoQuota ["a"; "b"]
                  eq_refl eq_refl (le_n 3))).
Defined.

(** ** The membership file, line by line *)

Section Lines.
Import bufio.

Lemma rawLines_line (rest : string) : forall line cur,
  hasByte "010" line = false ->
  rawLines cur (line ++ String "010" rest) = (cur ++ line) :: rawLines "" rest.
Proof.
  induction line as [|c line IH]; intros cur H.
  - cbn. change (Ascii.eqb "010" "010") with true. cbv iota.
    f_equal. clear. induction cur as [|x cur IH]; [reflexivity|]. cbn. now rewrite <- IH.
  - cbn [hasByte] in H. apply orb_false_elim in H. destruct H as [Hc Hl].
    cbn [append rawLines]. rewrite Hc, (IH _ Hl). f_equal.
    now rewrite pathFacts.append_assoc.
Qed.

(** The scan of data that begins with a line that fits the buffer. *)
Lemma ScanLines_line line rest readErr :
  hasByte "010" line = false ->
  ScanLines (line ++ nl ++ rest) readErr
  = if (MaxScanTokenSize <=? String.length line)%nat then ([], Some ErrTooLong)
    else (dropCR line :: fst (ScanLines rest readErr),
          snd (ScanLines rest readErr)).
Proof.
  intros H. unfold ScanLines.
  change (line ++ nl ++ rest) with (line ++ String "010" rest).
  rewrite (rawLines_line rest line "" H). cbn [append scan].
  destruct (MaxScanTokenSize <=? String.length line)%nat; [reflexivity|].
  now destruct (scan (rawLines "" rest) readErr).
Qed.

End Lines.

(** X10. [getProcessCgroupPath] looks at the lines of the membership file
    in order. When the first line (without its carriage return) has three
    fields and passes the test for the controller, its third field is
    returned whatever follows it, be it a read error or a line that does
    not fit the buffer; when it does not, the result is that of the rest
    of the file; and a first line of 64 KiB or more ends the lookup with
    the error of the scanner. *)
Theorem getProcessCgroupPath_line_by_line
    (fs : FS) (controller line rest : string) (readErr : option error) :
  fsOpen fs "/proc/self/cgroup" = Some (line ++ nl ++ rest, readErr) ->
  hasByte "010" line = false ->
  let parts := splitByte ":" (bufio.dropCR line) in
  ((bufio.MaxScanTokenSize <= String.length line)%nat ->
   value (getProcessCgroupPath fs controller) = ("", Some ErrTooLong))
  /\ ((String.length line < bufio.MaxScanTokenSize)%nat ->
      List.length parts = 3 -> matches controller parts = true ->
      value (getProcessCgroupPath fs controller) = (nth 2 parts "", None))
  /\ ((String.length line < bufio.MaxScanTokenSize)%nat ->
      List.length parts <> 3 \/ matches controller parts = false ->
      forall fs' : FS,
        fsOpen fs' "/proc/self/cgroup" = Some (rest, readErr) ->
        value (getProcessCgroupPath fs controller)
        = value (getProcessCgroupPath fs' controller)).
Proof.
  intros Ho Hn parts.
  assert (E : value (getProcessCgroupPath fs controller)
              = let '(lines, scanErr) := bufio.ScanLines (line ++ nl ++ rest) readErr in
                match findCgroupLine controller lines with
                | Some path => (path, None)
                | None => match scanErr with
                          | Some e => ("", Some e)
                          | None => ("", Some (notFound controller))
                          end
                end).
  { unfold getProcessCgroupPath, os.Open, bind, value. rewrite Ho. cbn [fst].
    destruct (bufio.ScanLines (line ++ nl ++ rest) readErr) as [lines scanErr].
    destruct (findCgroupLine controller lines); [reflexivity|].
    destruct scanErr; reflexivity. }
  rewrite E, (ScanLines_line line rest readErr Hn). clear E.
  split; [|split].
  - intros Hlen. apply Nat.leb_le in Hlen. now rewrite Hlen.
  - intros Hlen H3 Hm. apply Nat.leb_gt in Hlen. rewrite Hlen.
    cbn [findCgroupLine]. fold parts. rewrite H3. cbn [Nat.eqb negb].
    unfold matches in Hm. now rewrite Hm.
  - intros Hlen Hskip fs' Ho'. apply Nat.leb_gt in Hlen. rewrite Hlen.
    unfold getProcessCgroupPath, os.Open, bind, value. rewrite Ho'. cbn [fst].
    destruct (bufio.ScanLines rest readErr) as [lines scanErr]. cbn [fst snd].
    cbn [findCgroupLine]. fold parts.
    assert (F : (if negb (List.length parts =? 3)%nat
                 then findCgroupLine controller lines
                 else if (negb (controller =? "")
                          && Contains (nth 1 parts "") controller)
                         || ((controller =? "") && (nth 1 parts "" =? ""))
                      then Some (nth 2 parts "")
                      else findCgroupLine controller lines)
                = findCgroupLine controller lines).
    { destruct (Nat.eqb_spec (List.length parts) 3) as [E3|N3]; [|reflexivity].
      destruct Hskip as [H|H]; [contradiction|].
      unfold matches in H. now rewrite H. }
    rewrite F. destruct (findCgroupLine controller lines); [reflexivity|].
    destruct scanErr; reflexivity.
Qed.

(** A line of another hierarchy, with a carriage return, before the line
    of the unified hierarchy: the first is passed over, the second
    decides. *)
Lemma getProcessCgroupPath_line_by_line_witness :
  fsOpen fsCrLf "/proc/self/cgroup"
  = Some ("1:name=systemd:/x" ++ String "013" "" ++ nl ++ "0::/a" ++ nl, None) /\
  value (getProcessCgroupPath fsCrLf "")
  = value (getProcessCgroupPath (fsV2 "/a" []) "") /\
  value (getProcessCgroupPath (fsV2 "/a" []) "") = ("/a", None).
Proof.
  split; [reflexivity|].
  pose proof (getProcessCgroupPath_line_by_line fsCrLf ""
                ("1:name=systemd:/x" ++ String "013" "") ("0::/a" ++ nl) None
                eq_refl eq_refl) as H.
  pose proof (getProcessCgroupPath_line_by_line (fsV2 "/a" []) ""
                "0::/a" "" None eq_refl eq_refl) as H'.
  split.
  - apply (proj2 (proj2 H));
      [apply Nat.ltb_lt; vm_compute; reflexivity | now right | reflexivity].
  - apply (proj1 (proj2 H'));
      [apply Nat.ltb_lt; vm_compute; reflexivity | reflexivity | reflexivity].
Defined.

(** ** A walk that starts outside its root *)

Lemma levels_outside (rootPath : string) :
  forall ss, forallb properElem ss = true ->
  ~ In rootPath (ancestors [] ss) ->
  forall k, levels (S (List.length ss) + k) rootPath (pathOf ss)
            = Some (ancestors [] ss).
Proof.
  intros ss. induction ss as [|e ss IH] using rev_ind; intros Hs Hout k.
  - rewrite ancestors_nil. cbn [List.length Nat.add levels].
    change (pathOf [] =? "/") with true. now rewrite orb_true_r.
  - rewrite forallb_app in Hs. apply andb_prop in Hs. destruct Hs as [Hss He1].
    assert (He : properElem e = true).
    { cbn in He1. now rewrite andb_true_r in He1. }
    rewrite ancestors_snoc in *. cbn [app] in *.
    rewrite last_length.
    change (levels (S (S (List.length ss)) + k) rootPath (pathOf (ss ++ [e])))
      with (if (pathOf (ss ++ [e]) =? rootPath) || (pathOf (ss ++ [e]) =? "/")
            then Some [pathOf (ss ++ [e])]
            else option_map (cons (pathOf (ss ++ [e])))
                   (levels (S (List.length ss) + k) rootPath
                      (filepath.Dir (pathOf (ss ++ [e]))))).
    destruct (String.eqb_spec (pathOf (ss ++ [e])) rootPath) as [E|_].
    { exfalso. apply Hout. now left. }
    destruct (String.eqb_spec (pathOf (ss ++ [e])) "/") as [E|_].
    { change "/" with (pathOf []) in E.
      apply pathFacts.pathOf_inj in E;
        [|rewrite forallb_app, Hss; cbn; now rewrite He | reflexivity].
      apply (f_equal (@List.length string)) in E.
      rewrite length_app in E. cbn in E. lia. }
    cbn [orb]. rewrite (pathFacts.Dir_pathOf ss e Hss He).
    rewrite (IH Hss); [reflexivity|]. intros Hin. apply Hout. now right.
Qed.

Lemma ancestors_last rs es : last (ancestors rs es) "" = pathOf rs.
Proof.
  induction es as [|e es IH] using rev_ind.
  - now rewrite ancestors_nil.
  - rewrite ancestors_snoc.
    destruct (ancestors rs es) as [|a l] eqn:E; [|exact IH].
    pose proof (ancestors_length rs es) as H. rewrite E in H. discriminate H.
Qed.

(** X11. The walk does not stay below its root: from a clean start path
    of which the root is no ancestor (the path of the process in the
    membership file may climb with [".."] elements), no level equals the
    root, and the walk visits the start directory and all its ancestors
    up to ["/"], where it ends; the calculation is made at each of
    them. *)
Theorem walkHierarchy_outside_root
    (calcFunc : string -> IO (float64 * option error))
    (rootPath : string) (ss : list string) (fuel : nat) :
  forallb properElem ss = true ->
  ~ In rootPath (ancestors [] ss) ->
  List.length ss < fuel ->
  levels fuel rootPath (pathOf ss) = Some (ancestors [] ss)
  /\ last (ancestors [] ss) "" = "/"
  /\ calls (walkHierarchy fuel (pathOf ss) calcFunc rootPath)
     = flat_map (fun level => calls (calcFunc level)) (ancestors [] ss)
  /\ value (walkHierarchy fuel (pathOf ss) calcFunc rootPath)
     = Some (if math.IsInf (runningMin (samples calcFunc (ancestors [] ss))) 1
             then math.zero
             else runningMin (samples calcFunc (ancestors [] ss)), None).
Proof.
  intros Hs Hout Hf.
  assert (HL : levels fuel rootPath (pathOf ss) = Some (ancestors [] ss)).
  { replace fuel with (S (List.length ss) + (fuel - S (List.length ss))) by lia.
    now apply levels_outside. }
  destruct (walkHierarchy_levels calcFunc rootPath fuel _ _ HL) as [Hv Hc].
  split; [exact HL|]. split; [apply ancestors_last|].
  split; [exact Hc | exact Hv].
Qed.

(** The membership path [/../..] leads from [/sys/fs/cgroup] to [/sys]:
    the walk reads [/sys/cpu.max] and [/cpu.max]. *)
Lemma walkHierarchy_outside_root_witness :
  filepath.Join2 cgroupV2Path "/../.." = pathOf ["sys"] /\
  calls (walkHierarchy 2 (filepath.Join2 cgroupV2Path "/../..")
           (calculateV2CPUQuota fsNone) cgroupV2Path)
  = [ARead "/sys/cpu.max"; ARead "/cpu.max"].
Proof.
  split; [reflexivity|].
  refine (eq_trans (proj1 (proj2 (proj2
            (walkHierarchy_outside_root (calculateV2CPUQuota fsNone) cgroupV2Path
               ["sys"] 2 eq_refl _ (le_n 2))))) eq_refl).
  intros [H|[H|[]]]; discriminate H.
Defined.

(** ** The reads of the v1 way *)

(** X12. In a cgroup v1 system whose membership file gives a clean path
    [/e1/.../en] for the CPU controller, [getCgroupV1Limit] opens the
    membership file and then, in the directory of the process and in each
    of its ancestors down to [/sys/fs/cgroup/cpu], the deepest first,
    reads [cpu.cfs_quota_us] and, when that gave an integer other than
    [-1], [cpu.cfs_period_us]; it makes no other call, and its result is
    the running minimum of the samples of these levels, or 0 when that is
    positive infinity. *)
Theorem getCgroupV1Limit_reads_ancestors (fuel : nat) (fs : FS) (es : list string) :
  value (getProcessCgroupPath fs "cpu") = (pathOf es, None) ->
  forallb properElem es = true ->
  List.length es < fuel ->
  calls (getCgroupV1Limit fuel fs)
  = AOpen "/proc/self/cgroup"
    :: flat_map (v1Reads fs) (ancestors ["sys"; "fs"; "cgroup"; "cpu"] es)
  /\ value (getCgroupV1Limit fuel fs)
     = Some (if math.IsInf (runningMin (samples (calculateV1CPUQuota fs)
                                          (ancestors ["sys"; "fs"; "cgroup"; "cpu"] es))) 1
             then math.zero
             else runningMin (samples (calculateV1CPUQuota fs)
                                (ancestors ["sys"; "fs"; "cgroup"; "cpu"] es)), None).
Proof.
  intros Hp He Hf.
  assert (HL : levels fuel (pathOf ["sys"; "fs"; "cgroup"; "cpu"])
                 (pathOf (["sys"; "fs"; "cgroup"; "cpu"] ++ es))
               = Some (ancestors ["sys"; "fs"; "cgroup"; "cpu"] es)).
  { replace fuel with (S (List.length es) + (fuel - S (List.length es))) by lia.
    now apply levels_ancestors. }
  unfold getCgroupV1Limit.
  rewrite calls_bind, value_bind, calls_getProcessCgroupPath, Hp.
  cbv beta iota zeta.
  change cgroupV1CPUPath with (pathOf ["sys"; "fs"; "cgroup"; "cpu"]).
  rewrite (pathFacts.Join2_pathOf ["sys"; "fs"; "cgroup"; "cpu"] es eq_refl He).
  destruct (walkHierarchy_levels (calculateV1CPUQuota fs)
              (pathOf ["sys"; "fs"; "cgroup"; "cpu"]) fuel _ _ HL) as [Hv Hc].
  rewrite Hv, Hc. split; [|reflexivity].
  cbn [app]. f_equal.
  assert (G : forall ls,
            (forall level, In level ls ->
               filepath.Join2 level "cpu.cfs_quota_us" = level ++ "/" ++ "cpu.cfs_quota_us"
               /\ filepath.Join2 level "cpu.cfs_period_us"
                  = level ++ "/" ++ "cpu.cfs_period_us") ->
            flat_map (fun level => calls (calculateV1CPUQuota fs level)) ls
            = flat_map (v1Reads fs) ls).
  { induction ls as [|l ls IH]; intros H; [reflexivity|].
    cbn [flat_map]. rewrite IH by (intros level Hin; apply H; now right).
    f_equal. rewrite calls_calculateV1CPUQuota. unfold v1Reads.
    destruct (H l (or_introl eq_refl)) as [-> ->].
    change (l ++ "/" ++ "cpu.cfs_quota_us") with (l ++ "/cpu.cfs_quota_us").
    destruct (value (readIntFromFile fs (l ++ "/cpu.cfs_quota_us"))) as [quota [e|]];
      [reflexivity|].
    destruct (quota =? -1)%Z; reflexivity. }
  apply G. intros level Hin.
  split; apply (Join2_ancestor ["sys"; "fs"; "cgroup"; "cpu"] es);
    (discriminate || reflexivity || assumption).
Qed.

(** The process in [/a] with half a CPU there and the unlimited mark
    at the root: the period file of the root is not read. *)
Lemma getCgroupV1Limit_reads_ancestors_witness :
  value (getProcessCgroupPath fsV1Half "cpu") = ("/a", None) /\
  calls (getCgroupV1Limit 2 fsV1Half)
  = [AOpen "/proc/self/cgroup";
     ARead "/sys/fs/cgroup/cpu/a/cpu.cfs_quota_us";
     ARead "/sys/fs/cgroup/cpu/a/cpu.cfs_period_us";
     ARead "/sys/fs/cgroup/cpu/cpu.cfs_quota_us"].
Proof.
  split; [reflexivity|].
  exact (proj1 (getCgroupV1Limit_reads_ancestors 2 fsV1Half ["a"]
                  eq_refl eq_refl (le_n 2))).
Defined.
